(** * Property health scoring engine: model of [prophealth-12.py]

    The development embeds the calculator of the dashboard
    ([PropertyHealthCalculator]) and the cascade delete of
    [Dashboard.render_property_management_sidebar].

    Python values are modelled as follows.
    - [int] is [Z] (unbounded).
    - [float] is IEEE-754 binary64: a finite value is the rational it
      denotes, every operation computes the exact rational result and
      rounds it to the nearest representable value, ties to even.
      Infinities and NaN are explicit; the sign of zero is not tracked.
    - exceptions are an error monad ([result]).
    - [dict]s with string keys are association lists searched from the
      front; [dict] results with fixed keys are records. *)

From Stdlib Require Import ZArith QArith Qabs Qpower Lia Lqa String Ascii List Bool.
From Stdlib Require Import Sorted Permutation.
From Stdlib Require SpecFloat.
Import ListNotations.

Set Implicit Arguments.
Open Scope Z_scope.

(* ================================================================= *)
(** * Part I: definitions *)
(* ================================================================= *)

(** ** Exceptions *)

Inductive exn : Set :=
| OverflowError
| ZeroDivisionError
| ValueError
| KeyError.

Inductive result (A : Type) : Type :=
| Ok (a : A)
| Raise (e : exn).

Arguments Ok {A} a.
Arguments Raise {A} e.

Definition bind {A B : Type} (m : result A) (k : A -> result B) : result B :=
  match m with
  | Ok a => k a
  | Raise e => Raise e
  end.

Notation "x <- m ;; k" := (bind m (fun x => k))
  (at level 61, m at next level, right associativity).

Fixpoint mapM {A B : Type} (f : A -> result B) (l : list A) : result (list B) :=
  match l with
  | [] => Ok []
  | x :: t => y <- f x ;; ys <- mapM f t ;; Ok (y :: ys)
  end.

(** ** Rounding *)

(** Nearest integer to [num / den] ([den > 0]), ties to the even one. *)
Definition round_half_even (num den : Z) : Z :=
  let q := num / den in
  let r2 := 2 * (num mod den) in
  if r2 <? den then q
  else if den <? r2 then q + 1
  else if Z.even q then q else q + 1.

Definition Qrhe (q : Q) : Z := round_half_even (Qnum q) (Zpos (Qden q)).

(** [floor (log2 x)] for a positive rational [x]. *)
Definition Qlog2 (x : Q) : Z :=
  let n := Qnum x in
  let d := Zpos (Qden x) in
  let k := Z.log2 n - Z.log2 d in
  if (if 0 <=? k then d * 2 ^ k <=? n else d <=? n * 2 ^ (- k))
  then k else k - 1.

Definition pow2 (e : Z) : Q := (2 ^ e)%Q.

(** Exponent of the unit in the last place of the binary64 value nearest
    to [x]: 53 significant bits, smallest exponent -1074 (subnormals). *)
Definition expo (x : Q) : Z := Z.max (Qlog2 (Qabs x) - 52) (-1074).

(** Round to nearest binary64, ties to even, exponent range unbounded
    above. *)
Definition rne (x : Q) : Q :=
  if Qnum x =? 0 then 0%Q
  else let e := expo x in
       Qred (inject_Z (Qrhe (x * pow2 (- e))) * pow2 e).

Definition Qlt_bool (x y : Q) : bool := negb (Qle_bool y x).

(** ** Floating-point formats *)

(** A format gives the rounding of an exact result and tells when the
    rounded result is too large to be finite. *)
Class format : Type := {
  fround : Q -> Q;
  fhuge : Q -> bool
}.

(** Python's [float]. *)
#[export] Instance binary64 : format := {|
  fround := rne;
  fhuge := fun q => Qle_bool (pow2 1024) (Qabs (rne q))
|}.

Inductive float : Type :=
| Fin (q : Q)
| Inf (neg : bool)
| NaN.

Section FloatOps.
Context {F : format}.

Definition fin (q : Q) : float :=
  if fhuge q then Inf (Qlt_bool q 0) else Fin (fround q).

(** A numeric literal of the source. *)
Definition flit (q : Q) : float := fin q.

Definition fneg (x : float) : float :=
  match x with
  | Fin q => Fin (- q)
  | Inf s => Inf (negb s)
  | NaN => NaN
  end.

Definition fadd (x y : float) : float :=
  match x, y with
  | Fin a, Fin b => fin (a + b)
  | NaN, _ | _, NaN => NaN
  | Inf s, Fin _ => Inf s
  | Fin _, Inf s => Inf s
  | Inf s, Inf t => if Bool.eqb s t then Inf s else NaN
  end.

Definition fsub (x y : float) : float := fadd x (fneg y).

Definition fmul (x y : float) : float :=
  match x, y with
  | Fin a, Fin b => fin (a * b)
  | NaN, _ | _, NaN => NaN
  | Inf s, Fin b | Fin b, Inf s =>
      if Qeq_bool b 0 then NaN else Inf (xorb s (Qlt_bool b 0))
  | Inf s, Inf t => Inf (xorb s t)
  end.

(** [x / y] on floats raises [ZeroDivisionError] on a zero divisor. *)
Definition fdiv (x y : float) : result float :=
  match x, y with
  | _, Fin b =>
      if Qeq_bool b 0 then Raise ZeroDivisionError
      else match x with
           | Fin a => Ok (fin (a / b))
           | Inf s => Ok (Inf (xorb s (Qlt_bool b 0)))
           | NaN => Ok NaN
           end
  | NaN, _ | _, NaN => Ok NaN
  | Fin _, Inf _ => Ok (Fin 0)
  | Inf _, Inf _ => Ok NaN
  end.

Definition fle (x y : float) : bool :=
  match x, y with
  | Fin a, Fin b => Qle_bool a b
  | NaN, _ | _, NaN => false
  | Inf true, _ => true
  | _, Inf false => true
  | Inf false, _ => false
  | _, Inf true => false
  end.

Definition flt (x y : float) : bool :=
  match x, y with
  | Fin a, Fin b => Qlt_bool a b
  | NaN, _ | _, NaN => false
  | Inf s, Inf t => s && negb t
  | Inf s, Fin _ => s
  | Fin _, Inf t => negb t
  end.

(** [float(n)] for an [int]: rounds, and raises when out of range. *)
Definition float_of_int (n : Z) : result float :=
  if fhuge (inject_Z n) then Raise OverflowError
  else Ok (Fin (fround (inject_Z n))).

(** [a / b] on two [int]s: the correctly rounded quotient. *)
Definition int_truediv (a b : Z) : result float :=
  if b =? 0 then Raise ZeroDivisionError
  else if fhuge (inject_Z a / inject_Z b) then Raise OverflowError
  else Ok (Fin (fround (inject_Z a / inject_Z b))).

(** [n <= x] for an [int] and a [float]: compared exactly. *)
Definition int_le_float (n : Z) (x : float) : bool := fle (Fin (inject_Z n)) x.

(** [max(a, b)]: the second argument only when strictly larger. *)
Definition py_max (a b : float) : float := if flt a b then b else a.

(** [round(x, 1)]: the decimal with one digit nearest to the value of
    [x] (ties to even), converted back to a float. *)
Definition py_round1 (x : float) : float :=
  match x with
  | Fin q => fin (inject_Z (Qrhe (q * 10)) / 10)
  | _ => x
  end.

(** [int(x)]: truncation toward zero. *)
Definition py_int (x : float) : result Z :=
  match x with
  | Fin q => Ok (Z.quot (Qnum q) (Zpos (Qden q)))
  | Inf _ => Raise OverflowError
  | NaN => Raise ValueError
  end.

End FloatOps.

(** ** The Standard Library's IEEE-754 operations

    [SpecFloat] specifies the binary operations bit by bit on mantissa
    and exponent.  Its binary64 instance (precision 53, largest exponent
    1024) is read back into [float], to compare the two models. *)

Definition of_spec_float (x : SpecFloat.spec_float) : float :=
  match x with
  | SpecFloat.S754_zero _ => Fin 0
  | SpecFloat.S754_infinity s => Inf s
  | SpecFloat.S754_nan => NaN
  | SpecFloat.S754_finite s m e =>
      Fin (Qred ((if s then -1 else 1) * inject_Z (Zpos m) * pow2 e))
  end.

Definition sf_of_Z (n : Z) : SpecFloat.spec_float :=
  SpecFloat.binary_normalize 53 1024 n 0 false.
Definition sf_mul := SpecFloat.SFmul 53 1024.
Definition sf_div := SpecFloat.SFdiv 53 1024.
Definition sf_add := SpecFloat.SFadd 53 1024.
Definition sf_sub := SpecFloat.SFsub 53 1024.

(** The float nearest to the decimal [n / d], as Python reads a
    literal with few digits. *)
Definition sf_dec (n d : Z) : SpecFloat.spec_float :=
  sf_div (sf_of_Z n) (sf_of_Z d).

(** ** Dictionaries *)

Fixpoint dict_get {V : Type} (k : string) (d : list (string * V)) : option V :=
  match d with
  | [] => None
  | (k', v) :: t => if String.eqb k k' then Some v else dict_get k t
  end.

(** [d.get(k, default)] *)
Definition dict_get_default {V : Type} (k : string) (d : list (string * V)) (dflt : V) : V :=
  match dict_get k d with
  | Some v => v
  | None => dflt
  end.

(** [d[k]] *)
Definition dict_index {V : Type} (k : string) (d : list (string * V)) : result V :=
  match dict_get k d with
  | Some v => Ok v
  | None => Raise KeyError
  end.

(** [k in d] *)
Definition dict_mem {V : Type} (k : string) (d : list (string * V)) : bool :=
  match dict_get k d with
  | Some _ => true
  | None => false
  end.

(** ** Data model *)

Record Property : Type := {
  address : string;
  city : string;
  state : string;
  zip_code : string;
  year_built : Z;
  square_footage : Z;
  property_type : string;
  roof_material : string;
  roof_age : Z;
  foundation_type : string;
  hvac_age : Z;
  electrical_age : Z;
  plumbing_age : Z;
  last_inspection : string
}.

Record MaintenanceRecord : Type := {
  date : string;
  category : string;
  description : string;
  cost : Q;
  contractor : string;
  urgency : string;
  property_address : string
}.

(** What the calculator reads from [datetime]: the year of
    [datetime.now()], the ordinal of [date.today()] in days, and
    [datetime.now()] in microseconds.  Dates are not bounded here: the
    clock is taken to be more than two years before [datetime.max], so
    that adding the schedule's [timedelta]s stays in range. *)
Record clock : Type := {
  current_year : Z;
  today : Z;
  current_date : Z
}.

Definition timedelta_days (d : Z) : Z := d * 86400000000.

(** ** PropertyHealthCalculator *)

Record cost_range : Type := { cmin : Z; cmax : Z; cavg : Z }.

Record region_info : Type := {
  multiplier : float;
  region : string;
  confidence : string
}.

Record cost_estimate : Type := {
  est_min : Z;
  est_max : Z;
  est_avg : Z;
  est_confidence : string;
  est_region : string;
  national_avg : Z
}.

Record weight_table : Type := {
  w_structural : float;
  w_systems : float;
  w_safety : float;
  w_environmental : float
}.

(** A number stored in a [components] dict. *)
Inductive num : Type :=
| PyInt (z : Z)
| PyFloat (x : float).

Record category_score : Type := {
  score : float;
  components : list (string * num)
}.

Record overall_result : Type := {
  overall_score : float;
  cat_structural : category_score;
  cat_systems : category_score;
  cat_safety : category_score;
  cat_environmental : category_score
}.

Record task : Type := {
  task_name : string;
  frequency : string;
  next_due : Z;
  priority : string;
  estimated_cost : Z;
  task_description : string
}.

Definition national_cost_baseline : list (string * cost_range) :=
  [ ("hvac_service"%string, {| cmin := 200; cmax := 500; cavg := 350 |});
    ("hvac_replacement"%string, {| cmin := 5000; cmax := 12000; cavg := 7500 |});
    ("roof_repair"%string, {| cmin := 400; cmax := 2000; cavg := 1000 |});
    ("roof_replacement"%string, {| cmin := 10000; cmax := 30000; cavg := 15000 |});
    ("electrical_panel"%string, {| cmin := 1500; cmax := 4000; cavg := 2500 |});
    ("plumbing_repair"%string, {| cmin := 250; cmax := 1000; cavg := 600 |});
    ("water_heater"%string, {| cmin := 1000; cmax := 3500; cavg := 1800 |});
    ("foundation_repair"%string, {| cmin := 3000; cmax := 25000; cavg := 10000 |});
    ("gutter_replacement"%string, {| cmin := 1000; cmax := 3000; cavg := 1700 |}) ].

Definition roof_material_expected_lifespans : list (string * Z) :=
  [ ("Asphalt Shingles"%string, 20);
    ("Metal"%string, 50);
    ("Tile"%string, 50);
    ("Slate"%string, 75);
    ("Wood"%string, 25);
    ("Composite"%string, 30);
    ("Flat Roof (TPO/EPDM)"%string, 20) ].

Definition foundation_scores : list (string * Z) :=
  [ ("Concrete Slab"%string, 85);
    ("Basement"%string, 90);
    ("Crawl Space"%string, 75);
    ("Pier & Beam"%string, 70) ].

Definition priority_rank : list (string * Z) :=
  [ ("high"%string, 0); ("important"%string, 1); ("routine"%string, 2) ].

(** Stable insertion sort on decorated elements, the key order being
    the one of Python tuples [(rank, next_due)]. *)
Definition key_lt (a b : Z * Z) : bool :=
  (fst a <? fst b) || ((fst a =? fst b) && (snd a <? snd b)).

Fixpoint insert_stable {A : Type} (x : (Z * Z) * A) (l : list ((Z * Z) * A))
  : list ((Z * Z) * A) :=
  match l with
  | [] => [x]
  | y :: t => if key_lt (fst y) (fst x)
              then y :: insert_stable x t
              else x :: y :: t
  end.

(** Two decorated elements in key order. *)
Definition key_ordered {A : Type} (x y : (Z * Z) * A) : Prop :=
  key_lt (fst y) (fst x) = false.

Definition sort_decorated {A : Type} (l : list ((Z * Z) * A)) : list ((Z * Z) * A) :=
  fold_right insert_stable [] l.

Section Calculator.
Context {F : format}.

(** [datetime.strptime(s, "%Y-%m-%d").date()] as the ordinal of the
    parsed day; [None] stands for the [ValueError] of a string that
    does not parse. *)
Variable strptime : string -> option Z.
Variable clk : clock.

Definition weights : weight_table := {|
  w_structural := flit (3 # 10);
  w_systems := flit (4 # 10);
  w_safety := flit (2 # 10);
  w_environmental := flit (1 # 10)
|}.

Definition regional_multipliers : list (string * region_info) :=
  [ ("22701"%string,
     {| multiplier := flit (85 # 100);
        region := "Central Virginia - Rural";
        confidence := "high" |});
    ("22102"%string,
     {| multiplier := flit (135 # 100);
        region := "Northern Virginia - DC Metro";
        confidence := "high" |});
    ("default"%string,
     {| multiplier := flit 1;
        region := "National Average";
        confidence := "low" |}) ].

Definition get_regional_info (zip : string) : result region_info :=
  if dict_mem zip regional_multipliers then dict_index zip regional_multipliers
  else
    match zip with
    | String c _ =>
        if dict_mem (String c EmptyString) regional_multipliers
        then dict_index (String c EmptyString) regional_multipliers
        else dict_index "default" regional_multipliers
    | EmptyString => dict_index "default" regional_multipliers
    end.

Definition get_local_cost_estimate (item_type zip : string) : result cost_estimate :=
  if negb (dict_mem item_type national_cost_baseline) then
    Ok {| est_min := 0; est_max := 0; est_avg := 0;
          est_confidence := "low"; est_region := "Unknown";
          national_avg := 0 |}
  else
    baseline <- dict_index item_type national_cost_baseline ;;
    regional_info <- get_regional_info zip ;;
    let m := multiplier regional_info in
    bmin <- float_of_int (cmin baseline) ;;
    vmin <- py_int (fmul bmin m) ;;
    bmax <- float_of_int (cmax baseline) ;;
    vmax <- py_int (fmul bmax m) ;;
    bavg <- float_of_int (cavg baseline) ;;
    vavg <- py_int (fmul bavg m) ;;
    Ok {| est_min := vmin; est_max := vmax; est_avg := vavg;
          est_confidence := confidence regional_info;
          est_region := region regional_info;
          national_avg := cavg baseline |}.

Definition calculate_age_score (age expected_life : Z) : result float :=
  let age := if age <? 0 then 0 else age in
  if expected_life <=? 0 then Ok (flit 0)
  else
    l1 <- float_of_int expected_life ;;
    if int_le_float age (fmul l1 (flit (1 # 10))) then Ok (flit 100)
    else
      ratio <- int_truediv age expected_life ;;
      if fle ratio (flit (5 # 10)) then
        Ok (fsub (flit 100) (fmul ratio (flit 20)))
      else if fle ratio (flit (8 # 10)) then
        t <- fdiv (fsub ratio (flit (5 # 10))) (flit (3 # 10)) ;;
        Ok (fsub (flit 90) (fmul t (flit 30)))
      else if flt ratio (flit 1) then
        t <- fdiv (fsub ratio (flit (8 # 10))) (flit (2 # 10)) ;;
        Ok (fsub (flit 60) (fmul t (flit 40)))
      else
        l2 <- float_of_int expected_life ;;
        n <- float_of_int (age - expected_life) ;;
        over_ratio <- fdiv n (fmul l2 (flit (2 # 10))) ;;
        Ok (py_max (flit 0) (fsub (flit 20) (fmul over_ratio (flit 20)))).

Definition calculate_structural_score (p : Property) : result category_score :=
  let building_age := current_year clk - year_built p in
  building_age_score <- calculate_age_score building_age 80 ;;
  let foundation_score := dict_get_default (foundation_type p) foundation_scores 75 in
  let expected_roof_life :=
    dict_get_default (roof_material p) roof_material_expected_lifespans 20 in
  roof_condition_score <- calculate_age_score (roof_age p) expected_roof_life ;;
  foundation_float <- float_of_int foundation_score ;;
  let overall_structural_score :=
    fadd (fadd (fmul building_age_score (flit (4 # 10)))
               (fmul foundation_float (flit (3 # 10))))
         (fmul roof_condition_score (flit (3 # 10))) in
  Ok {| score := py_round1 overall_structural_score;
        components :=
          [ ("Overall Building Age Factor"%string, PyFloat (py_round1 building_age_score));
            ("Foundation Type"%string, PyInt foundation_score);
            ("Roof Condition (Age/Material Adjusted)"%string,
             PyFloat (py_round1 roof_condition_score)) ] |}.

Definition calculate_systems_score (p : Property) : result category_score :=
  hvac_score <- calculate_age_score (hvac_age p) 18 ;;
  electrical_score <- calculate_age_score (electrical_age p) 35 ;;
  plumbing_score <- calculate_age_score (plumbing_age p) 50 ;;
  let overall :=
    fadd (fadd (fmul hvac_score (flit (4 # 10)))
               (fmul electrical_score (flit (3 # 10))))
         (fmul plumbing_score (flit (3 # 10))) in
  Ok {| score := py_round1 overall;
        components :=
          [ ("HVAC"%string, PyFloat (py_round1 hvac_score));
            ("Electrical"%string, PyFloat (py_round1 electrical_score));
            ("Plumbing"%string, PyFloat (py_round1 plumbing_score)) ] |}.

(** The deduction for the inspection record. *)
Definition inspection_penalty (age : Z) (insp : string) (base_score : float) : float :=
  if String.eqb insp "N/A" && (20 <? age) then fsub base_score (flit 5)
  else if negb (String.eqb insp "N/A") then
    match strptime insp with
    | Some last_insp_date =>
        if 5 * 365 <? today clk - last_insp_date
        then fsub base_score (flit 5) else base_score
    | None => base_score
    end
  else base_score.

(** [max(0, base_score)] keeps the float when it is positive; the
    integer [0] of the other case is modelled by the float of the same
    value. *)
Definition calculate_safety_score (p : Property) : result category_score :=
  let base_score := flit 90 in
  let age := current_year clk - year_built p in
  let base_score :=
    if 50 <? age then fsub base_score (flit 15)
    else if 30 <? age then fsub base_score (flit 7)
    else base_score in
  let base_score :=
    if 30 <? electrical_age p then fsub base_score (flit 5) else base_score in
  let base_score := inspection_penalty age (last_inspection p) base_score in
  Ok {| score := py_round1 (py_max (flit 0) base_score);
        components :=
          [ ("General Safety Factors"%string,
             PyFloat (py_round1 (py_max (flit 0) base_score))) ] |}.

Definition calculate_environmental_score (p : Property) : result category_score :=
  let base_score := flit 80 in
  Ok {| score := py_round1 base_score;
        components :=
          [ ("General Environmental"%string, PyFloat (py_round1 base_score)) ] |}.

Definition weighted_sum (structural systems safety environmental : float) : float :=
  fadd (fadd (fadd (fmul structural (w_structural weights))
                   (fmul systems (w_systems weights)))
             (fmul safety (w_safety weights)))
       (fmul environmental (w_environmental weights)).

Definition calculate_overall_score (p : Property) : result overall_result :=
  structural <- calculate_structural_score p ;;
  systems <- calculate_systems_score p ;;
  safety <- calculate_safety_score p ;;
  environmental <- calculate_environmental_score p ;;
  let overall :=
    weighted_sum (score structural) (score systems)
                 (score safety) (score environmental) in
  Ok {| overall_score := py_round1 overall;
        cat_structural := structural;
        cat_systems := systems;
        cat_safety := safety;
        cat_environmental := environmental |}.

(** One entry of the schedule, due [days] days after now. *)
Definition mk_task (name freq : string) (days : Z) (prio : string)
           (est : Z) (descr : string) : task :=
  {| task_name := name; frequency := freq;
     next_due := current_date clk + timedelta_days days;
     priority := prio; estimated_cost := est; task_description := descr |}.

Definition hvac_tasks (p : Property) : result (list task) :=
  if hvac_age p <=? 1 then
    cost_est_filter <- get_local_cost_estimate "hvac_service" (zip_code p) ;;
    Ok [ mk_task "HVAC Filter Check/Replacement" "Every 3 months" 90 "routine"
           (Z.max 20 (est_min cost_est_filter / 10))
           "Check and replace air filters as needed." ]
  else if int_le_float (hvac_age p) (fmul (flit 18) (flit (8 # 10))) then
    cost_est_service <- get_local_cost_estimate "hvac_service" (zip_code p) ;;
    Ok [ mk_task "HVAC Annual Service" "Annually" 365 "important"
           (est_avg cost_est_service)
           "Professional tune-up and inspection." ]
  else
    cost_est_repl <- get_local_cost_estimate "hvac_replacement" (zip_code p) ;;
    Ok [ mk_task "HVAC Replacement Planning" "Within 1-2 years" 365 "high"
           (est_avg cost_est_repl)
           "Budget and plan for HVAC system replacement." ].

Definition roof_tasks (p : Property) : result (list task) :=
  if 10 <? roof_age p then
    cost_est_roof_insp <- get_local_cost_estimate "roof_repair" (zip_code p) ;;
    Ok [ mk_task "Roof Inspection (detailed for age)" "Annually" 365 "important"
           (Z.max 150 (est_min cost_est_roof_insp))
           "Inspect roof for wear, potential leaks, especially if older than 10 years." ]
  else Ok [].

Definition electrical_inspection_tasks (p : Property) : result (list task) :=
  if 30 <? electrical_age p then
    cost_est_panel_check <- get_local_cost_estimate "electrical_panel" (zip_code p) ;;
    Ok [ mk_task "Electrical System Inspection" "Consider within 1 year" 365 "important"
           (Z.max 150 (est_min cost_est_panel_check / 5))
           "Inspect aging electrical panel and system, especially if over 30 years old." ]
  else Ok [].

Definition electrical_upgrade_tasks (p : Property) : result (list task) :=
  if negb (int_le_float (electrical_age p) (fmul (flit 35) (flit (9 # 10)))) then
    cost_est_panel <- get_local_cost_estimate "electrical_panel" (zip_code p) ;;
    Ok [ mk_task "Consider Electrical Panel Upgrade" "Within 2-3 years" 730 "high"
           (est_avg cost_est_panel)
           "Plan for upgrading an old electrical panel if original." ]
  else Ok [].

Definition water_heater_tasks (p : Property) : result (list task) :=
  if 8 <? plumbing_age p then
    cost_est_wh_service <- get_local_cost_estimate "water_heater" (zip_code p) ;;
    Ok [ mk_task "Water Heater Check/Service" "Annually if >8yrs old" 365 "important"
           (Z.max 100 (est_min cost_est_wh_service / 10))
           "Inspect water heater. Plan for replacement if near end-of-life." ]
  else Ok [].

Definition plumbing_tasks (p : Property) : result (list task) :=
  if negb (int_le_float (plumbing_age p) (fmul (flit 50) (flit (8 # 10)))) then
    cost_est_pipe_repair <- get_local_cost_estimate "plumbing_repair" (zip_code p) ;;
    Ok [ mk_task "Major Plumbing Inspection (Pipes)" "Consider within 2 years" 730 "high"
           (est_avg cost_est_pipe_repair)
           "Inspect for potential major plumbing updates (pipes, main lines) if original." ]
  else Ok [].

Definition seasonal_tasks (p : Property) : result (list task) :=
  cost_est_gutter <- get_local_cost_estimate "gutter_replacement" (zip_code p) ;;
  let gutter_clean_cost :=
    Z.max 150 (if 0 <? est_min cost_est_gutter
               then est_min cost_est_gutter / 10 else 150) in
  Ok [ mk_task "Gutter Cleaning (Spring)" "Annually (Spring)" 120 "routine"
         gutter_clean_cost "Clean gutters and downspouts after winter.";
       mk_task "Gutter Cleaning (Fall)" "Annually (Fall)" 300 "routine"
         gutter_clean_cost "Clean gutters and downspouts before winter.";
       mk_task "Exterior Caulking & Sealing Check" "Annually" 270 "routine" 100
         "Check windows, doors, and siding for gaps to prevent drafts and water intrusion.";
       mk_task "Smoke & CO Detector Test/Battery Change" "Semi-Annually" 180
         "important" 10 "Test all detectors and replace batteries as needed." ].

(** The key of [schedule.sort]. *)
Definition sort_key (t : task) : result (Z * Z) :=
  r <- dict_index (priority t) priority_rank ;;
  Ok (r, next_due t).

Definition decorate (t : task) : result ((Z * Z) * task) :=
  k <- sort_key t ;; Ok (k, t).

(** [list.sort(key=...)]: the keys of all elements are computed first,
    then the list is sorted stably by key. *)
Definition sort_schedule (schedule : list task) : result (list task) :=
  decorated <- mapM decorate schedule ;;
  Ok (map snd (sort_decorated decorated)).

Definition generate_maintenance_schedule (p : Property) : result (list task) :=
  t1 <- hvac_tasks p ;;
  t2 <- roof_tasks p ;;
  t3 <- electrical_inspection_tasks p ;;
  t4 <- electrical_upgrade_tasks p ;;
  t5 <- water_heater_tasks p ;;
  t6 <- plumbing_tasks p ;;
  t7 <- seasonal_tasks p ;;
  sort_schedule (t1 ++ t2 ++ t3 ++ t4 ++ t5 ++ t6 ++ t7).

End Calculator.

(** ** The branches of [calculate_age_score]

    The expressions returned on each segment of the curve, named so
    that the proofs can treat them one at a time;
    [calculate_age_score] is their composition
    (see [age_score_tail]). *)

Section Segments.
Context {F : format}.

Definition early_segment (ratio : float) : float :=
  fsub (flit 100) (fmul ratio (flit 20)).

Definition middle_segment (ratio : float) : result float :=
  t <- fdiv (fsub ratio (flit (5 # 10))) (flit (3 # 10)) ;;
  Ok (fsub (flit 90) (fmul t (flit 30))).

Definition late_segment (ratio : float) : result float :=
  t <- fdiv (fsub ratio (flit (8 # 10))) (flit (2 # 10)) ;;
  Ok (fsub (flit 60) (fmul t (flit 40))).

Definition overdue_segment (n den : float) : result float :=
  over_ratio <- fdiv n den ;;
  Ok (py_max (flit 0) (fsub (flit 20) (fmul over_ratio (flit 20)))).

Definition overdue_tail (age expected_life : Z) : result float :=
  l2 <- float_of_int expected_life ;;
  n <- float_of_int (age - expected_life) ;;
  overdue_segment n (fmul l2 (flit (2 # 10))).

Definition segment_score (ratio : float) (tail : result float) : result float :=
  if fle ratio (flit (5 # 10)) then Ok (early_segment ratio)
  else if fle ratio (flit (8 # 10)) then middle_segment ratio
  else if flt ratio (flit 1) then late_segment ratio
  else tail.

End Segments.

Definition clamp_age (age : Z) : Z := if age <? 0 then 0 else age.

(** The binary64 values of the literals 0.1, 0.2, 0.3 and 0.8. *)
Definition c01 : Q := rne (1 # 10).
Definition c02 : Q := rne (2 # 10).
Definition c03 : Q := rne (3 # 10).
Definition c08 : Q := rne (8 # 10).

(** Scores at the ends of the segments: [seg_A] at ratio 0.8 on the
    middle segment, [seg_B] just after 0.8 and [seg_C] just before 1 on
    the late segment, [seg_T] the largest value past the expected
    life. *)
Definition seg_A : Q := 8444249301319679 # 140737488355328.
Definition seg_B : Q := 8444249301319677 # 140737488355328.
Definition seg_C : Q := 703687441776641 # 35184372088832.
Definition seg_T : Q := 5629499534213125 # 281474976710656.

(** A float between two finite bounds. *)
Definition between (lo hi : Q) (x : float) : Prop :=
  fle (Fin lo) x = true /\ fle x (Fin hi) = true.

(** A task whose priority has a rank. *)
Definition ranked (t : task) : Prop := exists k, sort_key t = Ok k.

(** ** Dashboard: deleting a property *)

Record session_state : Type := {
  properties : list Property;
  maintenance_records : list MaintenanceRecord;
  editing_property_address : option string;
  selected_property_address_health : option string
}.

(** [next((i for i, x in enumerate(l) if f(x)), -1)], with [None] for -1. *)
Fixpoint find_index {A : Type} (f : A -> bool) (l : list A) : option nat :=
  match l with
  | [] => None
  | x :: t => if f x then Some O
              else match find_index f t with
                   | Some i => Some (S i)
                   | None => None
                   end
  end.

(** [del l[i]] *)
Fixpoint del_at {A : Type} (i : nat) (l : list A) : list A :=
  match l, i with
  | [], _ => []
  | _ :: t, O => t
  | x :: t, S j => x :: del_at j t
  end.

Definition clear_if (addr : string) (o : option string) : option string :=
  match o with
  | Some a => if String.eqb a addr then None else o
  | None => None
  end.

(** The handler of the delete button, for the address shown in the
    selected entry of the select box. *)
Definition delete_property (address_to_delete : string) (st : session_state)
  : session_state :=
  match find_index (fun p_obj => String.eqb (address p_obj) address_to_delete)
                   (properties st) with
  | Some idx_to_delete =>
      {| properties := del_at idx_to_delete (properties st);
         maintenance_records :=
           filter (fun r => negb (String.eqb (property_address r) address_to_delete))
                  (maintenance_records st);
         editing_property_address :=
           clear_if address_to_delete (editing_property_address st);
         selected_property_address_health :=
           clear_if address_to_delete (selected_property_address_health st) |}
  | None => st
  end.

(** The select box offers one entry per property; choosing entry
    [selected] deletes by the address of that property. *)
Definition delete_selected (selected : nat) (st : session_state) : session_state :=
  match nth_error (properties st) selected with
  | Some prop => delete_property (address prop) st
  | None => st
  end.

(** ** The curve of the specification *)



(** ** Sample data *)

(** The new-build scenario of the specification; the inspection is
    dated on the sample clock's day. *)
Definition new_build : Property := {|
  address := "12 Elm St"; city := "Culpeper"; state := "VA";
  zip_code := "22701"; year_built := 2024; square_footage := 1500;
  property_type := "Single Family"; roof_material := "Metal"; roof_age := 0;
  foundation_type := "Basement"; hvac_age := 0; electrical_age := 0;
  plumbing_age := 0; last_inspection := "2026-11-04"
|}.

(** The aged scenario of the specification. *)
Definition old_house : Property := {|
  address := "7 Mill Rd"; city := "McLean"; state := "VA";
  zip_code := "22102"; year_built := 1950; square_footage := 2100;
  property_type := "Single Family"; roof_material := "Asphalt Shingles";
  roof_age := 40; foundation_type := "Pier & Beam"; hvac_age := 30;
  electrical_age := 50; plumbing_age := 60; last_inspection := "N/A"
|}.

(** A property whose roof age is far beyond any float. *)
Definition ancient_roof : Property := {|
  address := "1 Old Rd"; city := "Culpeper"; state := "VA";
  zip_code := "22701"; year_built := 2000; square_footage := 1200;
  property_type := "Single Family"; roof_material := "Slate";
  roof_age := 2 ^ 1100; foundation_type := "Basement"; hvac_age := 5;
  electrical_age := 15; plumbing_age := 20; last_inspection := "N/A"
|}.

(** A property with values outside every table and a free-form
    inspection note. *)
Definition odd_house : Property := {|
  address := "3 Far Ln"; city := "Culpeper"; state := "VA";
  zip_code := "99999"; year_built := 2030; square_footage := 900;
  property_type := "Yurt"; roof_material := "Thatch";
  roof_age := 0; foundation_type := "Stilts"; hvac_age := 0;
  electrical_age := 0; plumbing_age := 0; last_inspection := "last spring"
|}.

Definition sample_clock : clock :=
  {| current_year := 2026; today := 739924; current_date := 1793750400000000 |}.

(** A parser that knows the sample clock's day only. *)
Definition sample_strptime (s : string) : option Z :=
  if String.eqb s "2026-11-04" then Some 739924 else None.

Definition sample_record (addr : string) (what : string) : MaintenanceRecord := {|
  date := "2026-01-15"; category := "HVAC"; description := what;
  cost := 120; contractor := "Acme"; urgency := "Routine";
  property_address := addr
|}.

Definition sample_state : session_state := {|
  properties := [old_house; new_build];
  maintenance_records :=
    [ sample_record "12 Elm St" "filter";
      sample_record "7 Mill Rd" "tune-up";
      sample_record "12 Elm St" "duct cleaning" ];
  editing_property_address := Some "12 Elm St"%string;
  selected_property_address_health := None
|}.

(** ** Dashboard: what is shown for a property *)

(** [st.success], [st.info], [st.warning] and [st.error]. *)
Inductive alert : Type := Success | Info | Warning | Error.

Section Display.
Context {F : format}.
Variable strptime : string -> option Z.
Variable clk : clock.

(** The mark before a category score. *)
Definition score_icon (score_val : float) : string :=
  if int_le_float 80 score_val then "🟢"
  else if int_le_float 60 score_val then "🟡"
  else "🔴".

(** The message under the overall score. *)
Definition health_message (overall_score_val : float) : alert * string :=
  if int_le_float 85 overall_score_val then (Success, "Excellent Condition! 👍"%string)
  else if int_le_float 70 overall_score_val then (Info, "Good Condition. 👌"%string)
  else if int_le_float 55 overall_score_val then
    (Warning, "Fair Condition. Proactive maintenance advised. ⚠️"%string)
  else (Error, "Needs Significant Attention! Prioritize repairs. 🔴"%string).

(** [scores['category_scores'].items()], in the order of insertion. *)
Definition category_scores (scores : overall_result) : list (string * category_score) :=
  [ ("Structural"%string, cat_structural scores);
    ("Systems"%string, cat_systems scores);
    ("Safety"%string, cat_safety scores);
    ("Environmental"%string, cat_environmental scores) ].

(** What [render_health_score_visualization] computes for its second
    column: the message for the overall score and, for each category,
    its mark, name and score.  The edit button and the image are left
    out. *)
Definition render_health_score_visualization (property_data : Property)
  : result ((alert * string) * list (string * string * float)) :=
  scores <- calculate_overall_score strptime clk property_data ;;
  Ok (health_message (overall_score scores),
      map (fun cat => (score_icon (score (snd cat)), fst cat, score (snd cat)))
          (category_scores scores)).

Definition priority_icons : list (string * string) :=
  [ ("high"%string, "🔴"%string);
    ("important"%string, "🟡"%string);
    ("routine"%string, "🔵"%string) ].

(** The first tab of [render_predictions_and_recommendations]: the
    tasks of [schedule[:7]], each with the mark of its priority.  The
    due date is printed from a second reading of the clock, which is
    left out. *)
Definition render_predictions_and_recommendations (property_data : Property)
  : result (list (string * task)) :=
  schedule <- generate_maintenance_schedule clk property_data ;;
  mapM (fun task => icon <- dict_index (priority task) priority_icons ;;
                    Ok (icon, task))
       (firstn 7 schedule).

End Display.

(** ** The session dictionary *)

(** The values kept in [st.session_state]. *)
Inductive value : Type :=
| VNone
| VBool (b : bool)
| VInt (n : Z)
| VFloat (x : float)
| VStr (s : string)
| VProperties (l : list Property)
| VRecords (l : list MaintenanceRecord)
| VAccessInfo (name email company purpose : string) (timestamp : Z)
| VDatetime (t : Z).

Definition session : Type := list (string * value).

(** Truth value of an object. *)
Definition truthy (v : value) : bool :=
  match v with
  | VNone => false
  | VBool b => b
  | VInt n => negb (n =? 0)
  | VFloat (Fin q) => negb (Qeq_bool q 0)
  | VFloat _ => true
  | VStr s => negb (String.eqb s "")
  | VProperties l => negb (Nat.eqb (List.length l) 0)
  | VRecords l => negb (Nat.eqb (List.length l) 0)
  | VAccessInfo _ _ _ _ _ => true
  | VDatetime _ => true
  end.

(** [d[k] = v]: the value of an existing key is replaced in place, a
    new key goes to the end. *)
Fixpoint dict_set {V : Type} (k : string) (v : V) (d : list (string * V))
  : list (string * V) :=
  match d with
  | [] => [(k, v)]
  | (k', v') :: t => if String.eqb k k' then (k, v) :: t
                     else (k', v') :: dict_set k v t
  end.

(** [del d[k]] *)
Definition dict_del {V : Type} (k : string) (d : list (string * V))
  : list (string * V) :=
  filter (fun kv => negb (String.eqb k (fst kv))) d.

(** [d.keys()] *)
Definition dict_keys {V : Type} (d : list (string * V)) : list string := map fst d.

(** [if k not in d: d[k] = v] *)
Definition set_if_missing (k : string) (v : value) (s : session) : session :=
  if dict_mem k s then s else dict_set k v s.

Section Session.
Context {F : format}.

Definition roi_defaults : list (string * value) :=
  [ ("roi_property_address"%string, VNone);
    ("roi_improvement_name"%string, VStr "");
    ("roi_estimated_cost"%string, VFloat (flit 0));
    ("roi_resale_value_increase"%string, VFloat (flit 0));
    ("roi_annual_savings"%string, VFloat (flit 0));
    ("roi_years_to_project"%string, VInt 5) ].

Definition init_session_state (s : session) : session :=
  let s := set_if_missing "properties" (VProperties []) s in
  let s := set_if_missing "maintenance_records" (VRecords []) s in
  let s := set_if_missing "show_add_property_form_main" (VBool false) s in
  let s := set_if_missing "show_add_maintenance_form_main" (VBool false) s in
  let s := set_if_missing "editing_property_address" VNone s in
  let s := set_if_missing "active_tab" (VStr "📈 Property Health") s in
  fold_left (fun s kd => set_if_missing (fst kd) (snd kd) s) roi_defaults s.

End Session.

(** [AuthenticationManager.is_authenticated] *)
Definition is_authenticated (s : session) : value :=
  dict_get_default "authenticated" s (VBool false).

(** The handler of the logout button of [render_session_info]: the keys
    to clear are collected first, then deleted one by one. *)
Definition logout (s : session) : session :=
  let keys_to_clear :=
    filter (String.prefix "auth_") (dict_keys s)
    ++ [ "access_info"; "authenticated"; "access_timestamp";
         "show_add_property_form_main"; "show_add_maintenance_form_main";
         "editing_property_address"; "active_tab" ]%string
    ++ filter (String.prefix "selected_property_address_") (dict_keys s)
    ++ filter (String.prefix "roi_") (dict_keys s)
    ++ filter (String.prefix "maintenance_filter_urgency_") (dict_keys s) in
  fold_left (fun s key_to_del => if dict_mem key_to_del s then dict_del key_to_del s else s)
            keys_to_clear s.

(** The handlers of the three buttons of [render_quick_actions]. *)
Definition quick_add_property (s : session) : session :=
  let s := dict_set "show_add_property_form_main" (VBool true) s in
  let s := dict_set "show_add_maintenance_form_main" (VBool false) s in
  dict_set "editing_property_address" VNone s.

Definition quick_log_maintenance (s : session) : session :=
  let s := dict_set "show_add_maintenance_form_main" (VBool true) s in
  let s := dict_set "show_add_property_form_main" (VBool false) s in
  dict_set "editing_property_address" VNone s.

Definition quick_view_urgent (s : session) : session :=
  let s := dict_set "show_add_property_form_main" (VBool false) s in
  let s := dict_set "show_add_maintenance_form_main" (VBool false) s in
  let s := dict_set "editing_property_address" VNone s in
  let s := dict_set "active_tab" (VStr "🧰 Maintenance Center") s in
  dict_set "maintenance_filter_urgency_all" (VStr "High") s.

(** The main panels of the application. *)
Inductive panel : Type :=
| AuthScreen
| EditPropertyForm
| AddPropertyForm
| AddMaintenanceForm
| Tabs.

(** The dispatch of [run]: the login screen for a session that is not
    authenticated, otherwise the form in progress, otherwise the
    tabs. *)
Definition run (s : session) : panel :=
  if negb (truthy (is_authenticated s)) then AuthScreen
  else
    match dict_get "editing_property_address" s with
    | Some VNone | None =>
        if truthy (dict_get_default "show_add_property_form_main" s (VBool false))
        then AddPropertyForm
        else if truthy (dict_get_default "show_add_maintenance_form_main" s (VBool false))
        then AddMaintenanceForm
        else Tabs
    | Some _ => EditPropertyForm
    end.

(** ** Dashboard: the maintenance history *)

(** [sorted(list(set(l)))] on strings: the distinct elements in
    increasing order. *)
Fixpoint insert_sorted (x : string) (l : list string) : list string :=
  match l with
  | [] => [x]
  | y :: t => match String.compare x y with
              | Lt => x :: y :: t
              | Eq => y :: t
              | Gt => y :: insert_sorted x t
              end
  end.

Definition sorted_set (l : list string) : list string := fold_right insert_sorted [] l.

(** [l.index(x)] *)
Fixpoint list_index (x : string) (l : list string) : result nat :=
  match l with
  | [] => Raise ValueError
  | y :: t => if String.eqb y x then Ok O
              else i <- list_index x t ;; Ok (S i)
  end.

(** [l.index(v)] for a value of the session: only a string can be equal
    to an element of a list of strings. *)
Definition list_index_value (v : value) (l : list string) : result nat :=
  match v with
  | VStr x => list_index x l
  | _ => Raise ValueError
  end.

(** [s.replace(c, r)] for a pattern of one character. *)
Fixpoint replace_char (c : ascii) (r : string) (s : string) : string :=
  match s with
  | EmptyString => EmptyString
  | String a t => if Ascii.eqb a c then (r ++ replace_char c r t)%string
                  else String a (replace_char c r t)
  end.

(** [render_maintenance_history] up to its select box, for the records
    of the session: the records in scope, the options of the urgency
    filter and the position of the stored filter among them ([None]
    when there is no record to show).  The session comes back with the
    filter key set. *)
Definition render_maintenance_history (property_address_arg : option string)
           (records : list MaintenanceRecord) (s : session)
  : result (session * option (list MaintenanceRecord * list string * nat)) :=
  let given := match property_address_arg with
               | Some a => negb (String.eqb a "")
               | None => false
               end in
  let addr := match property_address_arg with Some a => a | None => ""%string end in
  let records_to_show :=
    filter (fun r => negb given || String.eqb (property_address r) addr) records in
  match records_to_show with
  | [] => Ok (s, None)
  | _ :: _ =>
      let urgency_options := "All"%string :: sorted_set (map urgency records_to_show) in
      let filter_key_suffix :=
        if given then replace_char ","%char "" (replace_char " "%char "_" addr)
        else "all"%string in
      let session_filter_key :=
        ("maintenance_filter_urgency_" ++ filter_key_suffix)%string in
      let s := set_if_missing session_filter_key (VStr "All") s in
      stored <- dict_index session_filter_key s ;;
      index <- list_index_value stored urgency_options ;;
      Ok (s, Some (records_to_show, urgency_options, index))
  end.

(** ** Dashboard: adding to the portfolio *)

(** The values of the widgets of the add-property form. *)
Record property_form : Type := {
  form_address : string;
  form_city : string;
  form_state : string;
  form_zip_code : string;
  form_year_built : Z;
  form_property_type : string;
  form_roof_material : string;
  form_roof_age : Z;
  form_hvac_age : Z;
  form_square_footage : Z;
  form_foundation_type : string;
  form_electrical_age : Z;
  form_plumbing_age : Z;
  form_last_inspection_date : option Z
}.

(** The values of the widgets of the maintenance form; the select box
    gives a label or nothing. *)
Record maintenance_form : Type := {
  form_selected_display_address : option string;
  form_date : Z;
  form_category : string;
  form_description : string;
  form_cost : Q;
  form_contractor : string;
  form_urgency : string
}.

Definition nonempty (s : string) : bool := negb (String.eqb s "").

Section Forms.
(** [str.upper] and [date.strftime("%Y-%m-%d")] on the ordinal of a
    day. *)
Variable upper : string -> string.
Variable strftime : Z -> string.

(** The submit branch of [render_add_property_form_main_panel], on the
    part of the session that holds the portfolio.  The photo and the
    list of documents are not part of [Property] here, and the flag
    that closes the form is not a field of [session_state]. *)
Definition add_property (form : property_form) (st : session_state) : session_state :=
  if forallb nonempty
       [form_address form; form_city form; form_state form; form_zip_code form]
  then
    let last_inspection_str :=
      match form_last_inspection_date form with
      | Some d => strftime d
      | None => "N/A"%string
      end in
    let new_property :=
      {| address := form_address form; city := form_city form;
         state := upper (form_state form); zip_code := form_zip_code form;
         year_built := form_year_built form;
         square_footage := form_square_footage form;
         property_type := form_property_type form;
         roof_material := form_roof_material form;
         roof_age := form_roof_age form;
         foundation_type := form_foundation_type form;
         hvac_age := form_hvac_age form;
         electrical_age := form_electrical_age form;
         plumbing_age := form_plumbing_age form;
         last_inspection := last_inspection_str |} in
    {| properties := properties st ++ [new_property];
       maintenance_records := maintenance_records st;
       editing_property_address := editing_property_address st;
       selected_property_address_health := selected_property_address_health st |}
  else st.

(** The labels of the select box of the maintenance form, each with the
    address it stands for. *)
Definition property_display_options (props : list Property) : list (string * string) :=
  fold_left
    (fun d prop =>
       dict_set (address prop ++ ", " ++ city prop ++ ", " ++ upper (state prop))%string
                (address prop) d)
    props [].

(** The submit branch of [render_add_maintenance_form_main_panel]:
    the label chosen in the select box is looked up, and the record is
    added when the address found and the required fields are not
    empty. *)
Definition add_maintenance_record (form : maintenance_form) (st : session_state)
  : session_state :=
  match properties st with
  | [] => st
  | _ :: _ =>
      let actual_address_for_record :=
        match form_selected_display_address form with
        | Some label =>
            if nonempty label
            then dict_get label (property_display_options (properties st))
            else None
        | None => None
        end in
      match actual_address_for_record with
      | Some addr =>
          if nonempty addr && nonempty (form_description form)
             && nonempty (form_category form) && nonempty (form_urgency form)
          then
            let new_record :=
              {| date := strftime (form_date form);
                 category := form_category form;
                 description := form_description form;
                 cost := form_cost form;
                 contractor := form_contractor form;
                 urgency := form_urgency form;
                 property_address := addr |} in
            {| properties := properties st;
               maintenance_records := maintenance_records st ++ [new_record];
               editing_property_address := editing_property_address st;
               selected_property_address_health :=
                 selected_property_address_health st |}
          else st
      | None => st
      end
  end.

End Forms.

(** Every maintenance record belongs to a property of the portfolio. *)
Definition records_belong (st : session_state) : Prop :=
  forall r, In r (maintenance_records st) ->
            exists prop, In prop (properties st) /\ address prop = property_address r.

(** ** What every task of a schedule satisfies *)

(** A task with one of the three priorities, a cost between 10 and
    10125, and due between 90 and 730 days from now. *)
Definition plausible_task (clk : clock) (t : task) : Prop :=
  In (priority t) ["high"; "important"; "routine"]%string
  /\ 10 <= estimated_cost t <= 10125
  /\ current_date clk + timedelta_days 90 <= next_due t
     <= current_date clk + timedelta_days 730.

Definition is_hvac_task (t : task) : bool := String.prefix "HVAC" (task_name t).

Definition is_routine (t : task) : bool := String.eqb (priority t) "routine".

(** ** The safety score in points *)

(** 90 points, less 15 for a building over 50 years old or 7 for one
    over 30, less 5 for an electrical system over 30, less 5 for an
    inspection that is missing on a building over 20 or more than five
    years old. *)
Definition safety_points (strptime : string -> option Z) (clk : clock) (p : Property) : Z :=
  let age := current_year clk - year_built p in
  90
  - (if 50 <? age then 15 else if 30 <? age then 7 else 0)
  - (if 30 <? electrical_age p then 5 else 0)
  - (if String.eqb (last_inspection p) "N/A"
     then (if 20 <? age then 5 else 0)
     else match strptime (last_inspection p) with
          | Some last_insp_date =>
              if 5 * 365 <? today clk - last_insp_date then 5 else 0
          | None => 0
          end).

(** A property with every component past 1.2 times its expected life. *)
Definition worn_out : Property := {|
  address := "9 Quarry Rd"; city := "Culpeper"; state := "VA";
  zip_code := "22701"; year_built := 1900; square_footage := 1100;
  property_type := "Single Family"; roof_material := "Asphalt Shingles";
  roof_age := 40; foundation_type := "Pier & Beam"; hvac_age := 30;
  electrical_age := 50; plumbing_age := 60; last_inspection := "N/A"
|}.

(** A session after login, with one property, on the add-property
    form. *)
Definition sample_session : session :=
  [ ("authenticated"%string, VBool true);
    ("auth_full_name"%string, VStr "A. Reader");
    ("properties"%string, VProperties [new_build]);
    ("maintenance_records"%string, VRecords []);
    ("show_add_property_form_main"%string, VBool true);
    ("editing_property_address"%string, VNone) ].

(** The records in the scope of [render_maintenance_history], the key
    of its urgency filter and the filter in force: the stored one, or
    "All" when none is stored. *)
Definition history_scope (property_address_arg : option string)
           (records : list MaintenanceRecord) : list MaintenanceRecord :=
  match property_address_arg with
  | Some a => if String.eqb a "" then records
              else filter (fun r => String.eqb (property_address r) a) records
  | None => records
  end.

Definition history_filter_key (property_address_arg : option string) : string :=
  match property_address_arg with
  | Some a => if String.eqb a "" then "maintenance_filter_urgency_all"
              else ("maintenance_filter_urgency_"
                    ++ replace_char ","%char "" (replace_char " "%char "_" a))%string
  | None => "maintenance_filter_urgency_all"%string
  end.

Definition history_filter (property_address_arg : option string) (s : session) : value :=
  dict_get_default (history_filter_key property_address_arg) s (VStr "All").

(** The new build some decades later, with the same roof, foundation
    and inspection date. *)
Definition aged_build : Property := {|
  address := "12 Elm St"; city := "Culpeper"; state := "VA";
  zip_code := "22701"; year_built := 1990; square_footage := 1500;
  property_type := "Single Family"; roof_material := "Metal"; roof_age := 30;
  foundation_type := "Basement"; hvac_age := 12; electrical_age := 33;
  plumbing_age := 36; last_inspection := "2026-11-04"
|}.

Definition urgent_record (addr : string) : MaintenanceRecord := {|
  date := "2026-02-01"; category := "Roofing"; description := "leak";
  cost := 900; contractor := "Acme"; urgency := "High";
  property_address := addr
|}.

(** A portfolio whose only urgent record belongs to the old house. *)
Definition urgent_state : session_state := {|
  properties := [old_house; new_build];
  maintenance_records :=
    [ urgent_record "7 Mill Rd"; sample_record "12 Elm St" "filter" ];
  editing_property_address := None;
  selected_property_address_health := None
|}.

Definition sample_property_form : property_form := {|
  form_address := "5 Oak Ave"; form_city := "Culpeper"; form_state := "va";
  form_zip_code := "22701"; form_year_built := 2000;
  form_property_type := "Townhouse"; form_roof_material := "Metal";
  form_roof_age := 10; form_hvac_age := 5; form_square_footage := 1500;
  form_foundation_type := "Basement"; form_electrical_age := 15;
  form_plumbing_age := 20; form_last_inspection_date := None
|}.

Definition sample_maintenance_form : maintenance_form := {|
  form_selected_display_address := Some "12 Elm St, Culpeper, VA"%string;
  form_date := 739924; form_category := "HVAC";
  form_description := "new filter"; form_cost := 30;
  form_contractor := ""; form_urgency := "Routine"
|}.

(** Stand-ins for [str.upper] and [strftime] on the sample data. *)
Definition sample_upper (s : string) : string :=
  if String.eqb s "va" then "VA"%string else s.

Definition sample_strftime (d : Z) : string :=
  if d =? 739924 then "2026-11-04"%string else "2026-01-01"%string.

(* ================================================================= *)
(** * Part II: properties *)
(* ================================================================= *)

Unset Implicit Arguments.

(** ** Dictionaries and the error monad *)

Lemma dict_get_not_in {V : Type} (k : string) (d : list (string * V)) :
  ~ In k (map fst d) -> dict_get k d = None.
Proof.
  induction d as [|[k' v] t IH]; simpl; intros Hn.
  - reflexivity.
  - destruct (String.eqb_spec k k') as [->|Hne].
    + exfalso. apply Hn. now left.
    + apply IH. intros Hin. apply Hn. now right.
Qed.

Lemma dict_get_in {V : Type} (k : string) (d : list (string * V)) (v : V) :
  dict_get k d = Some v -> In (k, v) d.
Proof.
  induction d as [|[k' v'] t IH]; simpl; intros H.
  - discriminate.
  - destruct (String.eqb_spec k k') as [->|Hne].
    + injection H as ->. now left.
    + right. now apply IH.
Qed.

Lemma bind_ok {A B : Type} (m : result A) (k : A -> result B) (b : B) :
  bind m k = Ok b -> exists a, m = Ok a /\ k a = Ok b.
Proof.
  destruct m as [a|e]; simpl; intros H.
  - now exists a.
  - discriminate.
Qed.

(** ** Regional cost estimation *)

(** The nine item types of the national baseline table. *)
Lemma baseline_item_types :
  map fst national_cost_baseline =
  [ "hvac_service"; "hvac_replacement"; "roof_repair"; "roof_replacement";
    "electrical_panel"; "plumbing_repair"; "water_heater";
    "foundation_repair"; "gutter_replacement" ]%string.
Proof. reflexivity. Qed.

(** C7. The estimate for a HVAC replacement in ZIP 22102: the exact-ZIP
    entry with multiplier 1.35 is selected, the baseline is
    (5000, 12000, 7500), and the binary64 products truncate to
    6750, 16200 and 10125; the national average 7500 and the confidence
    "high" come with them. *)
Theorem hvac_replacement_22102 :
  get_regional_info "22102"%string =
    Ok {| multiplier := flit (135 # 100);
          region := "Northern Virginia - DC Metro";
          confidence := "high" |}
  /\ dict_index "hvac_replacement"%string national_cost_baseline =
    Ok {| cmin := 5000; cmax := 12000; cavg := 7500 |}
  /\ get_local_cost_estimate "hvac_replacement"%string "22102"%string =
    Ok {| est_min := 6750; est_max := 16200; est_avg := 10125;
          est_confidence := "high";
          est_region := "Northern Virginia - DC Metro";
          national_avg := 7500 |}.
Proof. repeat split; vm_compute; reflexivity. Qed.

(** C8. An item type outside the nine known ones gets the all-zero
    estimate with region "Unknown" and confidence "low", whatever the
    ZIP code, and nothing is raised. *)
Theorem unknown_item_estimate (item_type zip : string) :
  ~ In item_type
      [ "hvac_service"; "hvac_replacement"; "roof_repair"; "roof_replacement";
        "electrical_panel"; "plumbing_repair"; "water_heater";
        "foundation_repair"; "gutter_replacement" ]%string ->
  get_local_cost_estimate item_type zip =
    Ok {| est_min := 0; est_max := 0; est_avg := 0;
          est_confidence := "low"; est_region := "Unknown";
          national_avg := 0 |}.
Proof.
  intros Hn. unfold get_local_cost_estimate, dict_mem.
  rewrite dict_get_not_in by (rewrite baseline_item_types; exact Hn).
  reflexivity.
Qed.

Lemma unknown_item_estimate_witness :
  get_local_cost_estimate "pool_resurfacing"%string "90210"%string =
    Ok {| est_min := 0; est_max := 0; est_avg := 0;
          est_confidence := "low"; est_region := "Unknown";
          national_avg := 0 |}.
Proof.
  apply (unknown_item_estimate "pool_resurfacing"%string "90210"%string).
  simpl. intros H.
  repeat (destruct H as [H|H]; [discriminate H|]). exact H.
Defined.

(** ** Deleting a property *)

Lemma find_index_some {A : Type} (f : A -> bool) (l : list A) (i : nat) :
  find_index f l = Some i ->
  exists x, nth_error l i = Some x /\ f x = true.
Proof.
  revert i. induction l as [|y t IH]; simpl; intros i H.
  - discriminate.
  - destruct (f y) eqn:Hy.
    + injection H as <-. exists y. now split.
    + destruct (find_index f t) as [j|] eqn:Hj; [|discriminate].
      injection H as <-. destruct (IH j eq_refl) as (x & Hx & Hfx).
      exists x. now split.
Qed.

Lemma find_index_first {A : Type} (f : A -> bool) (l : list A) (i : nat) (x : A) :
  nth_error l i = Some x -> f x = true ->
  exists j, find_index f l = Some j /\ (j <= i)%nat.
Proof.
  revert i. induction l as [|y t IH]; intros [|i] Hn Hf; simpl in *; try discriminate.
  - injection Hn as ->. rewrite Hf. exists O. split; [reflexivity|lia].
  - destruct (f y).
    + exists O. split; [reflexivity|lia].
    + destruct (IH i Hn Hf) as (j & -> & Hle). exists (S j). split; [reflexivity|lia].
Qed.

Lemma del_at_firstn_skipn {A : Type} (i : nat) (l : list A) :
  del_at i l = firstn i l ++ skipn (S i) l.
Proof.
  revert i. induction l as [|x t IH]; intros [|i]; simpl; try reflexivity.
  now rewrite IH.
Qed.

(** C9. Deleting the property chosen in the select box removes one
    property, the first whose address equals the chosen one, and leaves
    the other properties in place; the maintenance records kept are
    exactly those of the old list whose [property_address] differs from
    that address, in their old order. *)
Theorem delete_cascade (st : session_state) (selected : nat) (prop : Property) :
  nth_error (properties st) selected = Some prop ->
  let st' := delete_selected selected st in
  maintenance_records st' =
    filter (fun r => negb (String.eqb (property_address r) (address prop)))
           (maintenance_records st)
  /\ (forall r, In r (maintenance_records st') <->
                In r (maintenance_records st) /\ property_address r <> address prop)
  /\ exists idx deleted,
       nth_error (properties st) idx = Some deleted
       /\ address deleted = address prop
       /\ properties st' =
            firstn idx (properties st) ++ skipn (S idx) (properties st).
Proof.
  intros Hsel st'. subst st'. unfold delete_selected. rewrite Hsel.
  unfold delete_property.
  destruct (find_index_first
              (fun p_obj => String.eqb (address p_obj) (address prop))
              (properties st) selected prop Hsel (String.eqb_refl _))
    as (idx & Hidx & _).
  rewrite Hidx. simpl. split; [reflexivity|]. split.
  - intros r. rewrite filter_In. split.
    + intros [Hin Hneq]. split; [exact Hin|].
      intros Heq. rewrite Heq, String.eqb_refl in Hneq. discriminate.
    + intros [Hin Hneq]. split; [exact Hin|].
      destruct (String.eqb_spec (property_address r) (address prop)); [contradiction|reflexivity].
  - destruct (find_index_some _ _ _ Hidx) as (deleted & Hnth & Heq).
    exists idx, deleted. split; [exact Hnth|]. split.
    + now apply String.eqb_eq.
    + apply del_at_firstn_skipn.
Qed.

Lemma delete_cascade_witness :
  maintenance_records (delete_selected 1 sample_state) =
    [ sample_record "7 Mill Rd" "tune-up" ]
  /\ properties (delete_selected 1 sample_state) = [old_house].
Proof.
  destruct (delete_cascade sample_state 1 new_build eq_refl) as (Hm & _ & _).
  split; [rewrite Hm|]; reflexivity.
Defined.

(** ** Regional information is always found *)

Lemma regional_info_cases (zip : string) :
  exists info, get_regional_info zip = Ok info
               /\ In info (map snd regional_multipliers).
Proof.
  unfold get_regional_info, dict_mem, dict_index, regional_multipliers, dict_get.
  destruct (String.eqb zip "22701").
  { eexists; split; [reflexivity|simpl; auto]. }
  destruct (String.eqb zip "22102").
  { eexists; split; [reflexivity|simpl; auto]. }
  destruct (String.eqb zip "default").
  { eexists; split; [reflexivity|simpl; auto]. }
  destruct zip as [|c rest].
  { eexists; split; [reflexivity|simpl; auto 6]. }
  cbn [String.eqb].
  destruct (Ascii.eqb c "2"); destruct (Ascii.eqb c "d");
    eexists; (split; [reflexivity|simpl; auto 6]).
Qed.

Lemma scaled_costs_ok (baseline : cost_range) (info : region_info) :
  In baseline (map snd national_cost_baseline) ->
  In info (map snd regional_multipliers) ->
  exists e : cost_estimate,
    (bmin <- float_of_int (cmin baseline) ;;
     vmin <- py_int (fmul bmin (multiplier info)) ;;
     bmax <- float_of_int (cmax baseline) ;;
     vmax <- py_int (fmul bmax (multiplier info)) ;;
     bavg <- float_of_int (cavg baseline) ;;
     vavg <- py_int (fmul bavg (multiplier info)) ;;
     Ok {| est_min := vmin; est_max := vmax; est_avg := vavg;
           est_confidence := confidence info;
           est_region := region info;
           national_avg := cavg baseline |}) = Ok e.
Proof.
  intros Hb Hi. simpl in Hb, Hi.
  repeat (destruct Hb as [Hb|Hb]; [subst baseline|]); try contradiction;
    repeat (destruct Hi as [Hi|Hi]; [subst info|]); try contradiction;
    vm_compute; eexists; reflexivity.
Qed.

Lemma get_local_cost_estimate_ok (item_type zip : string) :
  exists e, get_local_cost_estimate item_type zip = Ok e.
Proof.
  unfold get_local_cost_estimate, dict_mem, dict_index.
  destruct (dict_get item_type national_cost_baseline) as [baseline|] eqn:Hb; simpl.
  - destruct (regional_info_cases zip) as (info & -> & Hi). simpl.
    apply scaled_costs_ok; [|exact Hi].
    apply dict_get_in in Hb. change baseline with (snd (item_type, baseline)).
    now apply in_map.
  - eexists; reflexivity.
Qed.

(** ** Stable sort by key *)

Section SortDecorated.
Variable A : Type.

Lemma key_lt_asym (a b : Z * Z) : key_lt a b = true -> key_lt b a = false.
Proof.
  unfold key_lt. destruct a as [a1 a2], b as [b1 b2]; simpl. intros H.
  apply orb_true_iff in H. apply orb_false_iff.
  destruct H as [H|H].
  - apply Z.ltb_lt in H. split; [apply Z.ltb_ge; lia|].
    apply andb_false_iff. left. apply Z.eqb_neq. lia.
  - apply andb_true_iff in H. destruct H as [H1 H2].
    apply Z.eqb_eq in H1. apply Z.ltb_lt in H2. split; [apply Z.ltb_ge; lia|].
    apply andb_false_iff. right. apply Z.ltb_ge. lia.
Qed.

Lemma key_lt_false (a b : Z * Z) :
  key_lt b a = false <-> fst a < fst b \/ (fst a = fst b /\ snd a <= snd b).
Proof.
  unfold key_lt. destruct a as [a1 a2], b as [b1 b2]; simpl.
  rewrite orb_false_iff, andb_false_iff, Z.ltb_ge, Z.eqb_neq, Z.ltb_ge. lia.
Qed.

Lemma key_ordered_trans (x y z : (Z * Z) * A) :
  key_ordered x y -> key_ordered y z -> key_ordered x z.
Proof.
  unfold key_ordered. rewrite !key_lt_false. lia.
Qed.

Lemma insert_stable_in (x e : (Z * Z) * A) (l : list ((Z * Z) * A)) :
  In e (insert_stable x l) <-> e = x \/ In e l.
Proof.
  induction l as [|y t IH]; simpl.
  - intuition.
  - destruct (key_lt (fst y) (fst x)); simpl; rewrite ?IH; intuition.
Qed.

Lemma insert_stable_sorted (x : (Z * Z) * A) (l : list ((Z * Z) * A)) :
  StronglySorted key_ordered l -> StronglySorted key_ordered (insert_stable x l).
Proof.
  induction 1 as [|y t Hs IH Hall]; simpl.
  - repeat constructor.
  - destruct (key_lt (fst y) (fst x)) eqn:Hlt.
    + constructor; [exact IH|].
      apply Forall_forall. intros e He. apply insert_stable_in in He.
      destruct He as [->|He].
      * unfold key_ordered. now apply key_lt_asym.
      * rewrite Forall_forall in Hall. now apply Hall.
    + constructor; [now constructor|].
      constructor; [exact Hlt|].
      apply Forall_forall. intros e He. rewrite Forall_forall in Hall.
      apply key_ordered_trans with y; [exact Hlt|now apply Hall].
Qed.

Lemma sort_decorated_sorted (l : list ((Z * Z) * A)) :
  StronglySorted key_ordered (sort_decorated l).
Proof.
  induction l as [|x t IH]; simpl.
  - constructor.
  - now apply insert_stable_sorted.
Qed.

Lemma sort_decorated_in (e : (Z * Z) * A) (l : list ((Z * Z) * A)) :
  In e (sort_decorated l) <-> In e l.
Proof.
  induction l as [|x t IH]; simpl.
  - reflexivity.
  - rewrite insert_stable_in, IH. intuition.
Qed.

Lemma sorted_nth (R : (Z * Z) * A -> (Z * Z) * A -> Prop)
      (l : list ((Z * Z) * A)) (i j : nat) (x y : (Z * Z) * A) :
  StronglySorted R l -> (i < j)%nat ->
  nth_error l i = Some x -> nth_error l j = Some y -> R x y.
Proof.
  intros Hs. revert i j. induction Hs as [|z t Hs IH Hall]; intros i j Hij Hi Hj.
  - destruct i; discriminate.
  - destruct j as [|j]; [lia|]. simpl in Hj. destruct i as [|i]; simpl in Hi.
    + injection Hi as ->. rewrite Forall_forall in Hall.
      apply Hall. eapply nth_error_In; eassumption.
    + apply (IH i j); [lia|assumption|assumption].
Qed.

End SortDecorated.

(** ** The maintenance schedule *)

Lemma rank_cases (s : string) (r : Z) :
  dict_index s priority_rank = Ok r ->
  (s = "high"%string /\ r = 0) \/ (s = "important"%string /\ r = 1)
  \/ (s = "routine"%string /\ r = 2).
Proof.
  unfold dict_index, priority_rank, dict_get.
  destruct (String.eqb_spec s "high"); [intros [= <-]; auto|].
  destruct (String.eqb_spec s "important"); [intros [= <-]; auto|].
  destruct (String.eqb_spec s "routine"); [intros [= <-]; auto|].
  discriminate.
Qed.

Lemma mapM_decorate_ok (l : list task) :
  Forall ranked l -> exists dec, mapM decorate l = Ok dec.
Proof.
  induction 1 as [|t l [k Hk] _ [dec IH]]; simpl.
  - now eexists.
  - unfold decorate at 1. rewrite Hk. simpl. rewrite IH. simpl. now eexists.
Qed.

Lemma mapM_decorate_keys (l : list task) (dec : list ((Z * Z) * task)) :
  mapM decorate l = Ok dec ->
  Forall (fun kt => sort_key (snd kt) = Ok (fst kt)) dec.
Proof.
  revert dec. induction l as [|t l IH]; simpl; intros dec H.
  - injection H as <-. constructor.
  - apply bind_ok in H. destruct H as (kt & Hkt & H).
    apply bind_ok in H. destruct H as (dec' & Hdec & H).
    injection H as <-. constructor; [|now apply IH].
    unfold decorate in Hkt. apply bind_ok in Hkt.
    destruct Hkt as (k & Hk & Hkt). injection Hkt as <-. exact Hk.
Qed.

Ltac rule_ok p item :=
  let e := fresh "e" in
  let He := fresh "He" in
  destruct (get_local_cost_estimate_ok item (zip_code p)) as [e He];
  rewrite He; simpl; eexists; split;
  [reflexivity|repeat constructor; eexists; reflexivity].

Section Schedule.
Variable clk : clock.
Variable p : Property.

Lemma hvac_tasks_ok :
  exists l, hvac_tasks clk p = Ok l /\ Forall ranked l.
Proof.
  unfold hvac_tasks.
  destruct (hvac_age p <=? 1);
    [|destruct (int_le_float (hvac_age p) (fmul (flit 18) (flit (8 # 10))))].
  - rule_ok p "hvac_service"%string.
  - rule_ok p "hvac_service"%string.
  - rule_ok p "hvac_replacement"%string.
Qed.

Lemma roof_tasks_ok :
  exists l, roof_tasks clk p = Ok l /\ Forall ranked l.
Proof.
  unfold roof_tasks. destruct (10 <? roof_age p).
  - rule_ok p "roof_repair"%string.
  - eexists; split; [reflexivity|constructor].
Qed.

Lemma electrical_inspection_tasks_ok :
  exists l, electrical_inspection_tasks clk p = Ok l /\ Forall ranked l.
Proof.
  unfold electrical_inspection_tasks. destruct (30 <? electrical_age p).
  - rule_ok p "electrical_panel"%string.
  - eexists; split; [reflexivity|constructor].
Qed.

Lemma electrical_upgrade_tasks_ok :
  exists l, electrical_upgrade_tasks clk p = Ok l /\ Forall ranked l.
Proof.
  unfold electrical_upgrade_tasks.
  destruct (negb (int_le_float (electrical_age p) (fmul (flit 35) (flit (9 # 10))))).
  - rule_ok p "electrical_panel"%string.
  - eexists; split; [reflexivity|constructor].
Qed.

Lemma water_heater_tasks_ok :
  exists l, water_heater_tasks clk p = Ok l /\ Forall ranked l.
Proof.
  unfold water_heater_tasks. destruct (8 <? plumbing_age p).
  - rule_ok p "water_heater"%string.
  - eexists; split; [reflexivity|constructor].
Qed.

Lemma plumbing_tasks_ok :
  exists l, plumbing_tasks clk p = Ok l /\ Forall ranked l.
Proof.
  unfold plumbing_tasks.
  destruct (negb (int_le_float (plumbing_age p) (fmul (flit 50) (flit (8 # 10))))).
  - rule_ok p "plumbing_repair"%string.
  - eexists; split; [reflexivity|constructor].
Qed.

Lemma seasonal_tasks_ok :
  exists l, seasonal_tasks clk p = Ok l /\ Forall ranked l.
Proof.
  unfold seasonal_tasks. rule_ok p "gutter_replacement"%string.
Qed.

Lemma sort_schedule_ok (l : list task) :
  Forall ranked l -> exists s, sort_schedule l = Ok s.
Proof.
  intros H. unfold sort_schedule.
  destruct (mapM_decorate_ok l H) as [dec ->]. simpl. now eexists.
Qed.

Lemma sort_schedule_ordered (l s : list task) (i j : nat) (ti tj : task) :
  sort_schedule l = Ok s -> (i < j)%nat ->
  nth_error s i = Some ti -> nth_error s j = Some tj ->
  exists ri rj,
    dict_index (priority ti) priority_rank = Ok ri
    /\ dict_index (priority tj) priority_rank = Ok rj
    /\ (ri < rj \/ (ri = rj /\ next_due ti <= next_due tj)).
Proof.
  unfold sort_schedule. intros Hs Hij Hi Hj.
  apply bind_ok in Hs. destruct Hs as (dec & Hdec & Hs). injection Hs as <-.
  apply mapM_decorate_keys in Hdec. rewrite Forall_forall in Hdec.
  rewrite nth_error_map in Hi, Hj.
  destruct (nth_error (sort_decorated dec) i) as [[ki ti']|] eqn:Ei; [|discriminate].
  destruct (nth_error (sort_decorated dec) j) as [[kj tj']|] eqn:Ej; [|discriminate].
  simpl in Hi, Hj. injection Hi as ->. injection Hj as ->.
  assert (Hki : sort_key ti = Ok ki).
  { apply (Hdec (ki, ti)). apply sort_decorated_in. eapply nth_error_In; eassumption. }
  assert (Hkj : sort_key tj = Ok kj).
  { apply (Hdec (kj, tj)). apply sort_decorated_in. eapply nth_error_In; eassumption. }
  pose proof (sorted_nth task key_ordered _ i j _ _
                (sort_decorated_sorted task dec) Hij Ei Ej) as Hord.
  unfold key_ordered in Hord. simpl in Hord. apply key_lt_false in Hord.
  unfold sort_key in Hki, Hkj.
  apply bind_ok in Hki. destruct Hki as (ri & Hri & Hki). injection Hki as <-.
  apply bind_ok in Hkj. destruct Hkj as (rj & Hrj & Hkj). injection Hkj as <-.
  exists ri, rj. simpl in Hord. auto.
Qed.

Lemma schedule_built :
  exists tasks schedule,
    Forall ranked tasks
    /\ sort_schedule tasks = Ok schedule
    /\ generate_maintenance_schedule clk p = Ok schedule.
Proof.
  unfold generate_maintenance_schedule.
  destruct hvac_tasks_ok as (t1 & -> & H1).
  destruct roof_tasks_ok as (t2 & -> & H2).
  destruct electrical_inspection_tasks_ok as (t3 & -> & H3).
  destruct electrical_upgrade_tasks_ok as (t4 & -> & H4).
  destruct water_heater_tasks_ok as (t5 & -> & H5).
  destruct plumbing_tasks_ok as (t6 & -> & H6).
  destruct seasonal_tasks_ok as (t7 & -> & H7).
  cbn [bind].
  assert (Hall : Forall ranked (t1 ++ t2 ++ t3 ++ t4 ++ t5 ++ t6 ++ t7)).
  { repeat (apply Forall_app; split); assumption. }
  destruct (sort_schedule_ok _ Hall) as [schedule Hs].
  exists (t1 ++ t2 ++ t3 ++ t4 ++ t5 ++ t6 ++ t7), schedule. now repeat split.
Qed.

(** C6. The schedule is always produced, and it is ordered: every task
    carries one of the three priorities; a task listed before another
    is never of lower priority (so no "high" task follows an "important"
    or "routine" one, and no "important" task follows a "routine" one),
    and of two tasks of the same priority the earlier listed is due no
    later. *)
Theorem schedule_sorted :
  exists schedule,
    generate_maintenance_schedule clk p = Ok schedule
    /\ (forall t, In t schedule ->
          In (priority t) ["high"; "important"; "routine"]%string)
    /\ forall i j ti tj,
         (i < j)%nat ->
         nth_error schedule i = Some ti -> nth_error schedule j = Some tj ->
         (priority tj = "high"%string -> priority ti = "high"%string)
         /\ (priority tj = "important"%string -> priority ti <> "routine"%string)
         /\ (priority ti = "routine"%string -> priority tj = "routine"%string)
         /\ (priority ti = priority tj -> next_due ti <= next_due tj).
Proof.
  destruct schedule_built as (tasks & schedule & Hall & Hs & Hg).
  exists schedule. split; [exact Hg|].
  assert (Hprio : forall t, In t schedule ->
            In (priority t) ["high"; "important"; "routine"]%string).
  { intros t Ht. unfold sort_schedule in Hs.
    apply bind_ok in Hs. destruct Hs as (dec & Hdec & Hs). injection Hs as <-.
    apply mapM_decorate_keys in Hdec. rewrite Forall_forall in Hdec.
    apply in_map_iff in Ht. destruct Ht as ([k t'] & Heq & Hin). simpl in Heq. subst t'.
    rewrite sort_decorated_in in Hin. specialize (Hdec _ Hin). simpl in Hdec.
    unfold sort_key in Hdec. apply bind_ok in Hdec. destruct Hdec as (r & Hr & _).
    apply rank_cases in Hr. simpl. intuition. }
  split; [exact Hprio|].
  intros i j ti tj Hij Hi Hj.
  destruct (sort_schedule_ordered _ _ i j ti tj Hs Hij Hi Hj)
    as (ri & rj & Hri & Hrj & Hord).
  apply rank_cases in Hri. apply rank_cases in Hrj.
  repeat split.
  - intros E. rewrite E in Hrj.
    destruct Hrj as [[_ ->]|[[? _]|[? _]]]; try discriminate.
    destruct Hri as [[? ->]|[[_ ->]|[_ ->]]]; [assumption|lia|lia].
  - intros E Er. rewrite E in Hrj. rewrite Er in Hri.
    destruct Hrj as [[? _]|[[_ ->]|[? _]]]; try discriminate.
    destruct Hri as [[? _]|[[? _]|[_ ->]]]; try discriminate. lia.
  - intros E. rewrite E in Hri.
    destruct Hri as [[? _]|[[? _]|[_ ->]]]; try discriminate.
    destruct Hrj as [[_ ->]|[[_ ->]|[? ->]]]; [lia|lia|assumption].
  - intros E. rewrite E in Hri.
    destruct Hri as [[E1 ->]|[[E1 ->]|[E1 ->]]];
      destruct Hrj as [[E2 ->]|[[E2 ->]|[E2 ->]]];
      try lia; rewrite E1 in E2; discriminate.
Qed.

End Schedule.

(** ** Rounding to the nearest integer, ties to even *)

Lemma round_half_even_spec (n d : Z) :
  0 < d ->
  let r := round_half_even n d in
  (2 * r - 1) * d <= 2 * n <= (2 * r + 1) * d
  /\ (2 * n = (2 * r + 1) * d -> Z.even r = true)
  /\ (2 * n = (2 * r - 1) * d -> Z.even r = true).
Proof.
  intros Hd. unfold round_half_even.
  pose proof (Z.div_mod n d ltac:(lia)) as Hdm.
  pose proof (Z.mod_pos_bound n d Hd) as Hm.
  set (q := n / d) in *. set (m := n mod d) in *.
  destruct (Z.ltb_spec (2 * m) d) as [H1|H1].
  - cbv zeta. repeat split; nia.
  - destruct (Z.ltb_spec d (2 * m)) as [H2|H2].
    + cbv zeta. repeat split; nia.
    + assert (E : 2 * m = d) by lia.
      destruct (Z.even q) eqn:Hq; cbv zeta.
      * repeat split; try nia. intros _. exact Hq.
      * repeat split; try nia. intros _.
        rewrite Z.even_add, Hq. reflexivity.
Qed.

Lemma round_half_even_mono (n1 d1 n2 d2 : Z) :
  0 < d1 -> 0 < d2 -> n1 * d2 <= n2 * d1 ->
  round_half_even n1 d1 <= round_half_even n2 d2.
Proof.
  intros H1 H2 Hle.
  destruct (round_half_even_spec n1 d1 H1) as ((L1 & U1) & TU1 & TL1).
  destruct (round_half_even_spec n2 d2 H2) as ((L2 & U2) & TU2 & TL2).
  set (r1 := round_half_even n1 d1) in *.
  set (r2 := round_half_even n2 d2) in *.
  destruct (Z_le_gt_dec r1 r2) as [|Hgt]; [assumption|exfalso].
  assert (Hr : r1 = r2 + 1 /\ 2 * n1 = (2 * r1 - 1) * d1 /\ 2 * n2 = (2 * r2 + 1) * d2).
  { assert (A : (2 * r1 - 1) * d1 * d2 <= 2 * n1 * d2) by nia.
    assert (B : 2 * n2 * d1 <= (2 * r2 + 1) * d2 * d1) by nia.
    assert (C : (2 * r1 - 1) * (d1 * d2) <= (2 * r2 + 1) * (d1 * d2)) by nia.
    assert (D : 0 < d1 * d2) by nia.
    assert (E : 2 * r1 - 1 <= 2 * r2 + 1) by nia.
    assert (E1 : r1 = r2 + 1) by lia.
    split; [exact E1|]. subst r1. rewrite E1 in *. split; nia. }
  destruct Hr as (E & T1 & T2).
  specialize (TL1 T1). specialize (TU2 T2).
  rewrite E, Z.even_add, TU2 in TL1. discriminate.
Qed.

Lemma round_half_even_unique (n d r : Z) :
  0 < d ->
  (2 * r - 1) * d <= 2 * n <= (2 * r + 1) * d ->
  (2 * n = (2 * r + 1) * d -> Z.even r = true) ->
  (2 * n = (2 * r - 1) * d -> Z.even r = true) ->
  round_half_even n d = r.
Proof.
  intros Hd (L & U) TU TL.
  destruct (round_half_even_spec n d Hd) as ((L' & U') & TU' & TL').
  set (r' := round_half_even n d) in *.
  assert (Hr : r' = r \/ r' = r + 1 \/ r' = r - 1) by nia.
  destruct Hr as [E|[E|E]]; [exact E| |]; exfalso.
  - assert (T1 : 2 * n = (2 * r + 1) * d) by nia.
    assert (T2 : 2 * n = (2 * r' - 1) * d) by nia.
    specialize (TU T1). specialize (TL' T2).
    rewrite E, Z.even_add, TU in TL'. discriminate.
  - assert (T1 : 2 * n = (2 * r - 1) * d) by nia.
    assert (T2 : 2 * n = (2 * r' + 1) * d) by nia.
    specialize (TL T1). specialize (TU' T2).
    rewrite E, Z.even_sub, TL in TU'. discriminate.
Qed.

Lemma round_half_even_opp (n d : Z) :
  0 < d -> round_half_even (- n) d = - round_half_even n d.
Proof.
  intros Hd.
  destruct (round_half_even_spec n d Hd) as ((L & U) & TU & TL).
  set (r := round_half_even n d) in *.
  apply round_half_even_unique; [exact Hd|nia| |].
  - intros T. rewrite Z.even_opp. apply TL. nia.
  - intros T. rewrite Z.even_opp. apply TU. nia.
Qed.


Local Open Scope Q_scope.

Lemma Qrhe_mono (p q : Q) : p <= q -> (Qrhe p <= Qrhe q)%Z.
Proof.
  intros H. unfold Qrhe. apply round_half_even_mono; try reflexivity.
  exact H.
Qed.

Lemma Qrhe_inject_Z (z : Z) : Qrhe (inject_Z z) = z.
Proof.
  unfold Qrhe, inject_Z, round_half_even. simpl.
  rewrite Z.div_1_r, Z.mod_1_r. reflexivity.
Qed.

Lemma Qrhe_morph (p q : Q) : p == q -> Qrhe p = Qrhe q.
Proof.
  intros H. apply Z.le_antisymm; apply Qrhe_mono; rewrite H; apply Qle_refl.
Qed.

Lemma Qrhe_opp (q : Q) : Qrhe (- q) = (- Qrhe q)%Z.
Proof.
  unfold Qrhe. destruct q as [n d]. simpl.
  apply round_half_even_opp. reflexivity.
Qed.

Lemma Qrhe_error (q : Q) :
  inject_Z (Qrhe q) - (1 # 2) <= q <= inject_Z (Qrhe q) + (1 # 2).
Proof.
  unfold Qrhe. destruct q as [n d].
  destruct (round_half_even_spec n (Zpos d) eq_refl) as ((L & U) & _).
  cbn [Qnum Qden] in *.
  set (r := round_half_even n (Zpos d)) in *.
  unfold Qle, Qminus, Qplus, Qopp, inject_Z. simpl. split; nia.
Qed.

(** ** Powers of two *)
Lemma pow2_pos (e : Z) : 0 < pow2 e.
Proof. apply Qpower_0_lt. reflexivity. Qed.

Lemma pow2_add (a b : Z) : pow2 (a + b) == pow2 a * pow2 b.
Proof. apply Qpower_plus. discriminate. Qed.

Lemma pow2_opp (a : Z) : pow2 (- a) == / pow2 a.
Proof. apply Qpower_opp. Qed.

Lemma pow2_cancel (a : Z) : pow2 a * pow2 (- a) == 1.
Proof.
  rewrite <- pow2_add. replace (a + - a)%Z with 0%Z by lia. reflexivity.
Qed.

Lemma pow2_le (a b : Z) : (a <= b)%Z -> pow2 a <= pow2 b.
Proof. intros H. apply Qpower_le_compat_l; [exact H|discriminate]. Qed.

Lemma pow2_lt (a b : Z) : (a < b)%Z -> pow2 a < pow2 b.
Proof. intros H. apply Qpower_lt_compat_l; [exact H|reflexivity]. Qed.

Lemma pow2_inject (a : Z) : (0 <= a)%Z -> inject_Z (2 ^ a) == pow2 a.
Proof. intros H. apply (Zpower_Qpower 2 a H). Qed.

(** ** The binary logarithm of a rational *)

Lemma Qle_shift_l (c : Q) (n : Z) (d : positive) :
  c <= n # d <-> c * inject_Z (Zpos d) <= inject_Z n.
Proof.
  destruct c as [cn cd]. unfold Qle, Qmult, inject_Z. simpl.
  rewrite Pos.mul_1_r, Z.mul_1_r. reflexivity.
Qed.

Lemma Qlt_shift_r (c : Q) (n : Z) (d : positive) :
  n # d < c <-> inject_Z n < c * inject_Z (Zpos d).
Proof.
  destruct c as [cn cd]. unfold Qlt, Qmult, inject_Z. simpl.
  rewrite Pos.mul_1_r, Z.mul_1_r. reflexivity.
Qed.

Lemma log2_bounds_Q (n : Z) :
  (0 < n)%Z ->
  pow2 (Z.log2 n) <= inject_Z n < pow2 (Z.log2 n + 1).
Proof.
  intros Hn. destruct (Z.log2_spec n Hn) as [L U].
  pose proof (Z.log2_nonneg n) as Hnn.
  rewrite <- !pow2_inject by lia. split.
  - rewrite <- Zle_Qle. exact L.
  - rewrite <- Zlt_Qlt. exact U.
Qed.

Lemma Qlog2_test (n : Z) (d : positive) (k : Z) :
  (if (0 <=? k)%Z then (Zpos d * 2 ^ k <=? n)%Z else (Zpos d <=? n * 2 ^ (- k))%Z) = true
  <-> pow2 k * inject_Z (Zpos d) <= inject_Z n.
Proof.
  destruct (Z.leb_spec 0 k) as [Hk|Hk].
  - rewrite Z.leb_le, Zle_Qle, inject_Z_mult, pow2_inject by lia.
    rewrite Qmult_comm. reflexivity.
  - rewrite Z.leb_le, Zle_Qle, inject_Z_mult, pow2_inject by lia.
    split; intros H.
    + apply (Qmult_le_l _ _ (pow2 (- k))); [apply pow2_pos|].
      rewrite Qmult_assoc. rewrite (Qmult_comm (pow2 (- k))).
      rewrite pow2_cancel. rewrite Qmult_1_l. rewrite Qmult_comm. exact H.
    + apply (Qmult_le_l _ _ (pow2 k)); [apply pow2_pos|].
      rewrite (Qmult_comm (inject_Z n)), Qmult_assoc, pow2_cancel, Qmult_1_l.
      exact H.
Qed.

Lemma Qlog2_spec (x : Q) :
  0 < x -> pow2 (Qlog2 x) <= x < pow2 (Qlog2 x + 1).
Proof.
  destruct x as [n d]. intros Hx.
  assert (Hn : (0 < n)%Z).
  { unfold Qlt in Hx. simpl in Hx. lia. }
  unfold Qlog2. cbn [Qnum Qden].
  destruct (log2_bounds_Q n Hn) as [Ln Un].
  destruct (log2_bounds_Q (Zpos d) eq_refl) as [Ld Ud].
  set (a := Z.log2 n) in *. set (b := Z.log2 (Zpos d)) in *.
  set (k := (a - b)%Z).
  pose proof (Qlog2_test n d k) as Ht.
  assert (HD : 0 < inject_Z (Zpos d)) by reflexivity.
  destruct (if (0 <=? k)%Z then (Zpos d * 2 ^ k <=? n)%Z
            else (Zpos d <=? n * 2 ^ (- k))%Z) eqn:E.
  - rewrite Qle_shift_l, Qlt_shift_r. split; [now apply Ht|].
    apply Qlt_le_trans with (pow2 (a + 1)); [exact Un|].
    assert (Ea : pow2 (a + 1) == pow2 (k + 1) * pow2 b).
    { rewrite <- pow2_add. replace (k + 1 + b)%Z with (a + 1)%Z by (unfold k; lia).
      reflexivity. }
    rewrite Ea. apply Qmult_le_l; [apply pow2_pos|exact Ld].
  - rewrite Qle_shift_l, Qlt_shift_r.
    replace (k - 1 + 1)%Z with k by lia. split.
    + apply Qle_trans with (pow2 a); [|exact Ln].
      assert (Ea : pow2 a == pow2 (k - 1) * pow2 (b + 1)).
      { rewrite <- pow2_add. replace (k - 1 + (b + 1))%Z with a by (unfold k; lia).
        reflexivity. }
      rewrite Ea. apply Qmult_le_l; [apply pow2_pos|].
      apply Qlt_le_weak. exact Ud.
    + apply Qnot_le_lt. intros H. apply Ht in H. discriminate.
Qed.

Lemma Qlog2_unique (x : Q) (k : Z) :
  pow2 k <= x < pow2 (k + 1) -> Qlog2 x = k.
Proof.
  intros [L U].
  assert (Hx : 0 < x) by (eapply Qlt_le_trans; [apply (pow2_pos k)|exact L]).
  destruct (Qlog2_spec x Hx) as [L' U'].
  destruct (Z.lt_trichotomy (Qlog2 x) k) as [H|[H|H]]; [exfalso|exact H|exfalso].
  - assert (pow2 (Qlog2 x + 1) <= pow2 k) by (apply pow2_le; lia).
    apply (Qlt_irrefl x). eapply Qlt_le_trans; [exact U'|].
    eapply Qle_trans; eassumption.
  - assert (pow2 (k + 1) <= pow2 (Qlog2 x)) by (apply pow2_le; lia).
    apply (Qlt_irrefl x). eapply Qlt_le_trans; [exact U|].
    eapply Qle_trans; eassumption.
Qed.

Lemma Qlog2_mono (x y : Q) : 0 < x -> x <= y -> (Qlog2 x <= Qlog2 y)%Z.
Proof.
  intros Hx Hxy.
  assert (Hy : 0 < y) by (eapply Qlt_le_trans; eassumption).
  destruct (Qlog2_spec x Hx) as [Lx Ux].
  destruct (Qlog2_spec y Hy) as [Ly Uy].
  destruct (Z_le_gt_dec (Qlog2 x) (Qlog2 y)) as [|H]; [assumption|exfalso].
  assert (pow2 (Qlog2 y + 1) <= pow2 (Qlog2 x)) by (apply pow2_le; lia).
  apply (Qlt_irrefl y). eapply Qlt_le_trans; [exact Uy|].
  eapply Qle_trans; [eassumption|]. eapply Qle_trans; eassumption.
Qed.

(** ** Rounding to binary64 *)

Lemma Qnum_zero (x : Q) : Qnum x = 0%Z <-> x == 0.
Proof. destruct x as [n d]. unfold Qeq. simpl. lia. Qed.

Lemma rne_zero (x : Q) : x == 0 -> rne x = 0.
Proof.
  intros H. unfold rne. apply Qnum_zero in H. rewrite H. reflexivity.
Qed.

Lemma rne_nonzero (x : Q) :
  ~ x == 0 ->
  rne x == inject_Z (Qrhe (x * pow2 (- expo x))) * pow2 (expo x).
Proof.
  intros H. unfold rne.
  destruct (Z.eqb_spec (Qnum x) 0) as [E|E].
  - exfalso. apply H. now apply Qnum_zero.
  - cbv zeta. apply Qred_correct.
Qed.

Lemma Qabs_pos_eq (x : Q) : 0 < x -> Qabs x = x.
Proof.
  destruct x as [n d]. unfold Qlt. simpl. intros H.
  rewrite Z.abs_eq by lia. reflexivity.
Qed.

Lemma Qabs_opp_eq (x : Q) : Qabs (- x) = Qabs x.
Proof. destruct x as [n d]. simpl. now rewrite Z.abs_opp. Qed.

Lemma expo_opp (x : Q) : expo (- x) = expo x.
Proof. unfold expo. now rewrite Qabs_opp_eq. Qed.

Lemma expo_ge (x : Q) : (-1074 <= expo x)%Z.
Proof. unfold expo. lia. Qed.

Lemma expo_pos_upper (x : Q) : 0 < x -> x < pow2 (expo x + 53).
Proof.
  intros Hx. unfold expo. rewrite (Qabs_pos_eq x Hx).
  destruct (Qlog2_spec x Hx) as [_ U].
  eapply Qlt_le_trans; [exact U|]. apply pow2_le. lia.
Qed.

Lemma expo_pos_lower (x : Q) :
  0 < x -> (-1074 < expo x)%Z -> pow2 (expo x + 52) <= x.
Proof.
  intros Hx. unfold expo. rewrite (Qabs_pos_eq x Hx). intros He.
  destruct (Qlog2_spec x Hx) as [L _].
  eapply Qle_trans; [|exact L]. apply pow2_le. lia.
Qed.

Lemma expo_pos_mono (x y : Q) : 0 < x -> x <= y -> (expo x <= expo y)%Z.
Proof.
  intros Hx Hxy.
  assert (Hy : 0 < y) by (eapply Qlt_le_trans; eassumption).
  unfold expo. rewrite (Qabs_pos_eq x Hx), (Qabs_pos_eq y Hy).
  pose proof (Qlog2_mono x y Hx Hxy). lia.
Qed.

Lemma rne_pos_upper (x : Q) : 0 < x -> rne x <= pow2 (expo x + 53).
Proof.
  intros Hx. rewrite rne_nonzero.
  2:{ intros E. rewrite E in Hx. discriminate. }
  set (e := expo x).
  assert (Hs : x * pow2 (- e) <= inject_Z (2 ^ 53)).
  { rewrite pow2_inject by lia.
    apply Qle_trans with (pow2 (e + 53) * pow2 (- e)).
    - apply Qmult_le_compat_r; [|apply Qlt_le_weak, pow2_pos].
      apply Qlt_le_weak, expo_pos_upper, Hx.
    - rewrite <- pow2_add. apply pow2_le. lia. }
  apply Qrhe_mono in Hs. rewrite Qrhe_inject_Z in Hs.
  apply Qle_trans with (inject_Z (2 ^ 53) * pow2 e).
  - apply Qmult_le_compat_r; [|apply Qlt_le_weak, pow2_pos].
    rewrite <- Zle_Qle. exact Hs.
  - rewrite pow2_inject by lia. rewrite <- pow2_add. apply pow2_le. lia.
Qed.

Lemma rne_pos_lower (x : Q) (k : Z) :
  0 < x -> (0 <= k)%Z -> pow2 (expo x + k) <= x -> pow2 (expo x + k) <= rne x.
Proof.
  intros Hx Hk Hl. rewrite rne_nonzero.
  2:{ intros E. rewrite E in Hx. discriminate. }
  set (e := expo x) in *.
  assert (Hs : inject_Z (2 ^ k) <= x * pow2 (- e)).
  { rewrite pow2_inject by lia.
    apply Qle_trans with (pow2 (e + k) * pow2 (- e)).
    - rewrite <- pow2_add. apply pow2_le. lia.
    - apply Qmult_le_compat_r; [exact Hl|apply Qlt_le_weak, pow2_pos]. }
  apply Qrhe_mono in Hs. rewrite Qrhe_inject_Z in Hs.
  apply Qle_trans with (inject_Z (2 ^ k) * pow2 e).
  - rewrite pow2_inject by lia. rewrite <- pow2_add. apply pow2_le. lia.
  - apply Qmult_le_compat_r; [|apply Qlt_le_weak, pow2_pos].
    rewrite <- Zle_Qle. exact Hs.
Qed.

Lemma rne_pos_mono (x y : Q) : 0 < x -> x <= y -> rne x <= rne y.
Proof.
  intros Hx Hxy.
  assert (Hy : 0 < y) by (eapply Qlt_le_trans; eassumption).
  pose proof (expo_pos_mono x y Hx Hxy) as He.
  destruct (Z.eq_dec (expo x) (expo y)) as [E|E].
  - rewrite (rne_nonzero x), (rne_nonzero y).
    2:{ intros E0. rewrite E0 in Hy. discriminate. }
    2:{ intros E0. rewrite E0 in Hx. discriminate. }
    rewrite E. apply Qmult_le_compat_r; [|apply Qlt_le_weak, pow2_pos].
    rewrite <- Zle_Qle. apply Qrhe_mono.
    apply Qmult_le_compat_r; [exact Hxy|apply Qlt_le_weak, pow2_pos].
  - apply Qle_trans with (pow2 (expo x + 53)); [apply rne_pos_upper, Hx|].
    apply Qle_trans with (pow2 (expo y + 52)); [apply pow2_le; lia|].
    apply rne_pos_lower; [exact Hy|lia|].
    apply expo_pos_lower; [exact Hy|]. pose proof (expo_ge x). lia.
Qed.

Lemma rne_opp (x : Q) : rne (- x) == - rne x.
Proof.
  destruct (Qeq_dec x 0) as [E|E].
  - rewrite (rne_zero x E). rewrite rne_zero; [reflexivity|]. rewrite E. reflexivity.
  - rewrite (rne_nonzero x E). rewrite rne_nonzero.
    2:{ intros H. apply E. rewrite <- (Qopp_involutive x), H. reflexivity. }
    rewrite expo_opp.
    rewrite (Qrhe_morph (- x * pow2 (- expo x)) (- (x * pow2 (- expo x)))) by ring.
    rewrite Qrhe_opp, inject_Z_opp. ring.
Qed.

Lemma rne_nonneg (x : Q) : 0 <= x -> 0 <= rne x.
Proof.
  intros Hx. destruct (Qeq_dec x 0) as [E|E].
  - rewrite (rne_zero x E). apply Qle_refl.
  - rewrite (rne_nonzero x E).
    apply Qmult_le_0_compat; [|apply Qlt_le_weak, pow2_pos].
    replace 0 with (inject_Z 0) by reflexivity. rewrite <- Zle_Qle.
    rewrite <- (Qrhe_inject_Z 0). apply Qrhe_mono.
    apply Qmult_le_0_compat; [exact Hx|apply Qlt_le_weak, pow2_pos].
Qed.

Theorem rne_mono (x y : Q) : x <= y -> rne x <= rne y.
Proof.
  intros Hxy.
  destruct (Qlt_le_dec 0 x) as [Hx|Hx].
  - now apply rne_pos_mono.
  - destruct (Qlt_le_dec y 0) as [Hy|Hy].
    + assert (H : rne (- y) <= rne (- x)).
      { apply rne_pos_mono.
        - apply (Qopp_lt_compat y 0) in Hy. exact Hy.
        - now apply Qopp_le_compat. }
      rewrite !rne_opp in H. apply Qopp_le_compat in H.
      rewrite !Qopp_involutive in H. exact H.
    + apply Qle_trans with 0; [|now apply rne_nonneg].
      assert (H : 0 <= rne (- x)).
      { apply rne_nonneg. apply (Qopp_le_compat x 0) in Hx. exact Hx. }
      rewrite rne_opp in H. apply Qopp_le_compat in H.
      rewrite Qopp_involutive in H. exact H.
Qed.

(** ** Agreement with the Standard Library's IEEE-754 operations

    On the literals of the calculator, on the operations of a score and
    of a cost, and at the edges of the format (rounding of a large
    integer, subnormal quotients, ties, overflow) the operations of this
    model return what [SpecFloat] returns. *)

Example literals_agree :
  of_spec_float (sf_dec 1 10) = flit (1 # 10)
  /\ of_spec_float (sf_dec 2 10) = flit (2 # 10)
  /\ of_spec_float (sf_dec 3 10) = flit (3 # 10)
  /\ of_spec_float (sf_dec 4 10) = flit (4 # 10)
  /\ of_spec_float (sf_dec 8 10) = flit (8 # 10)
  /\ of_spec_float (sf_dec 135 100) = flit (135 # 100)
  /\ of_spec_float (sf_dec 951 10) = flit (951 # 10).
Proof. repeat split; vm_compute; reflexivity. Qed.

Example cost_product_agrees :
  of_spec_float (sf_mul (sf_of_Z 5000) (sf_dec 135 100))
  = fmul (Fin 5000) (flit (135 # 100)).
Proof. vm_compute. reflexivity. Qed.

Example age_scores_agree :
  let ratio (a : Z) := sf_div (sf_of_Z a) (sf_of_Z 10) in
  Ok (of_spec_float (sf_sub (sf_of_Z 100) (sf_mul (ratio 3%Z) (sf_of_Z 20))))
  = calculate_age_score 3 10
  /\ Ok (of_spec_float
           (sf_sub (sf_of_Z 90)
              (sf_mul (sf_div (sf_sub (ratio 7%Z) (sf_dec 5 10)) (sf_dec 3 10))
                      (sf_of_Z 30))))
     = calculate_age_score 7 10
  /\ Ok (of_spec_float
           (sf_sub (sf_of_Z 60)
              (sf_mul (sf_div (sf_sub (ratio 9%Z) (sf_dec 8 10)) (sf_dec 2 10))
                      (sf_of_Z 40))))
     = calculate_age_score 9 10
  /\ Ok (of_spec_float
           (sf_sub (sf_of_Z 20)
              (sf_mul (sf_div (sf_of_Z (11 - 10)) (sf_mul (sf_of_Z 10) (sf_dec 2 10)))
                      (sf_of_Z 20))))
     = calculate_age_score 11 10.
Proof. repeat split; vm_compute; reflexivity. Qed.

Example weighted_sum_agrees :
  of_spec_float
    (sf_add (sf_add (sf_add (sf_mul (sf_of_Z 97) (sf_dec 3 10))
                            (sf_mul (sf_of_Z 100) (sf_dec 4 10)))
                    (sf_mul (sf_of_Z 90) (sf_dec 2 10)))
            (sf_mul (sf_of_Z 80) (sf_dec 1 10)))
  = weighted_sum (Fin 97) (Fin 100) (Fin 90) (Fin 80).
Proof. vm_compute. reflexivity. Qed.

Example large_int_agrees :
  Ok (of_spec_float (sf_of_Z (2 ^ 80 + 12345678901234567)))
  = float_of_int (2 ^ 80 + 12345678901234567).
Proof. vm_compute. reflexivity. Qed.

Example subnormal_quotients_agree :
  let tiny := sf_div (sf_of_Z 1) (sf_of_Z (2 ^ 1000)) in
  of_spec_float (sf_div tiny (sf_of_Z (2 ^ 70 * 3)))
  = fin (1 / inject_Z (2 ^ 1070 * 3))
  /\ of_spec_float (sf_div tiny (sf_of_Z (2 ^ 74))) = fin (1 / inject_Z (2 ^ 1074))
  /\ of_spec_float (sf_div tiny (sf_of_Z (2 ^ 75))) = fin (1 / inject_Z (2 ^ 1075))
  /\ of_spec_float (sf_div (sf_mul (sf_of_Z 3) tiny) (sf_of_Z (2 ^ 75)))
     = fin (3 / inject_Z (2 ^ 1075)).
Proof. repeat split; vm_compute; reflexivity. Qed.

Example overflow_agrees :
  of_spec_float (sf_mul (sf_of_Z (2 ^ 1000)) (sf_of_Z (2 ^ 24)))
  = fmul (Fin (inject_Z (2 ^ 1000))) (Fin (inject_Z (2 ^ 24)))
  /\ of_spec_float (sf_mul (sf_of_Z (2 ^ 1000)) (sf_of_Z (2 ^ 24 - 1)))
     = fmul (Fin (inject_Z (2 ^ 1000))) (Fin (inject_Z (2 ^ 24 - 1)))
  /\ of_spec_float (sf_add (sf_mul (sf_of_Z (2 ^ 971)) (sf_of_Z (2 ^ 53 - 1)))
                           (sf_of_Z (2 ^ 970)))
     = fadd (Fin (inject_Z (2 ^ 971 * (2 ^ 53 - 1)))) (Fin (inject_Z (2 ^ 970))).
Proof. repeat split; vm_compute; reflexivity. Qed.

(** ** Floats: representable values, order and monotone operations *)

Lemma rne_canonical (x : Q) : Qred (rne x) = rne x.
Proof.
  unfold rne. destruct (Qnum x =? 0)%Z; [reflexivity|].
  cbv zeta. apply Qred_complete, Qred_correct.
Qed.

Lemma rne_morph (x y : Q) : x == y -> rne x = rne y.
Proof.
  intros H. rewrite <- (rne_canonical x), <- (rne_canonical y).
  apply Qred_complete. apply Qle_antisym; apply rne_mono; rewrite H; apply Qle_refl.
Qed.

Lemma Qrhe_abs_bound (q : Q) (n : Z) :
  Qabs q <= inject_Z n -> (Z.abs (Qrhe q) <= n)%Z.
Proof.
  intros H. apply Qabs_Qle_condition in H. destruct H as [L U].
  apply Qrhe_mono in L, U.
  rewrite <- inject_Z_opp in L. rewrite Qrhe_inject_Z in L, U. lia.
Qed.

(** A value [m * 2^e] with at most 53 significant bits and [e] not
    below the smallest exponent is a binary64 value. *)
Lemma rne_representable (m e : Z) :
  (Z.abs m <= 2 ^ 53)%Z -> (-1074 <= e)%Z ->
  rne (inject_Z m * pow2 e) == inject_Z m * pow2 e.
Proof.
  assert (Hpos : forall m e, (0 < m <= 2 ^ 53)%Z -> (-1074 <= e)%Z ->
            rne (inject_Z m * pow2 e) == inject_Z m * pow2 e).
  { clear. intros m e Hm He.
    set (x := inject_Z m * pow2 e).
    assert (Hx : 0 < x).
    { unfold x. apply Qmult_lt_0_compat; [|apply pow2_pos].
      replace 0 with (inject_Z 0) by reflexivity. rewrite <- Zlt_Qlt. lia. }
    assert (Hex : (expo x <= e)%Z \/ (m = 2 ^ 53)%Z).
    { destruct (Z.eq_dec m (2 ^ 53)) as [E|E]; [now right|left].
      unfold expo. rewrite (Qabs_pos_eq x Hx).
      assert (Hu : x < pow2 (e + 53)).
      { unfold x. rewrite pow2_add, (Qmult_comm (pow2 e)).
        apply Qmult_lt_compat_r; [apply pow2_pos|].
        rewrite <- pow2_inject by lia. rewrite <- Zlt_Qlt. lia. }
      destruct (Qlog2_spec x Hx) as [L _].
      assert (Hl : (Qlog2 x < e + 53)%Z).
      { destruct (Z_lt_ge_dec (Qlog2 x) (e + 53)) as [|Hge]; [assumption|exfalso].
        assert (pow2 (e + 53) <= pow2 (Qlog2 x)) by (apply pow2_le; lia).
        apply (Qlt_irrefl x). eapply Qlt_le_trans; [exact Hu|].
        eapply Qle_trans; eassumption. }
      lia. }
    destruct Hex as [Hex|E].
    - rewrite rne_nonzero.
      2:{ intros E0. rewrite E0 in Hx. discriminate. }
      fold x.
      assert (Hs : x * pow2 (- expo x) == inject_Z (m * 2 ^ (e - expo x))).
      { rewrite inject_Z_mult, pow2_inject by lia.
        replace (e - expo x)%Z with (e + - expo x)%Z by lia.
        rewrite pow2_add. unfold x at 1. ring. }
      rewrite (Qrhe_morph _ _ Hs), Qrhe_inject_Z.
      rewrite inject_Z_mult, pow2_inject by lia.
      rewrite <- Qmult_assoc, <- pow2_add.
      replace (e - expo x + expo x)%Z with e by lia. reflexivity.
    - (* a power of two *)
      assert (Hxp : x == pow2 (e + 53)).
      { unfold x. rewrite E, pow2_inject by lia. rewrite <- pow2_add.
        replace (53 + e)%Z with (e + 53)%Z by lia. reflexivity. }
      assert (Hl : Qlog2 x = (e + 53)%Z).
      { apply Qlog2_unique. rewrite Hxp. split; [apply Qle_refl|apply pow2_lt; lia]. }
      assert (Hexp : expo x = (e + 1)%Z).
      { unfold expo. rewrite (Qabs_pos_eq x Hx), Hl. lia. }
      rewrite rne_nonzero.
      2:{ intros E0. rewrite E0 in Hx. discriminate. }
      fold x. rewrite Hexp.
      assert (Hs : x * pow2 (- (e + 1)) == inject_Z (2 ^ 52)).
      { rewrite Hxp, <- pow2_add, pow2_inject by lia.
        replace (e + 53 + - (e + 1))%Z with 52%Z by lia. reflexivity. }
      rewrite (Qrhe_morph _ _ Hs), Qrhe_inject_Z, Hxp.
      rewrite pow2_inject by lia. rewrite <- pow2_add.
      replace (52 + (e + 1))%Z with (e + 53)%Z by lia. reflexivity. }
  intros Hm He.
  destruct (Z.lt_trichotomy m 0) as [Hn|[Hz|Hp]].
  - assert (H := Hpos (- m)%Z e ltac:(lia) He).
    rewrite inject_Z_opp in H.
    assert (E : - inject_Z m * pow2 e == - (inject_Z m * pow2 e)) by ring.
    rewrite (rne_morph _ _ E), rne_opp in H. rewrite E in H.
    apply Qopp_comp in H. rewrite !Qopp_involutive in H. exact H.
  - subst m. rewrite (rne_zero (inject_Z 0 * pow2 e)) by ring. ring.
  - apply Hpos; [lia|exact He].
Qed.

Lemma rne_pow2 (k : Z) : (-1074 <= k)%Z -> rne (pow2 k) == pow2 k.
Proof.
  intros Hk. assert (H := rne_representable 1 k ltac:(cbv; discriminate) Hk).
  assert (E : inject_Z 1 * pow2 k == pow2 k) by ring.
  rewrite (rne_morph _ _ E) in H. rewrite H. exact E.
Qed.

(** The mantissa and exponent of a rounded value. *)
Lemma rne_decompose (x : Q) :
  exists m e, (Z.abs m <= 2 ^ 53)%Z /\ (-1074 <= e)%Z /\ rne x == inject_Z m * pow2 e.
Proof.
  destruct (Qeq_dec x 0) as [E|E].
  - exists 0%Z, 0%Z. rewrite (rne_zero x E).
    split; [|split]; [cbv; discriminate|lia|reflexivity].
  - exists (Qrhe (x * pow2 (- expo x))), (expo x).
    split; [|split; [apply expo_ge|now apply rne_nonzero]].
    apply Qrhe_abs_bound. rewrite Qabs_Qmult.
    rewrite (Qabs_pos (pow2 _)) by (apply Qlt_le_weak, pow2_pos).
    assert (Ha : 0 < Qabs x).
    { apply Qnot_le_lt. intros H. apply E.
      pose proof (Qabs_nonneg x) as H0.
      assert (E0 : Qabs x == 0) by (apply Qle_antisym; assumption).
      assert (B : Qabs x <= 0) by (rewrite E0; apply Qle_refl).
      apply Qabs_Qle_condition in B. destruct B as [B1 B2].
      apply Qle_antisym; assumption. }
    assert (Hu : Qabs x < pow2 (expo x + 53)).
    { pose proof (expo_pos_upper (Qabs x) Ha) as H.
      unfold expo in H at 1. rewrite (Qabs_pos_eq (Qabs x) Ha) in H. exact H. }
    rewrite pow2_inject by lia.
    apply Qle_trans with (pow2 (expo x + 53) * pow2 (- expo x)).
    + apply Qmult_le_compat_r; [apply Qlt_le_weak, Hu|apply Qlt_le_weak, pow2_pos].
    + rewrite <- pow2_add. apply pow2_le. lia.
Qed.

Lemma rne_idem (x : Q) : rne (rne x) = rne x.
Proof.
  destruct (rne_decompose x) as (m & e & Hm & He & E).
  rewrite <- (rne_canonical x) at 2.
  rewrite <- (rne_canonical (rne x)). apply Qred_complete.
  rewrite (rne_morph _ _ E). rewrite E. now apply rne_representable.
Qed.

Lemma Qlt_bool_iff (x y : Q) : Qlt_bool x y = true <-> x < y.
Proof.
  unfold Qlt_bool. rewrite negb_true_iff. split; intros H.
  - apply Qnot_le_lt. intros Hle. apply Qle_bool_iff in Hle. congruence.
  - destruct (Qle_bool y x) eqn:E; [|reflexivity].
    apply Qle_bool_iff in E. exfalso. apply (Qlt_irrefl x).
    eapply Qlt_le_trans; eassumption.
Qed.

Lemma Qlt_bool_false (x y : Q) : Qlt_bool x y = false <-> y <= x.
Proof.
  unfold Qlt_bool. rewrite negb_false_iff. apply Qle_bool_iff.
Qed.

Lemma Qle_bool_false (x y : Q) : Qle_bool x y = false <-> y < x.
Proof.
  rewrite <- Qlt_bool_iff. unfold Qlt_bool. now rewrite negb_true_iff.
Qed.

Lemma rne_0 : rne 0 = 0.
Proof. reflexivity. Qed.

Lemma rne_nonpos (x : Q) : x <= 0 -> rne x <= 0.
Proof. intros H. apply rne_mono in H. exact H. Qed.

(** The three outcomes of rounding with overflow. *)
Lemma fin_cases (q : Q) :
  (fin q = Fin (rne q) /\ - pow2 1024 < rne q < pow2 1024)
  \/ (fin q = Inf false /\ pow2 1024 <= rne q /\ 0 < q)
  \/ (fin q = Inf true /\ rne q <= - pow2 1024 /\ q < 0).
Proof.
  unfold fin. cbn [fhuge fround binary64].
  destruct (Qle_bool (pow2 1024) (Qabs (rne q))) eqn:E.
  - apply Qle_bool_iff in E.
    destruct (Qlt_bool q 0) eqn:S.
    + right; right. apply Qlt_bool_iff in S. split; [reflexivity|]. split; [|exact S].
      assert (Hn : rne q <= 0) by (apply rne_nonpos, Qlt_le_weak, S).
      rewrite (Qabs_neg _ Hn) in E. apply Qopp_le_compat in E.
      rewrite Qopp_involutive in E. exact E.
    + right; left. apply Qlt_bool_false in S. split; [reflexivity|].
      assert (Hn : 0 <= rne q) by (apply rne_nonneg, S).
      rewrite (Qabs_pos _ Hn) in E. split; [exact E|].
      apply Qnot_le_lt. intros Hq.
      assert (E0 : q == 0) by (apply Qle_antisym; assumption).
      rewrite (rne_zero q E0) in E. vm_compute in E. apply E. reflexivity.
  - left. apply Qle_bool_false in E. split; [reflexivity|].
    apply Qabs_Qlt_condition in E. exact E.
Qed.

Lemma fle_refl_fin (q : Q) : fle (Fin q) (Fin q) = true.
Proof. simpl. apply Qle_bool_iff, Qle_refl. Qed.

Lemma fle_fin (a b : Q) : fle (Fin a) (Fin b) = true <-> a <= b.
Proof. simpl. apply Qle_bool_iff. Qed.

Lemma fle_trans (x y z : float) :
  fle x y = true -> fle y z = true -> fle x z = true.
Proof.
  destruct x as [a|[|]|], y as [b|[|]|], z as [c|[|]|]; simpl;
    try reflexivity; try discriminate.
  rewrite !Qle_bool_iff. apply Qle_trans.
Qed.

Lemma fin_mono (p q : Q) : p <= q -> fle (fin p) (fin q) = true.
Proof.
  intros H. pose proof (rne_mono p q H) as Hr.
  assert (B : - pow2 1024 < pow2 1024) by reflexivity.
  destruct (fin_cases p) as [(-> & L1 & U1)|[(-> & L1 & S1)|(-> & L1 & S1)]];
    destruct (fin_cases q) as [(-> & L2 & U2)|[(-> & L2 & S2)|(-> & L2 & S2)]];
    simpl; try reflexivity.
  - now apply Qle_bool_iff.
  - exfalso. apply (Qlt_irrefl (rne p)).
    eapply Qle_lt_trans; [exact Hr|]. eapply Qle_lt_trans; eassumption.
  - exfalso. apply (Qlt_irrefl (rne q)).
    eapply Qlt_le_trans; [exact U2|]. eapply Qle_trans; eassumption.
  - exfalso. apply (Qlt_irrefl q).
    eapply Qlt_le_trans; [exact S2|]. eapply Qle_trans; [|exact H].
    apply Qlt_le_weak, S1.
Qed.

Lemma fin_not_nan (q : Q) : fin q <> NaN.
Proof.
  destruct (fin_cases q) as [(-> & _)|[(-> & _)|(-> & _)]]; discriminate.
Qed.

(** Every float compares with itself unless it is NaN. *)
Lemma fle_refl (x : float) : x <> NaN -> fle x x = true.
Proof.
  destruct x as [a|[|]|]; simpl; intros H; try reflexivity.
  - apply Qle_bool_iff, Qle_refl.
  - now elim H.
Qed.

Lemma Qpos_flags (c : Q) : 0 < c -> Qeq_bool c 0 = false /\ Qlt_bool c 0 = false.
Proof.
  intros H. split.
  - destruct (Qeq_bool c 0) eqn:E; [|reflexivity].
    apply Qeq_bool_iff in E. rewrite E in H. discriminate.
  - apply Qlt_bool_false, Qlt_le_weak, H.
Qed.

Lemma fmul_mono (x y : float) (c : Q) :
  0 < c -> fle x y = true -> fle (fmul x (Fin c)) (fmul y (Fin c)) = true.
Proof.
  intros Hc H. destruct (Qpos_flags c Hc) as [E0 E1].
  destruct x as [a|[|]|], y as [b|[|]|]; simpl in *;
    rewrite ?E0, ?E1; simpl; try reflexivity; try discriminate.
  - apply fin_mono. apply Qle_bool_iff in H.
    apply Qmult_le_compat_r; [exact H|apply Qlt_le_weak, Hc].
  - destruct (fin_cases (a * c)) as [(-> & _)|[(-> & _)|(-> & _)]]; reflexivity.
  - destruct (fin_cases (b * c)) as [(-> & _)|[(-> & _)|(-> & _)]]; reflexivity.
Qed.

Lemma fdiv_mono (x y : float) (c : Q) :
  0 < c -> fle x y = true ->
  exists u v, fdiv x (Fin c) = Ok u /\ fdiv y (Fin c) = Ok v /\ fle u v = true.
Proof.
  intros Hc H. destruct (Qpos_flags c Hc) as [E0 E1].
  unfold fdiv. rewrite E0, E1.
  destruct x as [a|[|]|], y as [b|[|]|]; simpl in *; try discriminate;
    eexists; eexists; (split; [reflexivity|split; [reflexivity|]]);
    simpl; try reflexivity.
  - apply fin_mono. apply Qle_bool_iff in H.
    apply Qmult_le_compat_r; [exact H|]. apply Qlt_le_weak, Qinv_lt_0_compat, Hc.
  - destruct (fin_cases (a / c)) as [(-> & _)|[(-> & _)|(-> & _)]]; reflexivity.
  - destruct (fin_cases (b / c)) as [(-> & _)|[(-> & _)|(-> & _)]]; reflexivity.
Qed.

(** [k - x] is antitone in [x]. *)
Lemma fsub_antitone (k : Q) (x y : float) :
  fle x y = true -> fle (fsub (Fin k) y) (fsub (Fin k) x) = true.
Proof.
  intros H.
  destruct x as [a|[|]|], y as [b|[|]|]; simpl in *; try discriminate;
    try reflexivity.
  - apply fin_mono. apply Qle_bool_iff in H.
    apply Qplus_le_r, Qopp_le_compat, H.
  - destruct (fin_cases (k + - a)) as [(-> & _)|[(-> & _)|(-> & _)]]; reflexivity.
  - destruct (fin_cases (k + - b)) as [(-> & _)|[(-> & _)|(-> & _)]]; reflexivity.
Qed.

(** [x - k] is monotone in [x]. *)
Lemma fsub_mono (k : Q) (x y : float) :
  fle x y = true -> fle (fsub x (Fin k)) (fsub y (Fin k)) = true.
Proof.
  intros H.
  destruct x as [a|[|]|], y as [b|[|]|]; simpl in *; try discriminate;
    try reflexivity.
  - apply fin_mono. apply Qle_bool_iff in H. apply Qplus_le_l, H.
  - destruct (fin_cases (a + - k)) as [(-> & _)|[(-> & _)|(-> & _)]]; reflexivity.
  - destruct (fin_cases (b + - k)) as [(-> & _)|[(-> & _)|(-> & _)]]; reflexivity.
Qed.

Lemma fadd_mono (a a' b b' : Q) :
  a <= a' -> b <= b' ->
  fle (fadd (Fin a) (Fin b)) (fadd (Fin a') (Fin b')) = true.
Proof.
  intros H1 H2. simpl. apply fin_mono. now apply Qplus_le_compat.
Qed.

Lemma py_max_mono (x y : float) :
  fle x y = true -> fle (py_max (Fin 0) x) (py_max (Fin 0) y) = true.
Proof.
  intros H. unfold py_max.
  destruct x as [a|[|]|], y as [b|[|]|]; simpl in *; try discriminate;
    try reflexivity.
  - apply Qle_bool_iff in H.
    destruct (Qlt_bool 0 a) eqn:Ea, (Qlt_bool 0 b) eqn:Eb; simpl;
      apply Qle_bool_iff.
    + exact H.
    + apply Qlt_bool_iff in Ea. apply Qlt_bool_false in Eb.
      exfalso. apply (Qlt_irrefl 0). eapply Qlt_le_trans; [exact Ea|].
      eapply Qle_trans; eassumption.
    + apply Qlt_bool_iff in Eb. apply Qlt_le_weak, Eb.
    + apply Qle_refl.
  - destruct (Qlt_bool 0 a); reflexivity.
  - destruct (Qlt_bool 0 b) eqn:Eb; simpl; [|reflexivity].
    apply Qlt_bool_iff in Eb. apply Qle_bool_iff, Qlt_le_weak, Eb.
Qed.

Lemma py_max_nonneg (y : float) : fle (Fin 0) (py_max (Fin 0) y) = true.
Proof.
  unfold py_max. destruct (flt (Fin 0) y) eqn:E; [|reflexivity].
  destruct y as [b|[|]|]; simpl in *; try discriminate; try reflexivity.
  apply Qlt_bool_iff in E. apply Qle_bool_iff, Qlt_le_weak, E.
Qed.

Lemma py_round1_mono (x y : float) :
  fle x y = true -> fle (py_round1 x) (py_round1 y) = true.
Proof.
  intros H.
  destruct x as [a|[|]|], y as [b|[|]|]; simpl in *; try discriminate;
    try reflexivity.
  - apply fin_mono. apply Qle_bool_iff in H.
    apply Qmult_le_compat_r; [|discriminate].
    rewrite <- Zle_Qle. apply Qrhe_mono.
    apply Qmult_le_compat_r; [exact H|discriminate].
  - destruct (fin_cases (inject_Z (Qrhe (a * 10)) / 10))
      as [(-> & _)|[(-> & _)|(-> & _)]]; reflexivity.
  - destruct (fin_cases (inject_Z (Qrhe (b * 10)) / 10))
      as [(-> & _)|[(-> & _)|(-> & _)]]; reflexivity.
Qed.

(** A float between two finite values is finite. *)
Lemma fle_between (lo hi : Q) (x : float) :
  fle (Fin lo) x = true -> fle x (Fin hi) = true ->
  exists q, x = Fin q /\ lo <= q <= hi.
Proof.
  destruct x as [q|[|]|]; simpl; try discriminate.
  rewrite !Qle_bool_iff. intros L U. now exists q.
Qed.

Lemma pow2_53_cancel : pow2 53 * pow2 (-53) == 1.
Proof. reflexivity. Qed.

(** A value that rounds to at least 1 is not more than half an ulp
    below 1. *)
Lemma rne_ge_one (x : Q) : 1 <= rne x -> 1 - pow2 (-54) <= x.
Proof.
  intros H. apply Qnot_lt_le. intros Hx.
  destruct (Qlt_le_dec x (1 # 2)) as [Hs|Hs].
  - apply Qlt_le_weak in Hs. apply rne_mono in Hs.
    apply (Qlt_irrefl 1). eapply Qle_lt_trans; [exact H|].
    eapply Qle_lt_trans; [exact Hs|]. reflexivity.
  - assert (Hpos : 0 < x) by (eapply Qlt_le_trans; [|exact Hs]; reflexivity).
    assert (Hl : Qlog2 x = (-1)%Z).
    { apply Qlog2_unique. split; [exact Hs|].
      eapply Qlt_trans; [exact Hx|]. reflexivity. }
    assert (He : expo x = (-53)%Z).
    { unfold expo. rewrite (Qabs_pos_eq x Hpos), Hl. reflexivity. }
    assert (Hnz : ~ x == 0).
    { intros E. rewrite E in Hpos. discriminate. }
    rewrite (rne_nonzero x Hnz), He in H.
    destruct (Qrhe_error (x * pow2 (- -53))) as [L _].
    set (m := Qrhe (x * pow2 (- -53))) in *.
    assert (Hm : inject_Z m < inject_Z (2 ^ 53)).
    { apply Qle_lt_trans with (x * pow2 (- -53) + (1 # 2)).
      - apply (Qplus_le_l _ _ (- (1 # 2))). ring_simplify.
        ring_simplify in L. exact L.
      - apply Qlt_le_trans with ((1 - pow2 (-54)) * pow2 (- -53) + (1 # 2)).
        + apply Qplus_lt_l. apply Qmult_lt_compat_r; [reflexivity|exact Hx].
        + vm_compute. discriminate. }
    rewrite <- Zlt_Qlt in Hm.
    assert (Hm' : inject_Z m <= inject_Z (2 ^ 53 - 1)) by (rewrite <- Zle_Qle; lia).
    apply (Qlt_irrefl 1). eapply Qle_lt_trans; [exact H|].
    apply Qle_lt_trans with (inject_Z (2 ^ 53 - 1) * pow2 (-53)).
    + apply Qmult_le_compat_r; [exact Hm'|discriminate].
    + reflexivity.
Qed.

(** Binary64 values from 1/2 upward lie on the grid of step 2^-53. *)
Lemma rne_grid (x : Q) :
  (1 # 2) <= rne x -> exists j, rne x == inject_Z j * pow2 (-53).
Proof.
  intros H. destruct (rne_decompose x) as (m & e & Hm & He & E).
  destruct (Z_le_gt_dec (-53) e) as [Hge|Hlt].
  - exists (m * 2 ^ (e + 53))%Z. rewrite E, inject_Z_mult, pow2_inject by lia.
    rewrite <- Qmult_assoc, <- pow2_add.
    replace (e + 53 + -53)%Z with e by lia. reflexivity.
  - exists (2 ^ 52)%Z. rewrite E in H |- *.
    assert (U : inject_Z m * pow2 e <= 1 # 2).
    { apply Qle_trans with (inject_Z (2 ^ 53) * pow2 e).
      - apply Qmult_le_compat_r; [|apply Qlt_le_weak, pow2_pos].
        rewrite <- Zle_Qle. lia.
      - rewrite pow2_inject by lia. rewrite <- pow2_add.
        apply Qle_trans with (pow2 (-1)); [apply pow2_le; lia|].
        apply Qle_refl. }
    assert (E2 : inject_Z m * pow2 e == 1 # 2) by (apply Qle_antisym; assumption).
    rewrite E2. reflexivity.
Qed.

Lemma rne_next (x : Q) (j : Z) :
  (1 # 2) <= inject_Z j * pow2 (-53) ->
  inject_Z j * pow2 (-53) < rne x ->
  inject_Z (j + 1) * pow2 (-53) <= rne x.
Proof.
  intros Hc H.
  assert (Hh : (1 # 2) <= rne x).
  { eapply Qle_trans; [exact Hc|]. apply Qlt_le_weak, H. }
  destruct (rne_grid x Hh) as [i Hi]. rewrite Hi in H |- *.
  apply Qmult_le_compat_r; [|discriminate].
  rewrite <- Zle_Qle.
  assert (Hlt : inject_Z j < inject_Z i).
  { apply (Qmult_lt_r _ _ (pow2 (-53))); [reflexivity|exact H]. }
  rewrite <- Zlt_Qlt in Hlt. lia.
Qed.

Lemma rne_prev (x : Q) (j : Z) :
  (1 # 2) <= inject_Z (j - 1) * pow2 (-53) ->
  rne x < inject_Z j * pow2 (-53) ->
  rne x <= inject_Z (j - 1) * pow2 (-53).
Proof.
  intros Hc H.
  destruct (Qlt_le_dec (rne x) (1 # 2)) as [Hs|Hs].
  - eapply Qle_trans; [apply Qlt_le_weak, Hs|exact Hc].
  - destruct (rne_grid x Hs) as [i Hi]. rewrite Hi in H |- *.
    apply Qmult_le_compat_r; [|discriminate].
    rewrite <- Zle_Qle.
    assert (Hlt : inject_Z i < inject_Z j).
    { apply (Qmult_lt_r _ _ (pow2 (-53))); [reflexivity|exact H]. }
    rewrite <- Zlt_Qlt in Hlt. lia.
Qed.

Lemma flit_0 : flit 0 = Fin 0. Proof. reflexivity. Qed.
Lemma flit_1 : flit 1 = Fin 1. Proof. vm_compute. reflexivity. Qed.
Lemma flit_20 : flit 20 = Fin 20. Proof. vm_compute. reflexivity. Qed.
Lemma flit_30 : flit 30 = Fin 30. Proof. vm_compute. reflexivity. Qed.
Lemma flit_40 : flit 40 = Fin 40. Proof. vm_compute. reflexivity. Qed.
Lemma flit_60 : flit 60 = Fin 60. Proof. vm_compute. reflexivity. Qed.
Lemma flit_90 : flit 90 = Fin 90. Proof. vm_compute. reflexivity. Qed.
Lemma flit_100 : flit 100 = Fin 100. Proof. vm_compute. reflexivity. Qed.
Lemma flit_half : flit (5 # 10) = Fin (1 # 2). Proof. vm_compute. reflexivity. Qed.
Lemma flit_c01 : flit (1 # 10) = Fin c01. Proof. vm_compute. reflexivity. Qed.
Lemma flit_c02 : flit (2 # 10) = Fin c02. Proof. vm_compute. reflexivity. Qed.
Lemma flit_c03 : flit (3 # 10) = Fin c03. Proof. vm_compute. reflexivity. Qed.
Lemma flit_c08 : flit (8 # 10) = Fin c08. Proof. vm_compute. reflexivity. Qed.

Lemma c02_pos : 0 < c02. Proof. vm_compute. reflexivity. Qed.
Lemma c03_pos : 0 < c03. Proof. vm_compute. reflexivity. Qed.

Lemma early_antitone (x y : float) :
  fle x y = true -> fle (early_segment y) (early_segment x) = true.
Proof.
  intros H. unfold early_segment. rewrite flit_100, flit_20.
  apply fsub_antitone, fmul_mono; [reflexivity|exact H].
Qed.

Lemma middle_antitone (x y : float) :
  fle x y = true ->
  exists u v, middle_segment x = Ok u /\ middle_segment y = Ok v /\ fle v u = true.
Proof.
  intros H. unfold middle_segment. rewrite flit_half, flit_c03, flit_90, flit_30.
  destruct (fdiv_mono _ _ c03 c03_pos (fsub_mono (1 # 2) x y H))
    as (u & v & -> & -> & Huv).
  exists (fsub (Fin 90) (fmul u (Fin 30))), (fsub (Fin 90) (fmul v (Fin 30))).
  repeat split. apply fsub_antitone, fmul_mono; [reflexivity|exact Huv].
Qed.

Lemma late_antitone (x y : float) :
  fle x y = true ->
  exists u v, late_segment x = Ok u /\ late_segment y = Ok v /\ fle v u = true.
Proof.
  intros H. unfold late_segment. rewrite flit_c08, flit_c02, flit_60, flit_40.
  destruct (fdiv_mono _ _ c02 c02_pos (fsub_mono c08 x y H))
    as (u & v & -> & -> & Huv).
  exists (fsub (Fin 60) (fmul u (Fin 40))), (fsub (Fin 60) (fmul v (Fin 40))).
  repeat split. apply fsub_antitone, fmul_mono; [reflexivity|exact Huv].
Qed.

Lemma overdue_antitone (x y : float) (d : Q) :
  0 < d -> fle x y = true ->
  exists u v, overdue_segment x (Fin d) = Ok u /\ overdue_segment y (Fin d) = Ok v
              /\ fle v u = true.
Proof.
  intros Hd H. unfold overdue_segment. rewrite flit_0, flit_20.
  destruct (fdiv_mono _ _ d Hd H) as (u & v & -> & -> & Huv).
  eexists; eexists. split; [reflexivity|]. split; [reflexivity|].
  apply py_max_mono, fsub_antitone, fmul_mono; [reflexivity|exact Huv].
Qed.

(** Values at the breakpoints. *)

Lemma early_at_0 : early_segment (Fin 0) = Fin 100.
Proof. vm_compute. reflexivity. Qed.
Lemma early_at_half : early_segment (Fin (1 # 2)) = Fin 90.
Proof. vm_compute. reflexivity. Qed.
Lemma middle_at_half : middle_segment (Fin (1 # 2)) = Ok (Fin 90).
Proof. vm_compute. reflexivity. Qed.

Lemma middle_at_c08 : middle_segment (Fin c08) = Ok (Fin seg_A).
Proof. vm_compute. reflexivity. Qed.
Lemma late_at_c08 : late_segment (Fin c08) = Ok (Fin 60).
Proof. vm_compute. reflexivity. Qed.
Lemma late_after_c08 : late_segment (Fin (c08 + pow2 (-53))) = Ok (Fin seg_B).
Proof. vm_compute. reflexivity. Qed.
Lemma late_before_1 : late_segment (Fin (1 - pow2 (-53))) = Ok (Fin seg_C).
Proof. vm_compute. reflexivity. Qed.
Lemma overdue_at_floor (d : Q) :
  py_max (Fin 0) (fsub (Fin 20) (fmul (fin (- pow2 (-50))) (Fin 20))) = Fin seg_T.
Proof. vm_compute. reflexivity. Qed.

Lemma fhuge_false (q : Q) : fhuge q = false <-> - pow2 1024 < rne q < pow2 1024.
Proof.
  cbn [fhuge binary64]. rewrite Qle_bool_false. apply Qabs_Qlt_condition.
Qed.

Lemma float_of_int_ok (n : Z) (x : float) :
  float_of_int n = Ok x -> x = Fin (rne (inject_Z n)) /\ fhuge (inject_Z n) = false.
Proof.
  unfold float_of_int. destruct (fhuge (inject_Z n)); [discriminate|].
  intros [= <-]. split; reflexivity.
Qed.

Lemma int_truediv_ok (a b : Z) (x : float) :
  int_truediv a b = Ok x ->
  x = Fin (rne (inject_Z a / inject_Z b)) /\ fhuge (inject_Z a / inject_Z b) = false.
Proof.
  unfold int_truediv. destruct (b =? 0)%Z; [discriminate|].
  destruct (fhuge (inject_Z a / inject_Z b)); [discriminate|].
  intros [= <-]. split; reflexivity.
Qed.

Lemma inject_Z_pos (n : Z) : (0 < n)%Z -> 0 < inject_Z n.
Proof. intros H. replace 0 with (inject_Z 0) by reflexivity. now rewrite <- Zlt_Qlt. Qed.

Lemma inject_Z_nonneg (n : Z) : (0 <= n)%Z -> 0 <= inject_Z n.
Proof. intros H. replace 0 with (inject_Z 0) by reflexivity. now rewrite <- Zle_Qle. Qed.

Lemma ratio_nonneg (a L : Z) : (0 <= a)%Z -> (0 < L)%Z -> 0 <= inject_Z a / inject_Z L.
Proof.
  intros Ha HL. apply Qmult_le_0_compat; [now apply inject_Z_nonneg|].
  apply Qinv_le_0_compat, Qlt_le_weak, inject_Z_pos, HL.
Qed.

Lemma ratio_mono (a1 a2 L : Z) :
  (a1 <= a2)%Z -> (0 < L)%Z -> inject_Z a1 / inject_Z L <= inject_Z a2 / inject_Z L.
Proof.
  intros Ha HL. apply Qmult_le_compat_r; [now rewrite <- Zle_Qle|].
  apply Qinv_le_0_compat, Qlt_le_weak, inject_Z_pos, HL.
Qed.

(** The divisor [expected_life * 0.2] and the overdue ratio when the
    rounded ratio is at least 1. *)
Lemma overdue_ratio_lower (a L : Z) :
  (0 < L)%Z -> fhuge (inject_Z L) = false ->
  1 <= rne (inject_Z a / inject_Z L) ->
  let d := rne (rne (inject_Z L) * c02) in
  0 < d /\ d < pow2 1024
  /\ - pow2 1024 < rne (inject_Z (a - L))
  /\ - pow2 (-50) <= rne (inject_Z (a - L)) / d.
Proof.
  intros HL Hh Hr d.
  destruct (log2_bounds_Q L HL) as [Lk Uk].
  pose proof (Z.log2_nonneg L) as Hk0.
  set (k := Z.log2 L) in *.
  apply fhuge_false in Hh. destruct Hh as [_ Hl].
  assert (Hlk : pow2 k <= rne (inject_Z L)).
  { rewrite <- (rne_pow2 k) by lia. apply rne_mono, Lk. }
  assert (Hk : (k < 1024)%Z).
  { destruct (Z_lt_ge_dec k 1024) as [|Hge]; [assumption|exfalso].
    assert (pow2 1024 <= pow2 k) by (apply pow2_le; lia).
    apply (Qlt_irrefl (pow2 1024)). eapply Qle_lt_trans; [eassumption|].
    eapply Qle_lt_trans; eassumption. }
  assert (Hd : pow2 (k - 3) <= d).
  { unfold d. rewrite <- (rne_pow2 (k - 3)) by lia. apply rne_mono.
    replace (k - 3)%Z with (k + -3)%Z by lia. rewrite pow2_add.
    apply Qle_trans with (rne (inject_Z L) * pow2 (-3)).
    - apply Qmult_le_compat_r; [exact Hlk|discriminate].
    - apply Qmult_le_l; [|vm_compute; discriminate].
      eapply Qlt_le_trans; [apply (pow2_pos k)|exact Hlk]. }
  assert (Hdpos : 0 < d).
  { eapply Qlt_le_trans; [apply (pow2_pos (k - 3))|exact Hd]. }
  assert (Hdu : d <= pow2 1022).
  { unfold d. rewrite <- (rne_pow2 1022) by lia. apply rne_mono.
    apply Qle_trans with (pow2 1024 * c02).
    - apply Qmult_le_compat_r; [apply Qlt_le_weak, Hl|vm_compute; discriminate].
    - vm_compute. discriminate. }
  assert (Hn : - pow2 (k - 53) <= rne (inject_Z (a - L))).
  { assert (E : - pow2 (k - 53) == rne (- pow2 (k - 53))).
    { rewrite rne_opp, rne_pow2 by lia. reflexivity. }
    rewrite E. apply rne_mono.
    apply rne_ge_one in Hr.
    assert (Ha : (1 - pow2 (-54)) * inject_Z L <= inject_Z a).
    { apply (Qmult_le_compat_r _ _ (inject_Z L)) in Hr;
        [|apply Qlt_le_weak, inject_Z_pos, HL].
      eapply Qle_trans; [exact Hr|].
      unfold Qdiv. rewrite <- Qmult_assoc, (Qmult_comm (/ _)), Qmult_inv_r.
      - rewrite Qmult_1_r. apply Qle_refl.
      - intros E0. pose proof (inject_Z_pos L HL) as P. rewrite E0 in P. discriminate. }
    assert (Es : inject_Z (a - L) == inject_Z a - inject_Z L).
    { unfold Z.sub. rewrite inject_Z_plus, inject_Z_opp. reflexivity. }
    rewrite Es.
    apply Qle_trans with (- (pow2 (-54) * inject_Z L)).
    - apply Qopp_le_compat.
      replace (k - 53)%Z with ((-54) + (k + 1))%Z by lia. rewrite pow2_add.
      apply Qmult_le_l; [reflexivity|apply Qlt_le_weak, Uk].
    - assert (Ha' : (1 - pow2 (-54)) * inject_Z L
                    == inject_Z L - pow2 (-54) * inject_Z L) by ring.
      rewrite Ha' in Ha. set (t := pow2 (-54) * inject_Z L) in *. lra. }
  split; [exact Hdpos|]. split.
  { eapply Qle_lt_trans; [exact Hdu|]. reflexivity. }
  split.
  { eapply Qlt_le_trans; [|exact Hn]. apply Qopp_lt_compat, pow2_lt. lia. }
  apply Qle_shift_div_l; [exact Hdpos|].
  eapply Qle_trans; [|exact Hn].
  assert (E : pow2 (k - 53) == pow2 (-50) * pow2 (k - 3)).
  { replace (k - 53)%Z with ((-50) + (k - 3))%Z by lia. now rewrite pow2_add. }
  rewrite E.
  assert (G : pow2 (-50) * pow2 (k - 3) <= pow2 (-50) * d).
  { apply Qmult_le_l; [reflexivity|exact Hd]. }
  assert (E2 : - pow2 (-50) * d == - (pow2 (-50) * d)) by ring.
  rewrite E2. now apply Qopp_le_compat.
Qed.

Lemma c08_grid : c08 == inject_Z 7205759403792794 * pow2 (-53).
Proof. vm_compute. reflexivity. Qed.

Lemma fle_const_chain (a b : Q) (x y : float) :
  fle x (Fin a) = true -> a <= b -> fle (Fin b) y = true -> fle x y = true.
Proof.
  intros H1 H2 H3. apply fle_trans with (Fin a); [exact H1|].
  apply fle_trans with (Fin b); [|exact H3]. now apply fle_fin.
Qed.

(** The range of the score on each segment of the curve. *)
Lemma segment_bounds (x : Q) (tail : result float) (s : float) :
  0 <= rne x ->
  (1 <= rne x -> tail = Ok s ->
   fle (Fin 0) s = true /\ fle s (Fin seg_T) = true) ->
  segment_score (Fin (rne x)) tail = Ok s ->
  (rne x <= 1 # 2 /\ fle (Fin 90) s = true /\ fle s (Fin 100) = true)
  \/ ((1 # 2) < rne x <= c08 /\ fle (Fin seg_A) s = true /\ fle s (Fin 90) = true)
  \/ (c08 < rne x < 1 /\ fle (Fin seg_C) s = true /\ fle s (Fin seg_B) = true)
  \/ (1 <= rne x /\ fle (Fin 0) s = true /\ fle s (Fin seg_T) = true).
Proof.
  intros H0 Htail. unfold segment_score. rewrite flit_half, flit_c08, flit_1.
  set (r := rne x) in *.
  change (fle (Fin r) (Fin (1 # 2))) with (Qle_bool r (1 # 2)).
  change (fle (Fin r) (Fin c08)) with (Qle_bool r c08).
  change (flt (Fin r) (Fin 1)) with (Qlt_bool r 1).
  destruct (Qle_bool r (1 # 2)) eqn:E1.
  { apply Qle_bool_iff in E1. intros [= <-]. left. split; [exact E1|]. split.
    - rewrite <- early_at_half. apply early_antitone. now apply fle_fin.
    - rewrite <- early_at_0. apply early_antitone. now apply fle_fin. }
  apply Qle_bool_false in E1.
  destruct (Qle_bool r c08) eqn:E2.
  { apply Qle_bool_iff in E2. intros Hs. right; left. split; [now split|]. split.
    - destruct (middle_antitone (Fin r) (Fin c08)) as (u & v & Hu & Hv & Huv).
      { now apply fle_fin. }
      rewrite Hs in Hu. injection Hu as <-.
      rewrite middle_at_c08 in Hv. injection Hv as <-. exact Huv.
    - destruct (middle_antitone (Fin (1 # 2)) (Fin r)) as (u & v & Hu & Hv & Huv).
      { apply fle_fin, Qlt_le_weak, E1. }
      rewrite Hs in Hv. injection Hv as <-.
      rewrite middle_at_half in Hu. injection Hu as <-. exact Huv. }
  apply Qle_bool_false in E2.
  destruct (Qlt_bool r 1) eqn:E3.
  { apply Qlt_bool_iff in E3. intros Hs. right; right; left.
    split; [now split|]. split.
    - assert (Hp : r <= 1 - pow2 (-53)).
      { eapply Qle_trans.
        - apply (rne_prev x (2 ^ 53)); [vm_compute; discriminate|].
          eapply Qlt_le_trans; [exact E3|vm_compute; discriminate].
        - vm_compute. discriminate. }
      destruct (late_antitone (Fin r) (Fin (1 - pow2 (-53)))) as (u & v & Hu & Hv & Huv).
      { now apply fle_fin. }
      rewrite Hs in Hu. injection Hu as <-.
      rewrite late_before_1 in Hv. injection Hv as <-. exact Huv.
    - assert (Hn : c08 + pow2 (-53) <= r).
      { assert (G := rne_next x 7205759403792794).
        rewrite <- c08_grid in G.
        eapply Qle_trans; [|apply G; [vm_compute; discriminate|exact E2]].
        vm_compute. discriminate. }
      destruct (late_antitone (Fin (c08 + pow2 (-53))) (Fin r)) as (u & v & Hu & Hv & Huv).
      { now apply fle_fin. }
      rewrite Hs in Hv. injection Hv as <-.
      rewrite late_after_c08 in Hu. injection Hu as <-. exact Huv. }
  apply Qlt_bool_false in E3. intros Hs. right; right; right.
  split; [exact E3|]. now apply Htail.
Qed.

Lemma fin_finite (q : Q) : - pow2 1024 < rne q < pow2 1024 -> fin q = Fin (rne q).
Proof.
  intros H. apply fhuge_false in H. unfold fin. rewrite H. reflexivity.
Qed.

Lemma overdue_divisor (a L : Z) :
  (0 < L)%Z -> fhuge (inject_Z L) = false ->
  1 <= rne (inject_Z a / inject_Z L) ->
  exists d, fmul (Fin (rne (inject_Z L))) (flit (2 # 10)) = Fin d /\ 0 < d
            /\ - pow2 1024 < rne (inject_Z (a - L))
            /\ - pow2 (-50) <= rne (inject_Z (a - L)) / d.
Proof.
  intros HL Hh Hr.
  destruct (overdue_ratio_lower a L HL Hh Hr) as (Hd & Hdu & Hn & Ho).
  exists (rne (rne (inject_Z L) * c02)). rewrite flit_c02.
  split; [|now repeat split].
  apply fin_finite. split; [|exact Hdu].
  eapply Qlt_trans; [|exact Hd]. reflexivity.
Qed.

Lemma overdue_segment_eq (nq d : Q) :
  0 < d ->
  overdue_segment (Fin nq) (Fin d) =
  Ok (py_max (Fin 0) (fsub (Fin 20) (fmul (fin (nq / d)) (Fin 20)))).
Proof.
  intros Hd. unfold overdue_segment, fdiv.
  destruct (Qpos_flags d Hd) as [-> _]. rewrite flit_0, flit_20. reflexivity.
Qed.

Lemma overdue_tail_bounds (a L : Z) (s : float) :
  (0 < L)%Z -> 1 <= rne (inject_Z a / inject_Z L) ->
  overdue_tail a L = Ok s ->
  fle (Fin 0) s = true /\ fle s (Fin seg_T) = true.
Proof.
  intros HL Hr. unfold overdue_tail. intros H.
  apply bind_ok in H. destruct H as (l2 & Hl2 & H).
  apply bind_ok in H. destruct H as (n & Hn & H).
  apply float_of_int_ok in Hl2. destruct Hl2 as [-> Hh].
  apply float_of_int_ok in Hn. destruct Hn as [-> _].
  destruct (overdue_divisor a L HL Hh Hr) as (d & Ed & Hd & _ & Ho).
  rewrite Ed, (overdue_segment_eq _ d Hd) in H. injection H as <-.
  split; [apply py_max_nonneg|].
  rewrite <- (overdue_at_floor d).
  apply py_max_mono, fsub_antitone, fmul_mono; [reflexivity|].
  apply fin_mono, Ho.
Qed.

Lemma overdue_tail_antitone (a1 a2 L : Z) (s2 : float) :
  (0 < L)%Z -> (a1 <= a2)%Z -> 1 <= rne (inject_Z a1 / inject_Z L) ->
  overdue_tail a2 L = Ok s2 ->
  exists s1, overdue_tail a1 L = Ok s1 /\ fle s2 s1 = true.
Proof.
  intros HL Ha Hr. unfold overdue_tail. intros H.
  apply bind_ok in H. destruct H as (l2 & Hl2 & H).
  apply bind_ok in H. destruct H as (n & Hn & H).
  rewrite Hl2. cbn [bind].
  apply float_of_int_ok in Hl2. destruct Hl2 as [-> Hh].
  apply float_of_int_ok in Hn. destruct Hn as [-> Hn2].
  destruct (overdue_divisor a1 L HL Hh Hr) as (d & Ed & Hd & Hn1 & _).
  rewrite Ed in *.
  assert (Hm : rne (inject_Z (a1 - L)) <= rne (inject_Z (a2 - L))).
  { apply rne_mono. rewrite <- Zle_Qle. lia. }
  assert (Hf : float_of_int (a1 - L) = Ok (Fin (rne (inject_Z (a1 - L))))).
  { unfold float_of_int.
    assert (Hx : fhuge (inject_Z (a1 - L)) = false).
    { apply fhuge_false. apply fhuge_false in Hn2. destruct Hn2 as [_ U].
      split; [exact Hn1|]. eapply Qle_lt_trans; eassumption. }
    rewrite Hx. reflexivity. }
  rewrite Hf. cbn [bind].
  destruct (overdue_antitone (Fin (rne (inject_Z (a1 - L))))
              (Fin (rne (inject_Z (a2 - L)))) d Hd) as (u & v & Hu & Hv & Huv).
  { now apply fle_fin. }
  rewrite H in Hv. injection Hv as <-. exists u. now split.
Qed.

Lemma segment_antitone (x1 x2 : Q) (t1 t2 : result float) (s2 : float) :
  0 <= rne x1 -> rne x1 <= rne x2 ->
  (1 <= rne x2 -> t2 = Ok s2 ->
   fle (Fin 0) s2 = true /\ fle s2 (Fin seg_T) = true) ->
  (1 <= rne x1 -> t2 = Ok s2 -> exists s1, t1 = Ok s1 /\ fle s2 s1 = true) ->
  segment_score (Fin (rne x2)) t2 = Ok s2 ->
  exists s1, segment_score (Fin (rne x1)) t1 = Ok s1 /\ fle s2 s1 = true.
Proof.
  intros H0 H12 Hb Ht H2.
  assert (H02 : 0 <= rne x2) by (eapply Qle_trans; eassumption).
  pose proof (segment_bounds x2 t2 s2 H02 Hb H2) as B2.
  unfold segment_score in H2 |- *. rewrite flit_half, flit_c08, flit_1 in *.
  set (r1 := rne x1) in *. set (r2 := rne x2) in *.
  change (fle (Fin r1) (Fin (1 # 2))) with (Qle_bool r1 (1 # 2)).
  change (fle (Fin r1) (Fin c08)) with (Qle_bool r1 c08).
  change (flt (Fin r1) (Fin 1)) with (Qlt_bool r1 1).
  change (fle (Fin r2) (Fin (1 # 2))) with (Qle_bool r2 (1 # 2)) in H2.
  change (fle (Fin r2) (Fin c08)) with (Qle_bool r2 c08) in H2.
  change (flt (Fin r2) (Fin 1)) with (Qlt_bool r2 1) in H2.
  assert (F12 : fle (Fin r1) (Fin r2) = true) by now apply fle_fin.
  destruct (Qle_bool r1 (1 # 2)) eqn:E1.
  { (* the first age is on the early segment *)
    apply Qle_bool_iff in E1. eexists. split; [reflexivity|].
    assert (L1 : fle (Fin 90) (early_segment (Fin r1)) = true).
    { rewrite <- early_at_half. apply early_antitone. now apply fle_fin. }
    destruct B2 as [(C2 & _ & _)|[(_ & _ & U)|[(_ & _ & U)|(_ & _ & U)]]].
    - apply Qle_bool_iff in C2. rewrite C2 in H2. injection H2 as <-.
      now apply early_antitone.
    - apply (fle_const_chain 90 90 _ _ U); [apply Qle_refl|exact L1].
    - apply (fle_const_chain seg_B 90 _ _ U); [vm_compute; discriminate|exact L1].
    - apply (fle_const_chain seg_T 90 _ _ U); [vm_compute; discriminate|exact L1]. }
  apply Qle_bool_false in E1.
  assert (N1 : Qle_bool r2 (1 # 2) = false).
  { apply Qle_bool_false. eapply Qlt_le_trans; eassumption. }
  rewrite N1 in H2.
  destruct (Qle_bool r1 c08) eqn:E2.
  { (* the first age is on the middle segment *)
    apply Qle_bool_iff in E2.
    destruct (middle_antitone (Fin r1) (Fin c08)) as (s1 & v & Hs1 & Hv & L1).
    { now apply fle_fin. }
    rewrite middle_at_c08 in Hv. injection Hv as <-.
    exists s1. split; [exact Hs1|].
    destruct B2 as [(C2 & _)|[((_ & C2) & _ & _)|[(_ & _ & U)|(_ & _ & U)]]].
    - exfalso. apply (Qlt_irrefl r2). eapply Qle_lt_trans; [exact C2|].
      eapply Qlt_le_trans; eassumption.
    - apply Qle_bool_iff in C2. rewrite C2 in H2.
      destruct (middle_antitone (Fin r1) (Fin r2) F12) as (u & v & Hu & Hv & Huv).
      rewrite Hs1 in Hu. injection Hu as <-.
      rewrite H2 in Hv. injection Hv as <-. exact Huv.
    - apply (fle_const_chain seg_B seg_A _ _ U); [vm_compute; discriminate|exact L1].
    - apply (fle_const_chain seg_T seg_A _ _ U); [vm_compute; discriminate|exact L1]. }
  apply Qle_bool_false in E2.
  assert (N2 : Qle_bool r2 c08 = false).
  { apply Qle_bool_false. eapply Qlt_le_trans; eassumption. }
  rewrite N2 in H2.
  destruct (Qlt_bool r1 1) eqn:E3.
  { (* the first age is on the late segment *)
    apply Qlt_bool_iff in E3.
    assert (Hp : r1 <= 1 - pow2 (-53)).
    { eapply Qle_trans.
      - apply (rne_prev x1 (2 ^ 53)); [vm_compute; discriminate|].
        eapply Qlt_le_trans; [exact E3|vm_compute; discriminate].
      - vm_compute. discriminate. }
    destruct (late_antitone (Fin r1) (Fin (1 - pow2 (-53)))) as (s1 & v & Hs1 & Hv & L1).
    { now apply fle_fin. }
    rewrite late_before_1 in Hv. injection Hv as <-.
    exists s1. split; [exact Hs1|].
    destruct (Qlt_bool r2 1) eqn:E4.
    - destruct (late_antitone (Fin r1) (Fin r2) F12) as (u & v & Hu & Hv & Huv).
      rewrite Hs1 in Hu. injection Hu as <-.
      rewrite H2 in Hv. injection Hv as <-. exact Huv.
    - apply Qlt_bool_false in E4. destruct (Hb E4 H2) as [_ U].
      apply (fle_const_chain seg_T seg_C _ _ U); [vm_compute; discriminate|exact L1]. }
  apply Qlt_bool_false in E3.
  assert (N3 : Qlt_bool r2 1 = false).
  { apply Qlt_bool_false. eapply Qle_trans; eassumption. }
  rewrite N3 in H2. now apply Ht.
Qed.

Lemma age_score_tail (age expected_life : Z) :
  calculate_age_score age expected_life =
  let age := if (age <? 0)%Z then 0%Z else age in
  if (expected_life <=? 0)%Z then Ok (flit 0)
  else
    l1 <- float_of_int expected_life ;;
    if int_le_float age (fmul l1 (flit (1 # 10))) then Ok (flit 100)
    else
      ratio <- int_truediv age expected_life ;;
      segment_score ratio (overdue_tail age expected_life).
Proof. reflexivity. Qed.

Lemma segment_range (x : Q) (tail : result float) (s : float) :
  0 <= rne x ->
  (1 <= rne x -> tail = Ok s ->
   fle (Fin 0) s = true /\ fle s (Fin seg_T) = true) ->
  segment_score (Fin (rne x)) tail = Ok s ->
  fle (Fin 0) s = true /\ fle s (Fin 100) = true.
Proof.
  intros H0 Ht Hs.
  destruct (segment_bounds x tail s H0 Ht Hs)
    as [(_ & L & U)|[(_ & L & U)|[(_ & L & U)|(_ & L & U)]]].
  - split; [|exact U].
    apply fle_trans with (Fin 90); [reflexivity|exact L].
  - split.
    + apply fle_trans with (Fin seg_A); [reflexivity|exact L].
    + apply fle_trans with (Fin 90); [exact U|reflexivity].
  - split.
    + apply fle_trans with (Fin seg_C); [reflexivity|exact L].
    + apply fle_trans with (Fin seg_B); [exact U|reflexivity].
  - split; [exact L|].
    apply fle_trans with (Fin seg_T); [exact U|reflexivity].
Qed.


Lemma clamp_age_nonneg (age : Z) : (0 <= clamp_age age)%Z.
Proof. unfold clamp_age. destruct (Z.ltb_spec age 0); lia. Qed.

Lemma clamp_age_mono (a1 a2 : Z) : (a1 <= a2)%Z -> (clamp_age a1 <= clamp_age a2)%Z.
Proof.
  unfold clamp_age. destruct (Z.ltb_spec a1 0), (Z.ltb_spec a2 0); lia.
Qed.

(** The score, when one is returned, is a finite value in [0, 100]. *)
Lemma age_score_range (age expected_life : Z) (s : float) :
  calculate_age_score age expected_life = Ok s ->
  fle (Fin 0) s = true /\ fle s (Fin 100) = true.
Proof.
  rewrite age_score_tail. fold (clamp_age age). cbv zeta.
  pose proof (clamp_age_nonneg age) as Ha. set (a := clamp_age age) in *.
  destruct (Z.leb_spec expected_life 0) as [HL|HL].
  { intros [= <-]. split; reflexivity. }
  intros H. apply bind_ok in H. destruct H as (l1 & Hl1 & H).
  destruct (int_le_float a (fmul l1 (flit (1 # 10)))).
  { injection H as <-. split; reflexivity. }
  apply bind_ok in H. destruct H as (ratio & Hr & H).
  apply int_truediv_ok in Hr. destruct Hr as [-> _].
  apply (segment_range _ _ _ (rne_nonneg _ (ratio_nonneg a expected_life Ha HL))
           (fun Hr Ht => overdue_tail_bounds a expected_life s HL Hr Ht) H).
Qed.

(** The score does not increase with age. *)
Lemma age_score_antitone (a1 a2 expected_life : Z) (s2 : float) :
  (0 < expected_life)%Z -> (a1 <= a2)%Z ->
  calculate_age_score a2 expected_life = Ok s2 ->
  exists s1, calculate_age_score a1 expected_life = Ok s1 /\ fle s2 s1 = true.
Proof.
  intros HL H12 H2.
  pose proof (age_score_range a2 expected_life s2 H2) as [R0 R100].
  rewrite age_score_tail in H2 |- *.
  fold (clamp_age a1). fold (clamp_age a2) in H2. cbv zeta in *.
  pose proof (clamp_age_nonneg a1) as Hn1.
  pose proof (clamp_age_mono a1 a2 H12) as Hm.
  set (b1 := clamp_age a1) in *. set (b2 := clamp_age a2) in *.
  destruct (Z.leb_spec expected_life 0) as [HL'|_]; [lia|].
  apply bind_ok in H2. destruct H2 as (l1 & Hl1 & H2).
  rewrite Hl1. cbn [bind].
  set (P := fmul l1 (flit (1 # 10))) in *.
  destruct (int_le_float b1 P) eqn:E1.
  { exists (flit 100). split; [reflexivity|exact R100]. }
  assert (E2 : int_le_float b2 P = false).
  { destruct (int_le_float b2 P) eqn:E2; [|reflexivity].
    unfold int_le_float in E1, E2.
    rewrite (fle_trans (Fin (inject_Z b1)) (Fin (inject_Z b2)) P) in E1.
    - discriminate.
    - apply fle_fin. now rewrite <- Zle_Qle.
    - exact E2. }
  rewrite E2 in H2.
  apply bind_ok in H2. destruct H2 as (ratio & Hr & H2).
  apply int_truediv_ok in Hr. destruct Hr as [-> Hh2].
  pose proof (ratio_nonneg b1 expected_life Hn1 HL) as Hq1.
  pose proof (ratio_mono b1 b2 expected_life Hm HL) as Hq12.
  assert (Hr1 : int_truediv b1 expected_life =
                Ok (Fin (rne (inject_Z b1 / inject_Z expected_life)))).
  { unfold int_truediv. destruct (Z.eqb_spec expected_life 0) as [E0|_]; [lia|].
    assert (Hx : fhuge (inject_Z b1 / inject_Z expected_life) = false).
    { apply fhuge_false. apply fhuge_false in Hh2. destruct Hh2 as [_ U]. split.
      - eapply Qlt_le_trans; [|apply rne_nonneg, Hq1]. reflexivity.
      - eapply Qle_lt_trans; [apply rne_mono, Hq12|exact U]. }
    rewrite Hx. reflexivity. }
  rewrite Hr1. cbn [bind].
  apply (segment_antitone _ _ _ _ s2 (rne_nonneg _ Hq1) (rne_mono _ _ Hq12)
           (fun Hr Ht => overdue_tail_bounds b2 expected_life s2 HL Hr Ht)
           (fun Hr Ht => overdue_tail_antitone b1 b2 expected_life s2 HL Hm Hr Ht)
           H2).
Qed.

(** ** Intervals *)

Lemma between_fin (lo hi : Q) (x : float) :
  between lo hi x -> exists q, x = Fin q /\ lo <= q <= hi.
Proof. intros [L U]. now apply fle_between. Qed.

Lemma between_weaken (lo hi lo' hi' : Q) (x : float) :
  between lo hi x -> lo' <= lo -> hi <= hi' -> between lo' hi' x.
Proof.
  intros [L U] H1 H2. split.
  - apply fle_trans with (Fin lo); [now apply fle_fin|exact L].
  - apply fle_trans with (Fin hi); [exact U|now apply fle_fin].
Qed.

Lemma between_fmul (lo hi c lo' hi' : Q) (x : float) :
  between lo hi x -> 0 < c ->
  fmul (Fin lo) (Fin c) = Fin lo' -> fmul (Fin hi) (Fin c) = Fin hi' ->
  between lo' hi' (fmul x (Fin c)).
Proof.
  intros [L U] Hc El Eh. split.
  - rewrite <- El. now apply fmul_mono.
  - rewrite <- Eh. now apply fmul_mono.
Qed.

Lemma between_fadd (l1 h1 l2 h2 lo' hi' : Q) (x y : float) :
  between l1 h1 x -> between l2 h2 y ->
  fadd (Fin l1) (Fin l2) = Fin lo' -> fadd (Fin h1) (Fin h2) = Fin hi' ->
  between lo' hi' (fadd x y).
Proof.
  intros Hx Hy El Eh.
  destruct (between_fin _ _ _ Hx) as (a & -> & La & Ua).
  destruct (between_fin _ _ _ Hy) as (b & -> & Lb & Ub).
  split.
  - rewrite <- El. now apply fadd_mono.
  - rewrite <- Eh. now apply fadd_mono.
Qed.

Lemma between_round1 (lo hi lo' hi' : Q) (x : float) :
  between lo hi x ->
  py_round1 (Fin lo) = Fin lo' -> py_round1 (Fin hi) = Fin hi' ->
  between lo' hi' (py_round1 x).
Proof.
  intros [L U] El Eh. split.
  - rewrite <- El. now apply py_round1_mono.
  - rewrite <- Eh. now apply py_round1_mono.
Qed.

Ltac between_tac :=
  lazymatch goal with
  | |- between _ _ (py_round1 _) =>
      eapply between_round1;
      [between_tac|vm_compute; reflexivity|vm_compute; reflexivity]
  | |- between _ _ (fadd _ _) =>
      eapply between_fadd;
      [between_tac|between_tac|vm_compute; reflexivity|vm_compute; reflexivity]
  | |- between _ _ (fmul _ (Fin _)) =>
      eapply between_fmul;
      [between_tac|vm_compute; reflexivity
       |vm_compute; reflexivity|vm_compute; reflexivity]
  | |- between _ _ _ => eassumption
  end.

Lemma flit_c04 : flit (4 # 10) = Fin (rne (4 # 10)).
Proof. vm_compute. reflexivity. Qed.

(** ** When the age score is returned *)

Lemma float_of_int_small (n : Z) :
  (0 <= n < 2 ^ 1023)%Z -> float_of_int n = Ok (Fin (rne (inject_Z n))).
Proof.
  intros [Hn Hu]. unfold float_of_int.
  assert (Hx : fhuge (inject_Z n) = false).
  { apply fhuge_false. split.
    - eapply Qlt_le_trans; [|apply rne_nonneg, inject_Z_nonneg, Hn]. reflexivity.
    - apply Qle_lt_trans with (pow2 1023); [|reflexivity].
      rewrite <- (rne_pow2 1023) by lia. apply rne_mono.
      rewrite <- pow2_inject by lia. rewrite <- Zle_Qle. lia. }
  rewrite Hx. reflexivity.
Qed.

Lemma int_truediv_small (a L : Z) :
  (0 <= a < 2 ^ 1023)%Z -> (0 < L)%Z ->
  int_truediv a L = Ok (Fin (rne (inject_Z a / inject_Z L))).
Proof.
  intros [Ha Hu] HL. unfold int_truediv.
  destruct (Z.eqb_spec L 0) as [E|_]; [lia|].
  assert (Hx : fhuge (inject_Z a / inject_Z L) = false).
  { apply fhuge_false. split.
    - eapply Qlt_le_trans; [|apply rne_nonneg, ratio_nonneg; [exact Ha|exact HL]].
      reflexivity.
    - apply Qle_lt_trans with (pow2 1023); [|reflexivity].
      rewrite <- (rne_pow2 1023) by lia. apply rne_mono.
      apply Qle_shift_div_r; [now apply inject_Z_pos|].
      apply Qle_trans with (pow2 1023 * 1).
      + rewrite Qmult_1_r. rewrite <- pow2_inject by lia. rewrite <- Zle_Qle. lia.
      + apply Qmult_le_l; [reflexivity|].
        change 1 with (inject_Z 1). rewrite <- Zle_Qle. lia. }
  rewrite Hx. reflexivity.
Qed.

(** The score is returned whenever the age and the expected life are
    below 2^1023. *)
Lemma age_score_total (age expected_life : Z) :
  (age < 2 ^ 1023)%Z -> (expected_life < 2 ^ 1023)%Z ->
  exists s, calculate_age_score age expected_life = Ok s.
Proof.
  intros Ha HLu. rewrite age_score_tail. fold (clamp_age age). cbv zeta.
  pose proof (clamp_age_nonneg age) as Hn.
  assert (Hau : (clamp_age age < 2 ^ 1023)%Z).
  { unfold clamp_age. destruct (Z.ltb_spec age 0); lia. }
  set (a := clamp_age age) in *.
  destruct (Z.leb_spec expected_life 0) as [HL|HL]; [now eexists|].
  rewrite (float_of_int_small expected_life) by lia. cbn [bind].
  destruct (int_le_float a _); [now eexists|].
  rewrite (int_truediv_small a expected_life) by lia. cbn [bind].
  set (r := rne (inject_Z a / inject_Z expected_life)).
  unfold segment_score. rewrite flit_half, flit_c08, flit_1.
  destruct (fle (Fin r) (Fin (1 # 2))); [now eexists|].
  destruct (fle (Fin r) (Fin c08)).
  { destruct (middle_antitone (Fin r) (Fin r) (fle_refl_fin r)) as (u & _ & Hu & _).
    now exists u. }
  destruct (flt (Fin r) (Fin 1)) eqn:E.
  { destruct (late_antitone (Fin r) (Fin r) (fle_refl_fin r)) as (u & _ & Hu & _).
    now exists u. }
  change (flt (Fin r) (Fin 1)) with (Qlt_bool r 1) in E.
  apply Qlt_bool_false in E.
  unfold overdue_tail.
  assert (Hh : fhuge (inject_Z expected_life) = false).
  { pose proof (float_of_int_small expected_life ltac:(lia)) as F.
    unfold float_of_int in F. destruct (fhuge (inject_Z expected_life));
      [discriminate|reflexivity]. }
  rewrite (float_of_int_small expected_life) by lia. cbn [bind].
  destruct (overdue_divisor a expected_life HL Hh E) as (d & Ed & Hd & Hlow & _).
  assert (Hf : float_of_int (a - expected_life)
               = Ok (Fin (rne (inject_Z (a - expected_life))))).
  { unfold float_of_int.
    assert (Hx : fhuge (inject_Z (a - expected_life)) = false).
    { apply fhuge_false. split; [exact Hlow|].
      apply Qle_lt_trans with (pow2 1023); [|reflexivity].
      rewrite <- (rne_pow2 1023) by lia. apply rne_mono.
      rewrite <- pow2_inject by lia. rewrite <- Zle_Qle. lia. }
    rewrite Hx. reflexivity. }
  rewrite Hf. cbn [bind]. rewrite Ed, (overdue_segment_eq _ d Hd). now eexists.
Qed.

(** ** Monotonicity of the age score *)

(** C2. For a positive expected life the score never increases with
    age.  The score of the larger age is returned whenever the age and
    the expected life are below 2^1023; and whenever it is returned, so
    is the score of the smaller age, both are finite, and the latter is
    at least the former.  The ages may lie on the plateau, on different
    segments or on the same one. *)
Theorem age_score_monotone (expected_life a1 a2 : Z) :
  (0 < expected_life)%Z -> (0 <= a1)%Z -> (a1 < a2)%Z ->
  ((a2 < 2 ^ 1023)%Z -> (expected_life < 2 ^ 1023)%Z ->
   exists s2, calculate_age_score a2 expected_life = Ok s2)
  /\ forall s2 : float,
       calculate_age_score a2 expected_life = Ok s2 ->
       exists s1,
         calculate_age_score a1 expected_life = Ok s1
         /\ fle s2 s1 = true
         /\ exists q1 q2, s1 = Fin q1 /\ s2 = Fin q2 /\ q2 <= q1.
Proof.
  intros HL H1 H12. split; [apply age_score_total|]. intros s2 H2.
  destruct (age_score_antitone a1 a2 expected_life s2 HL ltac:(lia) H2)
    as (s1 & Hs1 & Hle).
  exists s1. split; [exact Hs1|]. split; [exact Hle|].
  destruct (age_score_range _ _ _ Hs1) as [L1 U1].
  destruct (age_score_range _ _ _ H2) as [L2 U2].
  destruct (fle_between _ _ _ L1 U1) as (q1 & -> & _).
  destruct (fle_between _ _ _ L2 U2) as (q2 & -> & _).
  exists q1, q2. repeat split. now apply fle_fin.
Qed.

Lemma age_score_monotone_witness :
  exists s1 s2,
    calculate_age_score 8 10 = Ok s1 /\ calculate_age_score 9 10 = Ok s2
    /\ fle s2 s1 = true.
Proof.
  destruct (age_score_monotone 10 8 9 ltac:(lia) ltac:(lia) ltac:(lia))
    as (Ht & Hm).
  destruct (Ht ltac:(lia) ltac:(lia)) as (s2 & Hs2).
  destruct (Hm s2 Hs2) as (s1 & Hs1 & Hle & _).
  exists s1, s2. repeat split; assumption.
Defined.

(** ** Category scores and the overall score *)

Lemma age_score_between (age expected_life : Z) (s : float) :
  calculate_age_score age expected_life = Ok s -> between 0 100 s.
Proof. apply age_score_range. Qed.

Lemma foundation_between (name : string) :
  exists f, float_of_int (dict_get_default name foundation_scores 75%Z) = Ok f
            /\ between 70 90 f.
Proof.
  unfold dict_get_default, foundation_scores, dict_get.
  repeat match goal with
         | |- context [String.eqb name ?k] => destruct (String.eqb name k)
         end;
    eexists; (split; [vm_compute; reflexivity|split; reflexivity]).
Qed.

Section Scores.
Variable strptime : string -> option Z.
Variable clk : clock.
Variable p : Property.

Lemma structural_between (st : category_score) :
  calculate_structural_score clk p = Ok st -> between 21 97 (score st).
Proof.
  unfold calculate_structural_score. intros H.
  apply bind_ok in H. destruct H as (b & Hb & H).
  apply bind_ok in H. destruct H as (r & Hr & H).
  apply bind_ok in H. destruct H as (f & Hf & H).
  injection H as <-. cbn [score].
  apply age_score_between in Hb, Hr.
  destruct (foundation_between (foundation_type p)) as (f' & Hf' & Bf).
  rewrite Hf in Hf'. injection Hf' as <-.
  rewrite flit_c04, flit_c03. between_tac.
Qed.

Lemma systems_between (sy : category_score) :
  calculate_systems_score p = Ok sy -> between 0 100 (score sy).
Proof.
  unfold calculate_systems_score. intros H.
  apply bind_ok in H. destruct H as (h & Hh & H).
  apply bind_ok in H. destruct H as (e & He & H).
  apply bind_ok in H. destruct H as (pl & Hp & H).
  injection H as <-. cbn [score].
  apply age_score_between in Hh, He, Hp.
  rewrite flit_c04, flit_c03. between_tac.
Qed.

Lemma safety_between :
  exists sa, calculate_safety_score strptime clk p = Ok sa
             /\ between 65 90 (score sa).
Proof.
  unfold calculate_safety_score, inspection_penalty.
  eexists. split; [reflexivity|]. cbn [score].
  destruct (50 <? current_year clk - year_built p)%Z;
    [|destruct (30 <? current_year clk - year_built p)%Z];
    destruct (30 <? electrical_age p)%Z;
    destruct (String.eqb (last_inspection p) "N/A");
    destruct (20 <? current_year clk - year_built p)%Z;
    cbn [andb negb];
    try destruct (strptime (last_inspection p)) as [d|];
    try destruct (5 * 365 <? today clk - d)%Z;
    split; vm_compute; reflexivity.
Qed.

Lemma environmental_value :
  exists en, calculate_environmental_score p = Ok en /\ score en = Fin 80.
Proof.
  eexists. split; [reflexivity|]. vm_compute. reflexivity.
Qed.

Lemma weighted_sum_between (a b c d : float) :
  between 21 97 a -> between 0 100 b -> between 65 90 c -> d = Fin 80 ->
  between (273 # 10) (rne (951 # 10)) (py_round1 (weighted_sum a b c d)).
Proof.
  intros Ha Hb Hc ->. unfold weighted_sum, weights.
  cbn [w_structural w_systems w_safety w_environmental].
  rewrite flit_c04, flit_c03, flit_c02, flit_c01.
  assert (Hd : between 80 80 (Fin 80)) by (split; reflexivity).
  eapply between_weaken; [between_tac|vm_compute; discriminate|vm_compute; discriminate].
Qed.

End Scores.

Lemma overall_parts (strptime : string -> option Z) (clk : clock) (p : Property)
      (r : overall_result) :
  calculate_overall_score strptime clk p = Ok r ->
  calculate_structural_score clk p = Ok (cat_structural r)
  /\ calculate_systems_score p = Ok (cat_systems r)
  /\ calculate_safety_score strptime clk p = Ok (cat_safety r)
  /\ calculate_environmental_score p = Ok (cat_environmental r)
  /\ overall_score r =
       py_round1 (weighted_sum (score (cat_structural r)) (score (cat_systems r))
                               (score (cat_safety r)) (score (cat_environmental r))).
Proof.
  unfold calculate_overall_score. intros H.
  apply bind_ok in H. destruct H as (st & Hst & H).
  apply bind_ok in H. destruct H as (sy & Hsy & H).
  apply bind_ok in H. destruct H as (sa & Hsa & H).
  apply bind_ok in H. destruct H as (en & Hen & H).
  injection H as <-. cbn [cat_structural cat_systems cat_safety cat_environmental overall_score].
  repeat split; assumption.
Qed.

Lemma overall_between (strptime : string -> option Z) (clk : clock) (p : Property)
      (r : overall_result) :
  calculate_overall_score strptime clk p = Ok r ->
  between 21 97 (score (cat_structural r))
  /\ between 0 100 (score (cat_systems r))
  /\ between 65 90 (score (cat_safety r))
  /\ score (cat_environmental r) = Fin 80
  /\ between (273 # 10) (rne (951 # 10)) (overall_score r).
Proof.
  intros H. destruct (overall_parts _ _ _ _ H) as (Hst & Hsy & Hsa & Hen & Ho).
  pose proof (structural_between clk p _ Hst) as Bst.
  pose proof (systems_between p _ Hsy) as Bsy.
  destruct (safety_between strptime clk p) as (sa & Hsa' & Bsa).
  rewrite Hsa in Hsa'. injection Hsa' as <-.
  destruct (environmental_value p) as (en & Hen' & Ben).
  rewrite Hen in Hen'. injection Hen' as <-.
  repeat split; try assumption; try apply Bst; try apply Bsy; try apply Bsa;
    rewrite Ho; now apply weighted_sum_between.
Qed.

Lemma roof_life_range (name : string) :
  (0 < dict_get_default name roof_material_expected_lifespans 20 <= 75)%Z.
Proof.
  unfold dict_get_default, roof_material_expected_lifespans, dict_get.
  repeat match goal with
         | |- context [String.eqb name ?k] => destruct (String.eqb name k)
         end; lia.
Qed.

(** The category scores and the overall score are returned whenever the
    ages they read are below 2^1023. *)
Lemma structural_total (clk : clock) (p : Property) :
  (current_year clk - year_built p < 2 ^ 1023)%Z -> (roof_age p < 2 ^ 1023)%Z ->
  exists st, calculate_structural_score clk p = Ok st.
Proof.
  intros Hb Hr. unfold calculate_structural_score.
  destruct (age_score_total (current_year clk - year_built p) 80 Hb ltac:(lia))
    as [b ->]. cbn [bind].
  pose proof (roof_life_range (roof_material p)) as HL.
  destruct (age_score_total (roof_age p)
              (dict_get_default (roof_material p) roof_material_expected_lifespans 20%Z)
              Hr ltac:(lia)) as [r ->]. cbn [bind].
  destruct (foundation_between (foundation_type p)) as (f & -> & _). cbn [bind].
  now eexists.
Qed.

Lemma systems_total (p : Property) :
  (hvac_age p < 2 ^ 1023)%Z -> (electrical_age p < 2 ^ 1023)%Z ->
  (plumbing_age p < 2 ^ 1023)%Z ->
  exists sy, calculate_systems_score p = Ok sy.
Proof.
  intros Hh He Hp. unfold calculate_systems_score.
  destruct (age_score_total (hvac_age p) 18 Hh ltac:(lia)) as [h ->].
  destruct (age_score_total (electrical_age p) 35 He ltac:(lia)) as [e ->].
  destruct (age_score_total (plumbing_age p) 50 Hp ltac:(lia)) as [pl ->].
  cbn [bind]. now eexists.
Qed.

Lemma overall_total (strptime : string -> option Z) (clk : clock) (p : Property) :
  (current_year clk - year_built p < 2 ^ 1023)%Z -> (roof_age p < 2 ^ 1023)%Z ->
  (hvac_age p < 2 ^ 1023)%Z -> (electrical_age p < 2 ^ 1023)%Z ->
  (plumbing_age p < 2 ^ 1023)%Z ->
  exists r, calculate_overall_score strptime clk p = Ok r.
Proof.
  intros Hb Hr Hh He Hp. unfold calculate_overall_score.
  destruct (structural_total clk p Hb Hr) as [st ->].
  destruct (systems_total p Hh He Hp) as [sy ->].
  destruct (safety_between strptime clk p) as (sa & -> & _).
  destruct (environmental_value p) as (en & -> & _).
  cbn [bind]. now eexists.
Qed.

Lemma Ok_inj {A : Type} (a b : A) : Ok a = Ok b -> a = b.
Proof. intros H. now injection H. Qed.

Ltac rounded_score :=
  cbv beta iota zeta delta [score];
  match goal with
  | |- exists raw, py_round1 ?x = py_round1 raw => now exists x
  end.

Lemma structural_rounded (clk : clock) (p : Property) (st : category_score) :
  calculate_structural_score clk p = Ok st -> exists raw, score st = py_round1 raw.
Proof.
  unfold calculate_structural_score. intros H.
  apply bind_ok in H. destruct H as (b & _ & H).
  apply bind_ok in H. destruct H as (rf & _ & H).
  apply bind_ok in H. destruct H as (f & _ & H).
  apply Ok_inj in H. subst st. rounded_score.
Qed.

Lemma systems_rounded (p : Property) (sy : category_score) :
  calculate_systems_score p = Ok sy -> exists raw, score sy = py_round1 raw.
Proof.
  unfold calculate_systems_score. intros H.
  apply bind_ok in H. destruct H as (h & _ & H).
  apply bind_ok in H. destruct H as (e & _ & H).
  apply bind_ok in H. destruct H as (pl & _ & H).
  apply Ok_inj in H. subst sy. rounded_score.
Qed.

Lemma safety_rounded (strptime : string -> option Z) (clk : clock) (p : Property)
      (sa : category_score) :
  calculate_safety_score strptime clk p = Ok sa -> exists raw, score sa = py_round1 raw.
Proof.
  unfold calculate_safety_score. intros H.
  apply Ok_inj in H. subst sa. rounded_score.
Qed.

Lemma environmental_rounded (p : Property) (en : category_score) :
  calculate_environmental_score p = Ok en -> exists raw, score en = py_round1 raw.
Proof.
  unfold calculate_environmental_score. intros H.
  apply Ok_inj in H. subst en. rounded_score.
Qed.

(** C3. The overall score is returned whenever the ages read are below
    2^1023.  Whenever it is returned, it is the weighted sum 0.3, 0.4,
    0.2, 0.1 of the four category scores, rounded to one decimal; each
    category score entering the sum is itself a value rounded to one
    decimal; and the overall score lies in [0, 100]. *)
Theorem overall_score_weighted_sum
        (strptime : string -> option Z) (clk : clock) (p : Property) :
  ((current_year clk - year_built p < 2 ^ 1023)%Z -> (roof_age p < 2 ^ 1023)%Z ->
   (hvac_age p < 2 ^ 1023)%Z -> (electrical_age p < 2 ^ 1023)%Z ->
   (plumbing_age p < 2 ^ 1023)%Z ->
   exists r, calculate_overall_score strptime clk p = Ok r)
  /\ forall r : overall_result,
       calculate_overall_score strptime clk p = Ok r ->
       calculate_structural_score clk p = Ok (cat_structural r)
       /\ calculate_systems_score p = Ok (cat_systems r)
       /\ calculate_safety_score strptime clk p = Ok (cat_safety r)
       /\ calculate_environmental_score p = Ok (cat_environmental r)
       /\ (exists raw, score (cat_structural r) = py_round1 raw)
       /\ (exists raw, score (cat_systems r) = py_round1 raw)
       /\ (exists raw, score (cat_safety r) = py_round1 raw)
       /\ (exists raw, score (cat_environmental r) = py_round1 raw)
       /\ overall_score r =
            py_round1
              (fadd (fadd (fadd (fmul (score (cat_structural r)) (flit (3 # 10)))
                                (fmul (score (cat_systems r)) (flit (4 # 10))))
                          (fmul (score (cat_safety r)) (flit (2 # 10))))
                    (fmul (score (cat_environmental r)) (flit (1 # 10))))
       /\ exists q, overall_score r = Fin q /\ 0 <= q <= 100.
Proof.
  split; [apply overall_total|]. intros r H.
  destruct (overall_parts _ _ _ _ H) as (Hst & Hsy & Hsa & Hen & Ho).
  destruct (overall_between _ _ _ _ H) as (_ & _ & _ & _ & Bo).
  repeat (split; [assumption|]).
  split; [exact (structural_rounded _ _ _ Hst)|].
  split; [exact (systems_rounded _ _ Hsy)|].
  split; [exact (safety_rounded _ _ _ _ Hsa)|].
  split; [exact (environmental_rounded _ _ Hen)|].
  split; [exact Ho|].
  destruct (between_fin _ _ _ Bo) as (q & Hq & L & U).
  exists q. split; [exact Hq|]. split.
  - eapply Qle_trans; [|exact L]. discriminate.
  - eapply Qle_trans; [exact U|]. vm_compute. discriminate.
Qed.

Lemma overall_score_weighted_sum_witness :
  exists r q,
    calculate_overall_score sample_strptime sample_clock new_build = Ok r
    /\ overall_score r = Fin q /\ 0 <= q <= 100.
Proof.
  destruct (overall_score_weighted_sum sample_strptime sample_clock new_build)
    as (Ht & Hp).
  destruct Ht as (r & Hr); try reflexivity.
  destruct (Hp r Hr) as (_ & _ & _ & _ & _ & _ & _ & _ & _ & q & Hq & Hb).
  exists r, q. auto.
Defined.

(** C10. No property reaches an overall score above 95.1.  The overall
    score is returned whenever the ages read are below 2^1023; and
    whenever it is returned, the environmental score is the constant 80,
    the safety score is at most 90, the foundation component is at most
    90 and the structural score at most 97, so the rounded weighted sum
    is at most the float 95.1, which is below 100. *)
Theorem overall_score_at_most_95_1
        (strptime : string -> option Z) (clk : clock) (p : Property) :
  ((current_year clk - year_built p < 2 ^ 1023)%Z -> (roof_age p < 2 ^ 1023)%Z ->
   (hvac_age p < 2 ^ 1023)%Z -> (electrical_age p < 2 ^ 1023)%Z ->
   (plumbing_age p < 2 ^ 1023)%Z ->
   exists r, calculate_overall_score strptime clk p = Ok r)
  /\ forall r : overall_result,
       calculate_overall_score strptime clk p = Ok r ->
       score (cat_environmental r) = Fin 80
       /\ fle (score (cat_safety r)) (Fin 90) = true
       /\ (dict_get_default (foundation_type p) foundation_scores 75 <= 90)%Z
       /\ fle (score (cat_structural r)) (Fin 97) = true
       /\ fle (score (cat_systems r)) (Fin 100) = true
       /\ fle (overall_score r) (flit (951 # 10)) = true
       /\ exists q, overall_score r = Fin q /\ q <= 951 # 10 /\ q < 100.
Proof.
  split; [apply overall_total|]. intros r H.
  destruct (overall_between _ _ _ _ H) as (Bst & Bsy & Bsa & Ben & Bo).
  split; [exact Ben|]. split; [apply Bsa|]. split.
  { unfold dict_get_default, foundation_scores, dict_get.
    repeat match goal with
           | |- context [String.eqb ?n ?k] => destruct (String.eqb n k)
           end; lia. }
  split; [apply Bst|]. split; [apply Bsy|].
  assert (E : flit (951 # 10) = Fin (rne (951 # 10))) by (vm_compute; reflexivity).
  split; [rewrite E; apply Bo|].
  destruct (between_fin _ _ _ Bo) as (q & Hq & L & U).
  exists q. split; [exact Hq|]. split.
  - eapply Qle_trans; [exact U|]. vm_compute. discriminate.
  - eapply Qle_lt_trans; [exact U|]. vm_compute. reflexivity.
Qed.

Lemma overall_score_at_most_95_1_witness :
  exists r q,
    calculate_overall_score sample_strptime sample_clock old_house = Ok r
    /\ overall_score r = Fin q /\ q <= 951 # 10.
Proof.
  destruct (overall_score_at_most_95_1 sample_strptime sample_clock old_house)
    as (Ht & Hp).
  destruct Ht as (r & Hr); try reflexivity.
  destruct (Hp r Hr) as (_ & _ & _ & _ & _ & _ & q & Hq & Hb & _).
  exists r, q. auto.
Defined.

(** ** The curve *)



(** ** The age score in binary64 and the curve

    Every operation of [calculate_age_score] rounds.  The error of each
    rounding is bounded by the magnitude of its result, the errors are
    added along each branch, and the tests of the code are compared with
    the tests of the curve: at the plateau they agree exactly for an
    expected life up to 2^50, at the other breakpoints the curve is
    continuous. *)



























Local Close Scope Q_scope.

(** ** Inputs outside the tables and the forms *)

Section Totality.
Variable strptime : string -> option Z.
Variable clk : clock.
Variable p : Property.

Lemma malformed_inspection_no_penalty (age : Z) (base_score : float) :
  last_inspection p <> "N/A"%string -> strptime (last_inspection p) = None ->
  inspection_penalty strptime clk age (last_inspection p) base_score = base_score.
Proof.
  intros Hna Hnone. unfold inspection_penalty.
  destruct (String.eqb_spec (last_inspection p) "N/A") as [E|_]; [contradiction|].
  cbn [andb negb]. now rewrite Hnone.
Qed.

(** C5 (amended). The safety score, the environmental score and the
    schedule are returned for every property.  The structural score,
    the systems score and the overall score are returned whenever the
    ages they read are below 2^1023, whatever their sign and whatever
    the strings.  A foundation type outside the table counts 75, a
    roof material outside the table is given a life of 20 years, and
    an inspection date that does not parse changes nothing in the
    safety score. *)
Theorem scoring_returns :
  (exists sa, calculate_safety_score strptime clk p = Ok sa)
  /\ (exists en, calculate_environmental_score p = Ok en)
  /\ (exists schedule, generate_maintenance_schedule clk p = Ok schedule)
  /\ (current_year clk - year_built p < 2 ^ 1023 ->
      roof_age p < 2 ^ 1023 ->
      exists st, calculate_structural_score clk p = Ok st)
  /\ (hvac_age p < 2 ^ 1023 -> electrical_age p < 2 ^ 1023 ->
      plumbing_age p < 2 ^ 1023 ->
      exists sy, calculate_systems_score p = Ok sy)
  /\ (current_year clk - year_built p < 2 ^ 1023 ->
      roof_age p < 2 ^ 1023 -> hvac_age p < 2 ^ 1023 ->
      electrical_age p < 2 ^ 1023 -> plumbing_age p < 2 ^ 1023 ->
      exists r, calculate_overall_score strptime clk p = Ok r)
  /\ (~ In (foundation_type p)
          ["Concrete Slab"; "Basement"; "Crawl Space"; "Pier & Beam"]%string ->
      dict_get_default (foundation_type p) foundation_scores 75 = 75)
  /\ (~ In (roof_material p)
          ["Asphalt Shingles"; "Metal"; "Tile"; "Slate"; "Wood"; "Composite";
           "Flat Roof (TPO/EPDM)"]%string ->
      dict_get_default (roof_material p) roof_material_expected_lifespans 20 = 20)
  /\ (last_inspection p <> "N/A"%string -> strptime (last_inspection p) = None ->
      calculate_safety_score strptime clk p =
      calculate_safety_score (fun _ => Some (today clk)) clk p).
Proof.
  split. { destruct (safety_between strptime clk p) as (sa & H & _). now exists sa. }
  split. { destruct (environmental_value p) as (en & H & _). now exists en. }
  split. { destruct (schedule_built clk p) as (_ & s & _ & _ & H). now exists s. }
  split; [exact (structural_total clk p)|].
  split; [exact (systems_total p)|].
  split; [exact (overall_total strptime clk p)|].
  split.
  { intros H. unfold dict_get_default. now rewrite dict_get_not_in. }
  split.
  { intros H. unfold dict_get_default. now rewrite dict_get_not_in. }
  intros Hna Hnone. unfold calculate_safety_score.
  rewrite !(malformed_inspection_no_penalty _ _ Hna Hnone).
  unfold inspection_penalty.
  destruct (String.eqb_spec (last_inspection p) "N/A") as [E|_]; [contradiction|].
  cbn [andb negb]. rewrite Z.sub_diag. reflexivity.
Qed.

End Totality.

Lemma scoring_returns_witness :
  (exists r, calculate_overall_score sample_strptime sample_clock odd_house = Ok r)
  /\ dict_get_default (foundation_type odd_house) foundation_scores 75 = 75
  /\ dict_get_default (roof_material odd_house) roof_material_expected_lifespans 20
     = 20
  /\ calculate_safety_score sample_strptime sample_clock odd_house =
     calculate_safety_score (fun _ => Some (today sample_clock)) sample_clock odd_house.
Proof.
  destruct (scoring_returns sample_strptime sample_clock odd_house)
    as (_ & _ & _ & _ & _ & Ho & Hf & Hr & Hm).
  split; [apply Ho; reflexivity|].
  split.
  { apply Hf. simpl. intros H.
    repeat (destruct H as [H|H]; [discriminate H|]). exact H. }
  split.
  { apply Hr. simpl. intros H.
    repeat (destruct H as [H|H]; [discriminate H|]). exact H. }
  apply Hm; [discriminate|reflexivity].
Defined.

(** C5, counterexample: a roof age of 2^1100 is an [int] like any
    other, but its quotient by the roof's expected life has no float:
    the true division raises [OverflowError], out of the structural
    score and out of the overall score. *)
Lemma huge_roof_age_raises :
  calculate_structural_score sample_clock ancient_roof = Raise OverflowError
  /\ calculate_overall_score sample_strptime sample_clock ancient_roof
     = Raise OverflowError.
Proof. split; vm_compute; reflexivity. Qed.

(** ** The new-build scenario *)

Lemma age_score_plateau_80 (age : Z) :
  age <= 8 -> calculate_age_score age 80 = Ok (Fin 100).
Proof.
  intros H. rewrite age_score_tail. fold (clamp_age age). cbv zeta.
  assert (Hc : clamp_age age <= 8).
  { unfold clamp_age. destruct (Z.ltb_spec age 0); lia. }
  set (a := clamp_age age) in *.
  change (80 <=? 0) with false. cbv iota.
  assert (E1 : float_of_int 80 = Ok (Fin 80)) by (vm_compute; reflexivity).
  rewrite E1. cbn [bind].
  assert (E2 : fmul (Fin 80) (flit (1 # 10)) = Fin 8) by (vm_compute; reflexivity).
  rewrite E2. unfold int_le_float.
  assert (E3 : fle (Fin (inject_Z a)) (Fin 8) = true).
  { apply fle_fin. change 8%Q with (inject_Z 8). rewrite <- Zle_Qle. exact Hc. }
  rewrite E3. rewrite flit_100. reflexivity.
Qed.

Section NewBuild.
Variable strptime : string -> option Z.
Variable clk : clock.
Variable p : Property.
Hypothesis Hyear : year_built p = 2024.
Hypothesis Hroof : roof_age p = 0.
Hypothesis Hhvac : hvac_age p = 0.
Hypothesis Helec : electrical_age p = 0.
Hypothesis Hplumb : plumbing_age p = 0.
Hypothesis Hfound : foundation_type p = "Basement"%string.
Hypothesis Hmat : roof_material p = "Metal"%string.
Hypothesis Hinsp : strptime (last_inspection p) = Some (today clk).
Hypothesis Hage : current_year clk - 2024 <= 8.

Lemma new_build_structural :
  exists st, calculate_structural_score clk p = Ok st /\ score st = Fin 97.
Proof.
  unfold calculate_structural_score.
  rewrite Hyear, Hroof, Hfound, Hmat.
  rewrite (age_score_plateau_80 _ Hage). cbn [bind].
  vm_compute. eexists. split; reflexivity.
Qed.

Lemma new_build_systems :
  exists sy, calculate_systems_score p = Ok sy /\ score sy = Fin 100.
Proof.
  unfold calculate_systems_score. rewrite Hhvac, Helec, Hplumb.
  vm_compute. eexists. split; reflexivity.
Qed.

Lemma new_build_safety :
  exists sa, calculate_safety_score strptime clk p = Ok sa /\ score sa = Fin 90.
Proof.
  unfold calculate_safety_score, inspection_penalty.
  rewrite Hyear, Helec, Hinsp, Z.sub_diag.
  destruct (Z.ltb_spec 50 (current_year clk - 2024)) as [H1|_]; [lia|].
  destruct (Z.ltb_spec 30 (current_year clk - 2024)) as [H1|_]; [lia|].
  destruct (Z.ltb_spec 20 (current_year clk - 2024)) as [H1|_]; [lia|].
  change (30 <? 0) with false. change (5 * 365 <? 0) with false. cbv iota.
  rewrite andb_false_r.
  eexists. split; [reflexivity|]. cbn [score].
  destruct (negb (String.eqb (last_inspection p) "N/A")); vm_compute; reflexivity.
Qed.

(** C4 (amended). The new-build scenario: structural 97, systems 100,
    safety 90, environmental 80, and the overall score is 95.1. *)
Theorem new_build_scores :
  exists r,
    calculate_overall_score strptime clk p = Ok r
    /\ score (cat_structural r) = Fin 97
    /\ score (cat_systems r) = Fin 100
    /\ score (cat_safety r) = Fin 90
    /\ score (cat_environmental r) = Fin 80
    /\ overall_score r = flit (951 # 10).
Proof.
  unfold calculate_overall_score.
  destruct new_build_structural as (st & -> & Hst).
  destruct new_build_systems as (sy & -> & Hsy).
  destruct new_build_safety as (sa & -> & Hsa).
  destruct (environmental_value p) as (en & -> & Hen).
  cbn [bind]. eexists. split; [reflexivity|].
  cbn [cat_structural cat_systems cat_safety cat_environmental overall_score].
  rewrite Hst, Hsy, Hsa, Hen.
  repeat (split; [reflexivity|]). vm_compute. reflexivity.
Qed.

End NewBuild.

Lemma new_build_scores_witness :
  exists r,
    calculate_overall_score sample_strptime sample_clock new_build = Ok r
    /\ overall_score r = flit (951 # 10).
Proof.
  destruct (new_build_scores sample_strptime sample_clock new_build
              eq_refl eq_refl eq_refl eq_refl eq_refl eq_refl eq_refl eq_refl
              ltac:(vm_compute; discriminate))
    as (r & Hr & _ & _ & _ & _ & Ho).
  exists r. now split.
Defined.

(** C4, counterexample: for the new build on the sample day the overall
    score is the float 95.1, which is not the float 96.1. *)
Lemma new_build_overall_is_not_96_1 :
  exists r,
    calculate_overall_score sample_strptime sample_clock new_build = Ok r
    /\ score (cat_structural r) = Fin 97
    /\ score (cat_systems r) = Fin 100
    /\ score (cat_safety r) = Fin 90
    /\ score (cat_environmental r) = Fin 80
    /\ overall_score r = flit (951 # 10)
    /\ overall_score r <> flit (961 # 10).
Proof.
  vm_compute. eexists. split; [reflexivity|].
  repeat (split; [reflexivity|]). discriminate.
Qed.

(** ** Regions and cost estimates *)

(** X1. The regional entry of a ZIP code: the two listed codes have
    their own entry, every other string, the empty one included, gets
    the national average; the lookup by first character never finds
    anything, and nothing is raised. *)
Theorem regional_info_by_zip (zip : string) :
  get_regional_info zip =
  Ok (if String.eqb zip "22701" then
        {| multiplier := flit (85 # 100);
           region := "Central Virginia - Rural"; confidence := "high" |}
      else if String.eqb zip "22102" then
        {| multiplier := flit (135 # 100);
           region := "Northern Virginia - DC Metro"; confidence := "high" |}
      else
        {| multiplier := flit 1;
           region := "National Average"; confidence := "low" |}).
Proof.
  unfold get_regional_info, dict_mem, dict_index, regional_multipliers, dict_get.
  destruct (String.eqb zip "22701"); [reflexivity|].
  destruct (String.eqb zip "22102"); [reflexivity|].
  destruct (String.eqb zip "default"); [reflexivity|].
  destruct zip as [|c rest]; [reflexivity|].
  cbn [String.eqb].
  destruct (Ascii.eqb c "2"); destruct (Ascii.eqb c "d"); reflexivity.
Qed.

Lemma estimate_by_region (item_type zip : string) :
  get_local_cost_estimate item_type zip =
  get_local_cost_estimate item_type
    (if String.eqb zip "22701" then "22701"
     else if String.eqb zip "22102" then "22102" else "")%string.
Proof.
  unfold get_local_cost_estimate.
  assert (E : get_regional_info zip =
              get_regional_info (if String.eqb zip "22701" then "22701"
                                 else if String.eqb zip "22102" then "22102"
                                 else "")%string).
  { rewrite (regional_info_by_zip zip).
    destruct (String.eqb zip "22701"); [reflexivity|].
    destruct (String.eqb zip "22102"); reflexivity. }
  rewrite E. reflexivity.
Qed.

Lemma known_item_cases (item_type : string) (baseline : cost_range) :
  dict_get item_type national_cost_baseline = Some baseline ->
  In item_type
     [ "hvac_service"; "hvac_replacement"; "roof_repair"; "roof_replacement";
       "electrical_panel"; "plumbing_repair"; "water_heater";
       "foundation_repair"; "gutter_replacement" ]%string.
Proof.
  intros H. apply dict_get_in in H.
  apply (in_map fst) in H. exact H.
Qed.

(** The estimates of one item: in the rural region, at the national
    average and in the metro region. *)
Ltac each_item H :=
  repeat (destruct H as [H|H]; [subst|]); try contradiction.

Ltac each_region zip :=
  rewrite (estimate_by_region _ zip);
  destruct (String.eqb zip "22701"); [|destruct (String.eqb zip "22102")].

(** X2. An estimate is returned for every item type and ZIP code, and
    its figures are ordered: [0 <= min <= avg <= max].  For a known
    item the minimum is positive and the national average lies between
    the regional minimum and maximum. *)
Theorem cost_estimate_ordered (item_type zip : string) :
  exists e,
    get_local_cost_estimate item_type zip = Ok e
    /\ 0 <= est_min e <= est_avg e
    /\ est_avg e <= est_max e
    /\ (dict_mem item_type national_cost_baseline = true ->
        0 < est_min e /\ est_min e <= national_avg e <= est_max e).
Proof.
  destruct (dict_get item_type national_cost_baseline) as [baseline|] eqn:Hb.
  - apply known_item_cases in Hb. each_item Hb; each_region zip;
      (match goal with
       | |- context [get_local_cost_estimate ?i ?z] =>
           let v := eval vm_compute in (get_local_cost_estimate i z) in
           change (get_local_cost_estimate i z) with v
       end);
      eexists; (split; [reflexivity|]);
      cbn [est_min est_avg est_max national_avg]; repeat split; lia.
  - exists {| est_min := 0; est_max := 0; est_avg := 0;
              est_confidence := "low"; est_region := "Unknown";
              national_avg := 0 |}.
    unfold get_local_cost_estimate, dict_mem. rewrite Hb.
    split; [reflexivity|]. simpl. repeat split; try lia; discriminate.
Qed.

(** X3. Whatever the item, the rural region is the cheapest and the
    metro region the dearest: the estimate for any ZIP code lies, figure
    by figure, between the estimates for 22701 and for 22102.  Outside
    these two codes a known item is estimated at its national baseline,
    with confidence "low". *)
Theorem cost_estimate_between_regions (item_type zip : string) :
  exists rural e metro,
    get_local_cost_estimate item_type "22701" = Ok rural
    /\ get_local_cost_estimate item_type zip = Ok e
    /\ get_local_cost_estimate item_type "22102" = Ok metro
    /\ est_min rural <= est_min e <= est_min metro
    /\ est_avg rural <= est_avg e <= est_avg metro
    /\ est_max rural <= est_max e <= est_max metro
    /\ (zip <> "22701"%string -> zip <> "22102"%string ->
        forall baseline,
          dict_get item_type national_cost_baseline = Some baseline ->
          e = {| est_min := cmin baseline; est_max := cmax baseline;
                 est_avg := cavg baseline; est_confidence := "low";
                 est_region := "National Average";
                 national_avg := cavg baseline |}).
Proof.
  destruct (dict_get item_type national_cost_baseline) as [baseline|] eqn:Hb.
  - pose proof (known_item_cases _ _ Hb) as Hi.
    rewrite (estimate_by_region _ zip).
    destruct (String.eqb_spec zip "22701") as [E1|E1];
      [|destruct (String.eqb_spec zip "22102") as [E2|E2]];
      each_item Hi; vm_compute in Hb; injection Hb as <-;
      repeat (match goal with
       | |- context [get_local_cost_estimate ?i ?z] =>
           let v := eval vm_compute in (get_local_cost_estimate i z) in
           change (get_local_cost_estimate i z) with v
       end);
      do 3 eexists;
      repeat (split; [reflexivity|]);
      cbn [est_min est_avg est_max cmin cmax cavg];
      repeat (split; [lia|]);
      try (intros ? ? ? [= <-]; reflexivity);
      try (intros H; exfalso; now apply H);
      try (intros _ H; exfalso; now apply H).
  - assert (E : forall z, get_local_cost_estimate item_type z =
                  Ok {| est_min := 0; est_max := 0; est_avg := 0;
                        est_confidence := "low"; est_region := "Unknown";
                        national_avg := 0 |}).
    { intros z. unfold get_local_cost_estimate, dict_mem. rewrite Hb. reflexivity. }
    do 3 eexists. rewrite !E. repeat (split; [reflexivity|]).
    simpl. repeat (split; [lia|]). intros _ _ b H. discriminate H.
Qed.

(** ** The tasks of the schedule *)

(** An integer against a float that lies between two consecutive
    integers. *)
Lemma int_le_float_threshold (n k : Z) (q : Q) :
  (inject_Z k <= q)%Q -> (q < inject_Z (k + 1))%Q ->
  int_le_float n (Fin q) = (n <=? k).
Proof.
  intros L U. unfold int_le_float.
  change (fle (Fin (inject_Z n)) (Fin q)) with (Qle_bool (inject_Z n) q).
  destruct (Z.leb_spec n k) as [H|H].
  - apply Qle_bool_iff. apply Qle_trans with (inject_Z k); [|exact L].
    rewrite <- Zle_Qle. exact H.
  - apply Qle_bool_false. apply Qlt_le_trans with (inject_Z (k + 1)); [exact U|].
    rewrite <- Zle_Qle. lia.
Qed.

Lemma hvac_threshold (n : Z) :
  int_le_float n (fmul (flit 18) (flit (8 # 10))) = (n <=? 14).
Proof.
  let v := eval vm_compute in (fmul (flit 18) (flit (8 # 10))) in
  change (fmul (flit 18) (flit (8 # 10))) with v.
  apply int_le_float_threshold; vm_compute; [discriminate|reflexivity].
Qed.

Lemma electrical_threshold (n : Z) :
  int_le_float n (fmul (flit 35) (flit (9 # 10))) = (n <=? 31).
Proof.
  let v := eval vm_compute in (fmul (flit 35) (flit (9 # 10))) in
  change (fmul (flit 35) (flit (9 # 10))) with v.
  apply int_le_float_threshold; vm_compute; [discriminate|reflexivity].
Qed.

Lemma plumbing_threshold (n : Z) :
  int_le_float n (fmul (flit 50) (flit (8 # 10))) = (n <=? 40).
Proof.
  let v := eval vm_compute in (fmul (flit 50) (flit (8 # 10))) in
  change (fmul (flit 50) (flit (8 # 10))) with v.
  apply int_le_float_threshold; vm_compute; [discriminate|reflexivity].
Qed.

(** The estimate of a rule, region by region. *)
Ltac estimate_cases p :=
  rewrite (estimate_by_region _ (zip_code p));
  destruct (String.eqb (zip_code p) "22701");
    [|destruct (String.eqb (zip_code p) "22102")];
  (match goal with
   | |- context [get_local_cost_estimate ?i ?z] =>
       let v := eval vm_compute in (get_local_cost_estimate i z) in
       change (get_local_cost_estimate i z) with v
   end);
  cbn [bind est_min est_avg est_max].

Ltac plausible :=
  unfold plausible_task, mk_task, timedelta_days;
  cbn [priority estimated_cost next_due];
  split; [simpl; tauto|split; [vm_compute; split; discriminate|lia]].

Section Rules.
Variable clk : clock.
Variable p : Property.

Lemma hvac_tasks_shape :
  exists t, hvac_tasks clk p = Ok [t]
            /\ plausible_task clk t
            /\ is_hvac_task t = true
            /\ (priority t = "high"%string <-> 14 < hvac_age p)
            /\ (is_routine t = true <-> hvac_age p <= 1).
Proof.
  unfold hvac_tasks. rewrite hvac_threshold.
  destruct (Z.leb_spec (hvac_age p) 1) as [H1|H1];
    [|destruct (Z.leb_spec (hvac_age p) 14) as [H2|H2]];
    estimate_cases p; eexists; (split; [reflexivity|]);
    (split; [plausible|]); (split; [reflexivity|]);
    unfold is_routine, mk_task; cbn [priority];
    (split; split; intros H; try discriminate H; try reflexivity; lia).
Qed.

Ltac optional_rule p :=
  estimate_cases p; eexists; (split; [reflexivity|]); right;
  eexists; (split; [reflexivity|]); (split; [plausible|]);
  repeat split; try reflexivity; try lia.

Lemma roof_tasks_shape :
  exists l, roof_tasks clk p = Ok l
    /\ (l = [] \/ exists t, l = [t] /\ plausible_task clk t
                            /\ is_hvac_task t = false
                            /\ priority t = "important"%string).
Proof.
  unfold roof_tasks. destruct (10 <? roof_age p).
  - optional_rule p.
  - eexists. split; [reflexivity|]. now left.
Qed.

Lemma electrical_inspection_tasks_shape :
  exists l, electrical_inspection_tasks clk p = Ok l
    /\ (l = [] \/ exists t, l = [t] /\ plausible_task clk t
                            /\ is_hvac_task t = false
                            /\ priority t = "important"%string).
Proof.
  unfold electrical_inspection_tasks. destruct (30 <? electrical_age p).
  - optional_rule p.
  - eexists. split; [reflexivity|]. now left.
Qed.

Lemma water_heater_tasks_shape :
  exists l, water_heater_tasks clk p = Ok l
    /\ (l = [] \/ exists t, l = [t] /\ plausible_task clk t
                            /\ is_hvac_task t = false
                            /\ priority t = "important"%string).
Proof.
  unfold water_heater_tasks. destruct (8 <? plumbing_age p).
  - optional_rule p.
  - eexists. split; [reflexivity|]. now left.
Qed.

Lemma electrical_upgrade_tasks_shape :
  exists l, electrical_upgrade_tasks clk p = Ok l
    /\ ((l = [] /\ electrical_age p <= 31)
        \/ exists t, l = [t] /\ plausible_task clk t
                     /\ is_hvac_task t = false
                     /\ priority t = "high"%string
                     /\ 31 < electrical_age p).
Proof.
  unfold electrical_upgrade_tasks. rewrite electrical_threshold.
  destruct (Z.leb_spec (electrical_age p) 31) as [H|H]; cbn [negb].
  - eexists. split; [reflexivity|]. now left.
  - optional_rule p.
Qed.

Lemma plumbing_tasks_shape :
  exists l, plumbing_tasks clk p = Ok l
    /\ ((l = [] /\ plumbing_age p <= 40)
        \/ exists t, l = [t] /\ plausible_task clk t
                     /\ is_hvac_task t = false
                     /\ priority t = "high"%string
                     /\ 40 < plumbing_age p).
Proof.
  unfold plumbing_tasks. rewrite plumbing_threshold.
  destruct (Z.leb_spec (plumbing_age p) 40) as [H|H]; cbn [negb].
  - eexists. split; [reflexivity|]. now left.
  - optional_rule p.
Qed.

(** The four tasks of every schedule; cleaning the gutters costs 150 in
    every region. *)
Lemma seasonal_tasks_shape :
  seasonal_tasks clk p =
  Ok [ mk_task clk "Gutter Cleaning (Spring)" "Annually (Spring)" 120 "routine" 150
         "Clean gutters and downspouts after winter.";
       mk_task clk "Gutter Cleaning (Fall)" "Annually (Fall)" 300 "routine" 150
         "Clean gutters and downspouts before winter.";
       mk_task clk "Exterior Caulking & Sealing Check" "Annually" 270 "routine" 100
         "Check windows, doors, and siding for gaps to prevent drafts and water intrusion.";
       mk_task clk "Smoke & CO Detector Test/Battery Change" "Semi-Annually" 180
         "important" 10 "Test all detectors and replace batteries as needed." ].
Proof.
  unfold seasonal_tasks. estimate_cases p; reflexivity.
Qed.

End Rules.

(** ** Sorting keeps the tasks *)

Lemma insert_stable_perm {A : Type} (x : (Z * Z) * A) (l : list ((Z * Z) * A)) :
  Permutation (x :: l) (insert_stable x l).
Proof.
  induction l as [|y t IH]; simpl.
  - apply Permutation_refl.
  - destruct (key_lt (fst y) (fst x)).
    + apply perm_trans with (y :: x :: t); [apply perm_swap|].
      now apply perm_skip.
    + apply Permutation_refl.
Qed.

Lemma sort_decorated_perm {A : Type} (l : list ((Z * Z) * A)) :
  Permutation l (sort_decorated l).
Proof.
  induction l as [|x t IH]; simpl.
  - apply perm_nil.
  - apply perm_trans with (x :: sort_decorated t); [now apply perm_skip|].
    apply insert_stable_perm.
Qed.

Lemma mapM_decorate_snd (l : list task) (dec : list ((Z * Z) * task)) :
  mapM decorate l = Ok dec -> map snd dec = l.
Proof.
  revert dec. induction l as [|t l IH]; simpl; intros dec H.
  - injection H as <-. reflexivity.
  - apply bind_ok in H. destruct H as (kt & Hkt & H).
    apply bind_ok in H. destruct H as (dec' & Hdec & H).
    injection H as <-. simpl. rewrite (IH _ Hdec).
    unfold decorate in Hkt. apply bind_ok in Hkt.
    destruct Hkt as (k & _ & Hkt). injection Hkt as <-. reflexivity.
Qed.

Lemma sort_schedule_perm (l s : list task) :
  sort_schedule l = Ok s -> Permutation l s.
Proof.
  unfold sort_schedule. intros H.
  apply bind_ok in H. destruct H as (dec & Hdec & H). injection H as <-.
  rewrite <- (mapM_decorate_snd _ _ Hdec).
  apply Permutation_map, sort_decorated_perm.
Qed.

Lemma filter_perm {A : Type} (f : A -> bool) (l l' : list A) :
  Permutation l l' -> Permutation (filter f l) (filter f l').
Proof.
  induction 1 as [|x l l' _ IH|x y l|l l' l'' _ IH1 _ IH2]; simpl.
  - apply perm_nil.
  - destruct (f x); [now apply perm_skip|exact IH].
  - destruct (f x), (f y); try apply Permutation_refl. apply perm_swap.
  - eapply perm_trans; eassumption.
Qed.

Lemma important_not_routine (t : task) :
  priority t = "important"%string -> is_routine t = false.
Proof. unfold is_routine. now intros ->. Qed.

Lemma high_not_routine (t : task) :
  priority t = "high"%string -> is_routine t = false.
Proof. unfold is_routine. now intros ->. Qed.

(** ** The schedule before sorting *)

Section Tasks.
Variable clk : clock.
Variable p : Property.

Lemma plausible_ranked (l : list task) :
  Forall (plausible_task clk) l -> Forall ranked l.
Proof.
  intros Hl. eapply Forall_impl; [|exact Hl].
  intros t (Hp & _). unfold ranked, sort_key, dict_index, priority_rank.
  simpl in Hp. destruct Hp as [<-|[<-|[<-|[]]]]; eexists; reflexivity.
Qed.

Ltac count_tasks :=
  cbn [app filter length negb];
  unfold is_routine in *;
  repeat match goal with
         | H : is_hvac_task _ = _ |- _ => rewrite H
         | H : priority _ = _ |- _ => rewrite H
         end;
  simpl;
  repeat match goal with
         | |- context [String.eqb (priority ?t) ?s] =>
             destruct (String.eqb (priority t) s)
         end;
  cbn [negb filter length];
  repeat match goal with
         | H : filter _ _ = _ |- _ => rewrite H
         | H : length _ = _ |- _ => rewrite H
         end;
  cbn [length]; lia.

Lemma schedule_tasks :
  exists tasks schedule,
    sort_schedule tasks = Ok schedule
    /\ generate_maintenance_schedule clk p = Ok schedule
    /\ Forall (plausible_task clk) tasks
    /\ (5 <= length tasks <= 10)%nat
    /\ length (filter is_hvac_task tasks) = 1%nat
    /\ (length (filter (fun t => negb (is_routine t)) tasks) <= 7)%nat
    /\ (length (filter (fun t => String.eqb (priority t) "high") tasks) <= 3)%nat
    /\ ((exists t, In t tasks /\ priority t = "high"%string)
        <-> (14 < hvac_age p \/ 31 < electrical_age p \/ 40 < plumbing_age p))
    /\ (exists rest, seasonal_tasks clk p = Ok rest /\ incl rest tasks).
Proof.
  unfold generate_maintenance_schedule.
  destruct (hvac_tasks_shape clk p) as (th & -> & Ph & Hh & Hhigh & Hrout).
  destruct (roof_tasks_shape clk p) as (l2 & -> & S2).
  destruct (electrical_inspection_tasks_shape clk p) as (l3 & -> & S3).
  destruct (electrical_upgrade_tasks_shape clk p) as (l4 & -> & S4).
  destruct (water_heater_tasks_shape clk p) as (l5 & -> & S5).
  destruct (plumbing_tasks_shape clk p) as (l6 & -> & S6).
  pose proof (seasonal_tasks_shape clk p) as S7.
  match type of S7 with _ = Ok ?l => set (l7 := l) in S7 end.
  rewrite S7. cbn [bind].
  assert (P7 : Forall (plausible_task clk) l7).
  { unfold l7. repeat (apply Forall_cons; [plausible|]). apply Forall_nil. }
  assert (R7 : forall t, In t l7 -> priority t <> "high"%string).
  { unfold l7. intros t [<-|[<-|[<-|[<-|[]]]]]; discriminate. }
  assert (F7h : filter is_hvac_task l7 = []) by reflexivity.
  assert (F7r : filter (fun t => negb (is_routine t)) l7
                = [mk_task clk "Smoke & CO Detector Test/Battery Change" "Semi-Annually"
                     180 "important" 10
                     "Test all detectors and replace batteries as needed."])
    by reflexivity.
  assert (F7g : filter (fun t => String.eqb (priority t) "high") l7 = [])
    by reflexivity.
  assert (L7 : length l7 = 4%nat) by reflexivity.
  clearbody l7.
  destruct S2 as [->|(t2 & -> & P2 & H2 & I2)];
  destruct S3 as [->|(t3 & -> & P3 & H3 & I3)];
  destruct S4 as [[-> C4]|(t4 & -> & P4 & H4 & I4 & C4)];
  destruct S5 as [->|(t5 & -> & P5 & H5 & I5)];
  destruct S6 as [[-> C6]|(t6 & -> & P6 & H6 & I6 & C6)];
  cbn [app];
  match goal with
  | |- exists tasks schedule, sort_schedule tasks = _ /\ sort_schedule ?l = _ /\ _ =>
      assert (Hall : Forall (plausible_task clk) l)
        by (repeat (apply Forall_cons; [assumption|]); exact P7);
      destruct (sort_schedule_ok _ (plausible_ranked _ Hall)) as [schedule Hs];
      exists l, schedule
  end;
  (split; [exact Hs|]); (split; [exact Hs|]); (split; [exact Hall|]).
  all: split; [count_tasks|].
  all: split; [count_tasks|].
  all: split; [count_tasks|].
  all: split; [count_tasks|].
  all: split;
    [|exists l7; split; [reflexivity|];
      intros t Ht; repeat (apply in_cons); exact Ht].
  all: split.
  all: try (intros (t & Hin & Hp);
            repeat (destruct Hin as [<-|Hin];
                    [try (rewrite Hp in *; discriminate);
                     try (left; now apply Hhigh);
                     try (right; left; assumption);
                     try (right; right; assumption)|]);
            exfalso; now apply (R7 t)).
  all: intros [H|[H|H]]; try lia;
    try (exists th; split; [now left|now apply Hhigh]);
    try (exists t4; split; [simpl; tauto|assumption]);
    try (exists t6; split; [simpl; tauto|assumption]).
Qed.

End Tasks.

(** ** The schedule as a whole *)

(** X4. The schedule has between 5 and 10 tasks.  Exactly one of them
    is about the HVAC system, and the two gutter cleanings at 150 each,
    the caulking check and the detector test are in every schedule. *)
Theorem schedule_size (clk : clock) (p : Property) :
  exists schedule,
    generate_maintenance_schedule clk p = Ok schedule
    /\ (5 <= length schedule <= 10)%nat
    /\ length (filter (fun t => String.prefix "HVAC" (task_name t)) schedule) = 1%nat
    /\ forall t,
         In t [ mk_task clk "Gutter Cleaning (Spring)" "Annually (Spring)" 120
                  "routine" 150 "Clean gutters and downspouts after winter.";
                mk_task clk "Gutter Cleaning (Fall)" "Annually (Fall)" 300
                  "routine" 150 "Clean gutters and downspouts before winter.";
                mk_task clk "Exterior Caulking & Sealing Check" "Annually" 270
                  "routine" 100
                  "Check windows, doors, and siding for gaps to prevent drafts and water intrusion.";
                mk_task clk "Smoke & CO Detector Test/Battery Change" "Semi-Annually"
                  180 "important" 10
                  "Test all detectors and replace batteries as needed." ] ->
         In t schedule.
Proof.
  destruct (schedule_tasks clk p)
    as (tasks & schedule & Hs & Hg & _ & Hlen & Hh & _ & _ & _ & rest & Hrest & Hincl).
  pose proof (sort_schedule_perm _ _ Hs) as Hp.
  exists schedule. split; [exact Hg|]. split.
  { rewrite <- (Permutation_length Hp). exact Hlen. }
  split.
  { rewrite <- (Permutation_length (filter_perm _ _ _ Hp)). exact Hh. }
  intros t Ht. apply (Permutation_in _ Hp). apply Hincl.
  rewrite seasonal_tasks_shape in Hrest. injection Hrest as <-. exact Ht.
Qed.

(** X5. The schedule opens with a high-priority task exactly when the
    HVAC system is older than 14 years, the electrical system older
    than 31 or the plumbing older than 40; and it never holds more than
    three high-priority tasks. *)
Theorem schedule_opens_with_high (clk : clock) (p : Property) :
  exists first rest,
    generate_maintenance_schedule clk p = Ok (first :: rest)
    /\ (priority first = "high"%string
        <-> (14 < hvac_age p \/ 31 < electrical_age p \/ 40 < plumbing_age p))
    /\ (length (filter (fun t => String.eqb (priority t) "high") (first :: rest))
        <= 3)%nat.
Proof.
  destruct (schedule_tasks clk p)
    as (tasks & schedule & Hs & Hg & _ & Hlen & _ & _ & Hhc & Hhigh & _).
  pose proof (sort_schedule_perm _ _ Hs) as Hp.
  destruct schedule as [|first rest].
  { apply Permutation_length in Hp. simpl in Hp. lia. }
  exists first, rest. split; [exact Hg|]. split.
  - rewrite <- Hhigh. split.
    + intros H. exists first. split; [|exact H].
      apply (Permutation_in _ (Permutation_sym Hp)). now left.
    + intros (t & Hin & Ht). apply (Permutation_in _ Hp) in Hin.
      destruct Hin as [->|Hin]; [exact Ht|].
      apply In_nth_error in Hin. destruct Hin as [j Hj].
      destruct (sort_schedule_ordered _ _ 0%nat (S j) first t Hs ltac:(lia)
                  eq_refl Hj) as (ri & rj & Hri & Hrj & Hord).
      rewrite Ht in Hrj. apply rank_cases in Hri. apply rank_cases in Hrj.
      destruct Hrj as [[_ ->]|[[? _]|[? _]]]; try discriminate.
      destruct Hri as [[? _]|[[_ ->]|[_ ->]]]; [assumption|lia|lia].
  - rewrite <- (Permutation_length (filter_perm _ _ _ Hp)). exact Hhc.
Qed.

(** X6. Every task of a schedule costs between 10 and 10125 and falls
    due between 90 and 730 days after the schedule is made, whatever
    the property and its ZIP code: no task is born overdue, none is
    free. *)
Theorem schedule_costs_and_dates (clk : clock) (p : Property) :
  exists schedule,
    generate_maintenance_schedule clk p = Ok schedule
    /\ forall t, In t schedule ->
         10 <= estimated_cost t <= 10125
         /\ current_date clk + timedelta_days 90 <= next_due t
            <= current_date clk + timedelta_days 730.
Proof.
  destruct (schedule_tasks clk p) as (tasks & schedule & Hs & Hg & Hall & _).
  pose proof (sort_schedule_perm _ _ Hs) as Hp.
  exists schedule. split; [exact Hg|]. intros t Ht.
  apply (Permutation_in _ (Permutation_sym Hp)) in Ht.
  rewrite Forall_forall in Hall. destruct (Hall t Ht) as (_ & Hc & Hd).
  now split.
Qed.

(** ** The tasks displayed *)

Lemma filter_length_prefix {A : Type} (f : A -> bool) (l : list A) (n : nat) :
  (forall i x, (i < n)%nat -> nth_error l i = Some x -> f x = true) ->
  (n <= length l)%nat -> (n <= length (filter f l))%nat.
Proof.
  revert n. induction l as [|y t IH]; intros n H Hn.
  - simpl in Hn |- *. lia.
  - destruct n as [|n]; [lia|].
    simpl. rewrite (H 0%nat y ltac:(lia) eq_refl). simpl.
    apply le_n_S. apply IH.
    + intros i x Hi Hx. apply (H (S i) x); [lia|exact Hx].
    + simpl in Hn. lia.
Qed.

Lemma nth_error_firstn_in {A : Type} (l : list A) (n j : nat) (x : A) :
  (j < n)%nat -> nth_error l j = Some x -> In x (firstn n l).
Proof.
  revert n j. induction l as [|y t IH]; intros n j Hj Hx.
  - destruct j; discriminate.
  - destruct n as [|n]; [lia|]. destruct j as [|j]; simpl in *.
    + injection Hx as ->. now left.
    + right. apply (IH n j); [lia|exact Hx].
Qed.

Lemma firstn_incl {A : Type} (n : nat) (l : list A) (x : A) :
  In x (firstn n l) -> In x l.
Proof.
  revert n. induction l as [|y t IH]; intros n H.
  - now rewrite firstn_nil in H.
  - destruct n as [|n]; [destruct H|]. simpl in H.
    destruct H as [->|H]; [now left|right; now apply (IH n)].
Qed.

Lemma mapM_icons (l : list task) :
  Forall ranked l ->
  exists shown,
    mapM (fun task => icon <- dict_index (priority task) priority_icons ;;
                      Ok (icon, task)) l = Ok shown
    /\ map snd shown = l
    /\ forall it, In it shown ->
                  dict_get (priority (snd it)) priority_icons = Some (fst it).
Proof.
  induction 1 as [|t l [k Hk] _ (shown & IH & Hm & Hi)]; simpl.
  - exists []. repeat split. intros it [].
  - unfold sort_key in Hk. apply bind_ok in Hk. destruct Hk as (r & Hr & _).
    apply rank_cases in Hr.
    assert (Hd : exists icon, dict_get (priority t) priority_icons = Some icon).
    { destruct Hr as [[-> _]|[[-> _]|[-> _]]]; eexists; reflexivity. }
    destruct Hd as [icon Hd]. unfold dict_index at 1. rewrite Hd. cbn [bind].
    rewrite IH. cbn [bind]. exists ((icon, t) :: shown).
    split; [reflexivity|]. split; [simpl; now rewrite Hm|].
    intros it [<-|Hin]; [exact Hd|now apply Hi].
Qed.

(** X7. The list of upcoming tasks is cut at seven, and the cut never
    hides a task that matters: every high or important task of the
    schedule is shown, each with the mark of its priority; what is left
    out is routine. *)
Theorem upcoming_tasks_keep_priorities (clk : clock) (p : Property) :
  exists schedule shown,
    generate_maintenance_schedule clk p = Ok schedule
    /\ render_predictions_and_recommendations clk p = Ok shown
    /\ map snd shown = firstn 7 schedule
    /\ (forall it, In it shown ->
          dict_get (priority (snd it)) priority_icons = Some (fst it))
    /\ forall t, In t schedule -> priority t <> "routine"%string ->
                 In t (map snd shown).
Proof.
  destruct (schedule_tasks clk p)
    as (tasks & schedule & Hs & Hg & Hall & _ & _ & Hnr & _).
  pose proof (sort_schedule_perm _ _ Hs) as Hp.
  assert (Hrk : Forall ranked schedule).
  { apply (Permutation_Forall Hp). now apply (plausible_ranked clk). }
  assert (Hrk7 : Forall ranked (firstn 7 schedule)).
  { rewrite Forall_forall in Hrk |- *. intros t Ht. apply Hrk.
    eapply firstn_incl; exact Ht. }
  destruct (mapM_icons _ Hrk7) as (shown & Hm & Hsnd & Hic).
  exists schedule, shown. split; [exact Hg|]. split.
  { unfold render_predictions_and_recommendations. rewrite Hg. cbn [bind]. exact Hm. }
  split; [exact Hsnd|]. split; [exact Hic|].
  intros t Ht Hnot. rewrite Hsnd.
  apply In_nth_error in Ht. destruct Ht as [j Hj].
  destruct (Nat.lt_ge_cases j 7) as [Hlt|Hge].
  { eapply nth_error_firstn_in; eassumption. }
  exfalso.
  assert (Hcount : (S j <= length (filter (fun t => negb (is_routine t)) schedule))%nat).
  { apply filter_length_prefix.
    - intros i x Hi Hx. unfold is_routine.
      destruct (Nat.eq_dec i j) as [->|Hne].
      + rewrite Hj in Hx. injection Hx as <-.
        destruct (String.eqb_spec (priority t) "routine"); [contradiction|reflexivity].
      + destruct (sort_schedule_ordered _ _ i j x t Hs ltac:(lia) Hx Hj)
          as (ri & rj & Hri & Hrj & Hord).
        apply rank_cases in Hri. apply rank_cases in Hrj.
        destruct Hrj as [[_ ->]|[[_ ->]|[E _]]]; [| |contradiction];
          destruct Hri as [[-> _]|[[-> _]|[_ ->]]]; try reflexivity; lia.
    - apply nth_error_Some. rewrite Hj. discriminate. }
  rewrite <- (Permutation_length (filter_perm _ _ _ Hp)) in Hcount. lia.
Qed.

(** ** The safety score *)

Lemma safety_score_in_points (strptime : string -> option Z) (clk : clock)
      (p : Property) :
  calculate_safety_score strptime clk p =
  Ok {| score := Fin (inject_Z (safety_points strptime clk p));
        components :=
          [ ("General Safety Factors"%string,
             PyFloat (Fin (inject_Z (safety_points strptime clk p)))) ] |}.
Proof.
  unfold calculate_safety_score, inspection_penalty, safety_points. cbv zeta.
  destruct (50 <? current_year clk - year_built p);
    [|destruct (30 <? current_year clk - year_built p)];
    destruct (30 <? electrical_age p);
    destruct (String.eqb (last_inspection p) "N/A");
    destruct (20 <? current_year clk - year_built p);
    cbn [andb negb];
    try destruct (strptime (last_inspection p)) as [d|];
    try destruct (5 * 365 <? today clk - d);
    vm_compute; reflexivity.
Qed.

Lemma safety_points_values (strptime : string -> option Z) (clk : clock)
      (p : Property) :
  In (safety_points strptime clk p) [90; 85; 83; 80; 78; 75; 73; 70; 65].
Proof.
  unfold safety_points. cbv zeta.
  destruct (50 <? current_year clk - year_built p);
    [|destruct (30 <? current_year clk - year_built p)];
    destruct (30 <? electrical_age p);
    destruct (String.eqb (last_inspection p) "N/A");
    destruct (20 <? current_year clk - year_built p);
    try destruct (strptime (last_inspection p)) as [d|];
    try destruct (5 * 365 <? today clk - d);
    simpl; tauto.
Qed.

Lemma safety_score_bounds (strptime : string -> option Z) (clk : clock)
      (p : Property) :
  65 <= safety_points strptime clk p <= 90.
Proof.
  pose proof (safety_points_values strptime clk p) as H.
  simpl in H. repeat (destruct H as [<-|H]; [lia|]). destruct H.
Qed.

(** X8. The safety score is a whole number of points, 90 less the
    penalties: one of nine values between 65 and 90.  Rounding to one
    decimal and the clamp [max(0, ...)] never change it, and the one
    component of the category carries the same value. *)
Theorem safety_score_values (strptime : string -> option Z) (clk : clock)
        (p : Property) :
  exists n,
    calculate_safety_score strptime clk p =
      Ok {| score := Fin (inject_Z n);
            components :=
              [ ("General Safety Factors"%string, PyFloat (Fin (inject_Z n))) ] |}
    /\ n = safety_points strptime clk p
    /\ In n [90; 85; 83; 80; 78; 75; 73; 70; 65]
    /\ 65 <= n <= 90.
Proof.
  exists (safety_points strptime clk p).
  split; [apply safety_score_in_points|]. split; [reflexivity|].
  split; [apply safety_points_values|apply safety_score_bounds].
Qed.

(** ** Ageing *)

Lemma fadd_mono_between (l1 h1 l2 h2 : Q) (x x' y y' : float) :
  between l1 h1 x -> between l1 h1 x' -> between l2 h2 y -> between l2 h2 y' ->
  fle x x' = true -> fle y y' = true -> fle (fadd x y) (fadd x' y') = true.
Proof.
  intros Bx Bx' By By' Hx Hy.
  destruct (between_fin _ _ _ Bx) as (a & -> & _).
  destruct (between_fin _ _ _ Bx') as (a' & -> & _).
  destruct (between_fin _ _ _ By) as (b & -> & _).
  destruct (between_fin _ _ _ By') as (b' & -> & _).
  apply fadd_mono; now apply fle_fin.
Qed.

(** The weighted sum of a category, 0.4, 0.3 and 0.3, grows with each
    of its three terms. *)
Lemma category_sum_mono (a a' b b' c c' : float) :
  between 0 100 a -> between 0 100 a' ->
  between 0 100 b -> between 0 100 b' ->
  between 0 100 c -> between 0 100 c' ->
  fle a a' = true -> fle b b' = true -> fle c c' = true ->
  fle (py_round1 (fadd (fadd (fmul a (flit (4 # 10))) (fmul b (flit (3 # 10))))
                       (fmul c (flit (3 # 10)))))
      (py_round1 (fadd (fadd (fmul a' (flit (4 # 10))) (fmul b' (flit (3 # 10))))
                       (fmul c' (flit (3 # 10)))))
  = true.
Proof.
  intros Ba Ba' Bb Bb' Bc Bc' Ha Hb Hc.
  rewrite flit_c04, flit_c03.
  assert (P4 : (0 < rne (4 # 10))%Q) by (vm_compute; reflexivity).
  apply py_round1_mono.
  eapply fadd_mono_between.
  - between_tac.
  - between_tac.
  - between_tac.
  - between_tac.
  - eapply fadd_mono_between.
    + between_tac.
    + between_tac.
    + between_tac.
    + between_tac.
    + now apply fmul_mono.
    + apply fmul_mono; [apply c03_pos|exact Hb].
  - apply fmul_mono; [apply c03_pos|exact Hc].
Qed.

(** The overall weighted sum grows with the structural, the systems and
    the safety score. *)
Lemma weighted_sum_mono (a a' b b' c c' d : float) :
  between 21 97 a -> between 21 97 a' ->
  between 0 100 b -> between 0 100 b' ->
  between 65 90 c -> between 65 90 c' ->
  d = Fin 80 ->
  fle a a' = true -> fle b b' = true -> fle c c' = true ->
  fle (py_round1 (weighted_sum a b c d)) (py_round1 (weighted_sum a' b' c' d)) = true.
Proof.
  intros Ba Ba' Bb Bb' Bc Bc' -> Ha Hb Hc.
  unfold weighted_sum, weights.
  cbn [w_structural w_systems w_safety w_environmental].
  rewrite flit_c04, flit_c03, flit_c02, flit_c01.
  assert (P4 : (0 < rne (4 # 10))%Q) by (vm_compute; reflexivity).
  assert (P1 : (0 < c01)%Q) by (vm_compute; reflexivity).
  assert (Bd : between 80 80 (Fin 80)) by (split; reflexivity).
  apply py_round1_mono.
  eapply fadd_mono_between; [between_tac|between_tac|between_tac|between_tac| |].
  - eapply fadd_mono_between; [between_tac|between_tac|between_tac|between_tac| |].
    + eapply fadd_mono_between; [between_tac|between_tac|between_tac|between_tac| |].
      * apply fmul_mono; [apply c03_pos|exact Ha].
      * now apply fmul_mono.
    + apply fmul_mono; [apply c02_pos|exact Hc].
  - apply fle_refl. intros E. vm_compute in E. discriminate E.
Qed.

Section Ageing.
Variable strptime : string -> option Z.
Variable clk : clock.
Variables p q : Property.
Hypothesis Hyear : year_built q <= year_built p.
Hypothesis Hroof : roof_age p <= roof_age q.
Hypothesis Hhvac : hvac_age p <= hvac_age q.
Hypothesis Helec : electrical_age p <= electrical_age q.
Hypothesis Hplumb : plumbing_age p <= plumbing_age q.
Hypothesis Hmat : roof_material p = roof_material q.
Hypothesis Hfound : foundation_type p = foundation_type q.
Hypothesis Hinsp : last_inspection p = last_inspection q.

Lemma structural_ageing (sq : category_score) :
  calculate_structural_score clk q = Ok sq ->
  exists sp, calculate_structural_score clk p = Ok sp
             /\ fle (score sq) (score sp) = true.
Proof.
  unfold calculate_structural_score. intros H.
  apply bind_ok in H. destruct H as (bq & Hb & H).
  apply bind_ok in H. destruct H as (rq & Hr & H).
  apply bind_ok in H. destruct H as (fq & Hf & H).
  apply Ok_inj in H. subst sq. cbn [score].
  destruct (age_score_antitone (current_year clk - year_built p)
              (current_year clk - year_built q) 80 bq ltac:(lia) ltac:(lia) Hb)
    as (bp & Hbp & Lb).
  pose proof (roof_life_range (roof_material q)) as HL.
  rewrite <- Hmat in Hr, HL.
  destruct (age_score_antitone (roof_age p) (roof_age q) _ rq (proj1 HL) Hroof Hr)
    as (rp & Hrp & Lr).
  rewrite Hbp, Hrp. cbn [bind]. rewrite Hfound, Hf. cbn [bind].
  eexists. split; [reflexivity|]. cbn [score].
  destruct (foundation_between (foundation_type q)) as (f' & Hf' & Bf).
  rewrite Hf in Hf'. apply Ok_inj in Hf'. subst f'.
  assert (Bf' : between 0 100 fq).
  { eapply between_weaken; [exact Bf|discriminate|discriminate]. }
  apply category_sum_mono; try assumption;
    try (eapply age_score_between; eassumption).
  apply fle_refl. destruct (between_fin _ _ _ Bf) as (x & -> & _). discriminate.
Qed.

Lemma systems_ageing (sq : category_score) :
  calculate_systems_score q = Ok sq ->
  exists sp, calculate_systems_score p = Ok sp
             /\ fle (score sq) (score sp) = true.
Proof.
  unfold calculate_systems_score. intros H.
  apply bind_ok in H. destruct H as (hq & Hh & H).
  apply bind_ok in H. destruct H as (eq & He & H).
  apply bind_ok in H. destruct H as (pq & Hp & H).
  apply Ok_inj in H. subst sq. cbn [score].
  destruct (age_score_antitone _ _ 18 hq ltac:(lia) Hhvac Hh) as (hp & Hhp & Lh).
  destruct (age_score_antitone _ _ 35 eq ltac:(lia) Helec He) as (ep & Hep & Le).
  destruct (age_score_antitone _ _ 50 pq ltac:(lia) Hplumb Hp) as (pp & Hpp & Lp).
  rewrite Hhp, Hep, Hpp. cbn [bind].
  eexists. split; [reflexivity|]. cbn [score].
  apply category_sum_mono; try assumption;
    eapply age_score_between; eassumption.
Qed.

Lemma safety_points_ageing :
  safety_points strptime clk q <= safety_points strptime clk p.
Proof.
  unfold safety_points. cbv zeta. rewrite Hinsp.
  destruct (Z.ltb_spec 50 (current_year clk - year_built p));
    destruct (Z.ltb_spec 30 (current_year clk - year_built p));
    destruct (Z.ltb_spec 20 (current_year clk - year_built p));
    destruct (Z.ltb_spec 50 (current_year clk - year_built q));
    destruct (Z.ltb_spec 30 (current_year clk - year_built q));
    destruct (Z.ltb_spec 20 (current_year clk - year_built q));
    destruct (Z.ltb_spec 30 (electrical_age p));
    destruct (Z.ltb_spec 30 (electrical_age q));
    try lia;
    destruct (String.eqb (last_inspection q) "N/A");
    try destruct (strptime (last_inspection q)) as [d|];
    try destruct (5 * 365 <? today clk - d); lia.
Qed.

Lemma safety_ageing :
  exists sp sq,
    calculate_safety_score strptime clk p = Ok sp
    /\ calculate_safety_score strptime clk q = Ok sq
    /\ fle (score sq) (score sp) = true.
Proof.
  do 2 eexists. rewrite !safety_score_in_points.
  split; [reflexivity|]. split; [reflexivity|]. cbn [score].
  apply fle_fin. rewrite <- Zle_Qle. apply safety_points_ageing.
Qed.

(** X9. Ageing never raises a score.  Let two properties have the same
    roof material, foundation and inspection date, the second being at
    least as old as the first in its building, roof, HVAC, electrical
    and plumbing ages.  Whenever the overall score of the older one is
    returned, so is that of the younger one, and the structural, the
    systems, the safety and the overall score of the older one are at
    most those of the younger one. *)
Theorem ageing_never_raises_score (rq : overall_result) :
  calculate_overall_score strptime clk q = Ok rq ->
  exists rp,
    calculate_overall_score strptime clk p = Ok rp
    /\ fle (score (cat_structural rq)) (score (cat_structural rp)) = true
    /\ fle (score (cat_systems rq)) (score (cat_systems rp)) = true
    /\ fle (score (cat_safety rq)) (score (cat_safety rp)) = true
    /\ fle (overall_score rq) (overall_score rp) = true.
Proof.
  intros H.
  destruct (overall_parts _ _ _ _ H) as (Hst & Hsy & Hsa & Hen & Ho).
  destruct (overall_between _ _ _ _ H) as (Bst & Bsy & Bsa & Ben & _).
  destruct (structural_ageing _ Hst) as (stp & Hstp & Lst).
  destruct (systems_ageing _ Hsy) as (syp & Hsyp & Lsy).
  destruct safety_ageing as (sap & saq & Hsap & Hsaq & Lsa).
  rewrite Hsa in Hsaq. apply Ok_inj in Hsaq. subst saq.
  destruct (environmental_value p) as (enp & Henp & Venp).
  unfold calculate_overall_score. rewrite Hstp, Hsyp, Hsap, Henp. cbn [bind].
  eexists. split; [reflexivity|].
  cbn [cat_structural cat_systems cat_safety cat_environmental overall_score].
  repeat (split; [assumption|]).
  rewrite Ho, Ben, Venp.
  apply weighted_sum_mono; try assumption; try reflexivity.
  - eapply structural_between; eassumption.
  - eapply systems_between; eassumption.
  - destruct (safety_between strptime clk p) as (sa' & Hsa' & Bsa').
    rewrite Hsap in Hsa'. apply Ok_inj in Hsa'. now subst sa'.
Qed.

End Ageing.

(** ** The floor of the scores and the marks shown *)

(** X10. No overall score is below 27.3: the structural score is at
    least 21, since the foundation always counts, the safety score at
    least 65 and the environmental score is 80.  The floor is reached
    by a property whose building, roof and systems are all past 1.2
    times their expected life. *)
Theorem overall_score_floor (strptime : string -> option Z) (clk : clock)
        (p : Property) (r : overall_result) :
  calculate_overall_score strptime clk p = Ok r ->
  fle (Fin 21) (score (cat_structural r)) = true
  /\ fle (Fin 0) (score (cat_systems r)) = true
  /\ fle (Fin 65) (score (cat_safety r)) = true
  /\ (exists x, overall_score r = Fin x /\ (273 # 10 <= x)%Q)
  /\ exists w,
       calculate_overall_score sample_strptime sample_clock worn_out = Ok w
       /\ score (cat_structural w) = Fin 21
       /\ score (cat_systems w) = Fin 0
       /\ score (cat_safety w) = Fin 65
       /\ overall_score w = flit (273 # 10).
Proof.
  intros H.
  destruct (overall_between _ _ _ _ H) as (Bst & Bsy & Bsa & _ & Bo).
  split; [apply Bst|]. split; [apply Bsy|]. split; [apply Bsa|]. split.
  - destruct (between_fin _ _ _ Bo) as (x & Hx & L & _).
    exists x. split; [exact Hx|exact L].
  - vm_compute. eexists. repeat (split; [reflexivity|]). reflexivity.
Qed.

Lemma overall_score_floor_witness :
  exists r x,
    calculate_overall_score sample_strptime sample_clock old_house = Ok r
    /\ overall_score r = Fin x /\ (273 # 10 <= x)%Q.
Proof.
  destruct (calculate_overall_score sample_strptime sample_clock old_house)
    as [r|e] eqn:E.
  - destruct (overall_score_floor _ _ _ r E) as (_ & _ & _ & (x & Hx & Hb) & _).
    exists r, x. split; [reflexivity|]. split; [exact Hx|exact Hb].
  - vm_compute in E. discriminate E.
Defined.

Lemma int_le_float_int (k n : Z) :
  int_le_float k (Fin (inject_Z n)) = (k <=? n).
Proof.
  unfold int_le_float.
  change (fle (Fin (inject_Z k)) (Fin (inject_Z n)))
    with (Qle_bool (inject_Z k) (inject_Z n)).
  destruct (Z.leb_spec k n) as [H|H].
  - apply Qle_bool_iff. now rewrite <- Zle_Qle.
  - apply Qle_bool_false. now rewrite <- Zlt_Qlt.
Qed.

(** X11. In the category breakdown the environmental score always
    carries the green mark and the safety score never the red one; the
    four categories come in the order Structural, Systems, Safety,
    Environmental, each with the mark of its own score, under the
    message of the overall score. *)
Theorem category_marks (strptime : string -> option Z) (clk : clock)
        (p : Property) (msg : alert * string)
        (shown : list (string * string * float)) :
  render_health_score_visualization strptime clk p = Ok (msg, shown) ->
  exists r safety_mark,
    calculate_overall_score strptime clk p = Ok r
    /\ msg = health_message (overall_score r)
    /\ shown =
       [ (score_icon (score (cat_structural r)), "Structural"%string,
          score (cat_structural r));
         (score_icon (score (cat_systems r)), "Systems"%string,
          score (cat_systems r));
         (safety_mark, "Safety"%string, score (cat_safety r));
         ("🟢"%string, "Environmental"%string, Fin 80) ]
    /\ (safety_mark = "🟢"%string \/ safety_mark = "🟡"%string)
    /\ (safety_mark = "🟢"%string <-> fle (Fin 80) (score (cat_safety r)) = true).
Proof.
  unfold render_health_score_visualization. intros H.
  apply bind_ok in H. destruct H as (r & Hr & H). apply Ok_inj in H.
  injection H as <- <-.
  destruct (overall_parts _ _ _ _ Hr) as (_ & _ & Hsa & _ & _).
  destruct (overall_between _ _ _ _ Hr) as (_ & _ & _ & Ben & _).
  rewrite safety_score_in_points in Hsa. apply Ok_inj in Hsa.
  exists r, (score_icon (score (cat_safety r))).
  split; [exact Hr|]. split; [reflexivity|]. split.
  { unfold category_scores. cbn [map fst snd]. rewrite Ben. reflexivity. }
  rewrite <- Hsa. cbn [score].
  destruct (safety_score_bounds strptime clk p) as [L U].
  set (n := safety_points strptime clk p) in *.
  change (fle (Fin 80) (Fin (inject_Z n))) with (int_le_float 80 (Fin (inject_Z n))).
  unfold score_icon. rewrite !int_le_float_int.
  destruct (Z.leb_spec 80 n) as [H8|H8].
  - split; [now left|]. split; reflexivity.
  - destruct (Z.leb_spec 60 n) as [H6|H6]; [|lia].
    split; [now right|]. split; intros E; discriminate E.
Qed.

(** ** Assignment and deletion in a dictionary *)

Section DictOps.
Variable V : Type.
Implicit Types (d : list (string * V)) (k : string) (v : V).

Lemma dict_get_set k k' v d :
  dict_get k' (dict_set k v d) = if String.eqb k' k then Some v else dict_get k' d.
Proof.
  induction d as [|[k0 v0] t IH]; simpl.
  - reflexivity.
  - destruct (String.eqb_spec k k0) as [->|Hk]; simpl.
    + destruct (String.eqb k' k0); reflexivity.
    + destruct (String.eqb_spec k' k0) as [->|Hk'].
      * destruct (String.eqb_spec k0 k) as [E|_]; [now symmetry in E|reflexivity].
      * exact IH.
Qed.

Lemma dict_get_del k k' d :
  dict_get k' (dict_del k d) = if String.eqb k' k then None else dict_get k' d.
Proof.
  unfold dict_del. induction d as [|[k0 v0] t IH]; simpl.
  - destruct (String.eqb k' k); reflexivity.
  - destruct (String.eqb_spec k k0) as [->|Hk]; simpl.
    + rewrite IH. destruct (String.eqb k' k0); reflexivity.
    + destruct (String.eqb_spec k' k0) as [->|Hk'].
      * destruct (String.eqb_spec k0 k) as [E|_]; [now symmetry in E|reflexivity].
      * exact IH.
Qed.

Lemma dict_mem_get k d :
  dict_mem k d = match dict_get k d with Some _ => true | None => false end.
Proof. reflexivity. Qed.

Lemma dict_get_keys k d : dict_get k d = None <-> ~ In k (dict_keys d).
Proof.
  unfold dict_keys. induction d as [|[k0 v0] t IH]; simpl.
  - tauto.
  - destruct (String.eqb_spec k k0) as [->|Hk].
    + split; [discriminate|]. intros H. exfalso. apply H. now left.
    + rewrite IH. split.
      * intros H [E|E]; [now symmetry in E|now apply H].
      * intros H E. apply H. now right.
Qed.

End DictOps.

Lemma get_set_if_missing (k k' : string) (v : value) (s : session) :
  dict_get k' (set_if_missing k v s) =
  match dict_get k' s with
  | Some x => Some x
  | None => if String.eqb k' k then Some v else None
  end.
Proof.
  unfold set_if_missing. rewrite dict_mem_get.
  destruct (dict_get k s) as [x|] eqn:E.
  - destruct (dict_get k' s) as [y|] eqn:E'; [reflexivity|].
    destruct (String.eqb_spec k' k) as [->|_]; [|reflexivity].
    rewrite E in E'. discriminate.
  - rewrite dict_get_set.
    destruct (String.eqb_spec k' k) as [->|_].
    + now rewrite E.
    + now destruct (dict_get k' s).
Qed.

Lemma set_if_missing_present (k : string) (v : value) (s : session) :
  dict_mem k s = true -> set_if_missing k v s = s.
Proof. unfold set_if_missing. now intros ->. Qed.

(** ** Initialising the session *)

Lemma default_session :
  init_session_state [] =
  [ ("properties"%string, VProperties []);
    ("maintenance_records"%string, VRecords []);
    ("show_add_property_form_main"%string, VBool false);
    ("show_add_maintenance_form_main"%string, VBool false);
    ("editing_property_address"%string, VNone);
    ("active_tab"%string, VStr "📈 Property Health");
    ("roi_property_address"%string, VNone);
    ("roi_improvement_name"%string, VStr "");
    ("roi_estimated_cost"%string, VFloat (Fin 0));
    ("roi_resale_value_increase"%string, VFloat (Fin 0));
    ("roi_annual_savings"%string, VFloat (Fin 0));
    ("roi_years_to_project"%string, VInt 5) ].
Proof. reflexivity. Qed.

Lemma init_session_state_get (s : session) (k : string) :
  dict_get k (init_session_state s) =
  match dict_get k s with
  | Some v => Some v
  | None => dict_get k (init_session_state [])
  end.
Proof.
  rewrite default_session.
  unfold init_session_state, roi_defaults. cbn [fold_left fst snd].
  rewrite !get_set_if_missing.
  destruct (dict_get k s) as [v|]; [reflexivity|].
  unfold dict_get.
  repeat match goal with
         | |- context [String.eqb k ?x] =>
             destruct (String.eqb_spec k x); [subst; reflexivity|]
         end.
  reflexivity.
Qed.

Lemma init_session_state_mem (s : session) (k : string) :
  dict_mem k (init_session_state []) = true ->
  dict_mem k (init_session_state s) = true.
Proof.
  rewrite !dict_mem_get, (init_session_state_get s k).
  destruct (dict_get k s); [reflexivity|]. exact (fun H => H).
Qed.

(** X12. [init_session_state] fills in what is missing and nothing
    else: a key that is already in the session keeps its value, each of
    the twelve keys of the dashboard that is missing gets its default,
    and no other key appears.  Running it a second time changes
    nothing. *)
Theorem init_session_state_fills_missing (s : session) :
  (forall k,
     dict_get k (init_session_state s) =
     match dict_get k s with
     | Some v => Some v
     | None =>
         dict_get k
           [ ("properties"%string, VProperties []);
             ("maintenance_records"%string, VRecords []);
             ("show_add_property_form_main"%string, VBool false);
             ("show_add_maintenance_form_main"%string, VBool false);
             ("editing_property_address"%string, VNone);
             ("active_tab"%string, VStr "📈 Property Health");
             ("roi_property_address"%string, VNone);
             ("roi_improvement_name"%string, VStr "");
             ("roi_estimated_cost"%string, VFloat (Fin 0));
             ("roi_resale_value_increase"%string, VFloat (Fin 0));
             ("roi_annual_savings"%string, VFloat (Fin 0));
             ("roi_years_to_project"%string, VInt 5) ]
     end)
  /\ init_session_state (init_session_state s) = init_session_state s.
Proof.
  split.
  - intros k. rewrite init_session_state_get, default_session. reflexivity.
  - set (s' := init_session_state s).
    unfold init_session_state at 1. unfold roi_defaults. cbn [fold_left fst snd].
    repeat (rewrite (set_if_missing_present _ _ s')
              by (apply init_session_state_mem; reflexivity)).
    reflexivity.
Qed.

(** ** Logging out *)

Lemma fold_del_get (keys : list string) (s : session) (k : string) :
  dict_get k
    (fold_left (fun s key_to_del =>
                  if dict_mem key_to_del s then dict_del key_to_del s else s)
               keys s)
  = if existsb (String.eqb k) keys then None else dict_get k s.
Proof.
  revert s. induction keys as [|k0 t IH]; intros s; simpl.
  - reflexivity.
  - rewrite IH.
    assert (E : dict_get k (if dict_mem k0 s then dict_del k0 s else s)
                = if String.eqb k k0 then None else dict_get k s).
    { rewrite dict_mem_get. destruct (dict_get k0 s) as [x|] eqn:E0.
      - apply dict_get_del.
      - destruct (String.eqb_spec k k0) as [->|_]; [exact E0|reflexivity]. }
    rewrite E. destruct (String.eqb k k0); simpl; [|reflexivity].
    now destruct (existsb (String.eqb k) t).
Qed.

Lemma existsb_eqb_in (k : string) (l : list string) :
  existsb (String.eqb k) l = true <-> In k l.
Proof.
  rewrite existsb_exists. split.
  - intros (x & Hx & E). apply String.eqb_eq in E. now subst.
  - intros H. exists k. split; [exact H|apply String.eqb_refl].
Qed.

(** X13. Logging out removes the keys of the login, of the forms and
    of the selections, and nothing else: a key is gone when it starts
    with [auth_], [selected_property_address_], [roi_] or
    [maintenance_filter_urgency_] or is one of seven fixed keys; every
    other key keeps its value.  So the session is no longer
    authenticated, while the properties and the maintenance records
    stay in it. *)
Theorem logout_clears (s : session) :
  (forall k,
     dict_get k (logout s) =
     if String.prefix "auth_" k
        || existsb (String.eqb k)
             [ "access_info"; "authenticated"; "access_timestamp";
               "show_add_property_form_main"; "show_add_maintenance_form_main";
               "editing_property_address"; "active_tab" ]%string
        || String.prefix "selected_property_address_" k
        || String.prefix "roi_" k
        || String.prefix "maintenance_filter_urgency_" k
     then None else dict_get k s)
  /\ truthy (is_authenticated (logout s)) = false
  /\ dict_get "properties" (logout s) = dict_get "properties" s
  /\ dict_get "maintenance_records" (logout s) = dict_get "maintenance_records" s.
Proof.
  assert (Hk : forall k,
     dict_get k (logout s) =
     if String.prefix "auth_" k
        || existsb (String.eqb k)
             [ "access_info"; "authenticated"; "access_timestamp";
               "show_add_property_form_main"; "show_add_maintenance_form_main";
               "editing_property_address"; "active_tab" ]%string
        || String.prefix "selected_property_address_" k
        || String.prefix "roi_" k
        || String.prefix "maintenance_filter_urgency_" k
     then None else dict_get k s).
  { intros k. unfold logout. cbv zeta. rewrite fold_del_get.
    rewrite !existsb_app.
    assert (Hf : forall f, existsb (String.eqb k) (filter f (dict_keys s))
                           = f k && existsb (String.eqb k) (dict_keys s)).
    { intros f. destruct (existsb (String.eqb k) (filter f (dict_keys s))) eqn:E.
      - apply existsb_eqb_in in E. apply filter_In in E. destruct E as [Hin Hfk].
        rewrite Hfk. symmetry. now apply existsb_eqb_in.
      - destruct (f k) eqn:Hfk; [|reflexivity].
        destruct (existsb (String.eqb k) (dict_keys s)) eqn:E'; [|reflexivity].
        apply existsb_eqb_in in E'.
        assert (Hin : In k (filter f (dict_keys s))) by (apply filter_In; now split).
        apply existsb_eqb_in in Hin. rewrite Hin in E. discriminate. }
    rewrite !Hf.
    destruct (existsb (String.eqb k) (dict_keys s)) eqn:Ek.
    - rewrite !andb_true_r.
      destruct (String.prefix "auth_" k);
        destruct (String.prefix "selected_property_address_" k);
        destruct (String.prefix "roi_" k);
        destruct (String.prefix "maintenance_filter_urgency_" k);
        match goal with |- context [existsb (String.eqb k) ?l] =>
          destruct (existsb (String.eqb k) l) end; reflexivity.
    - assert (Hn : dict_get k s = None).
      { apply dict_get_keys. intros Hin. apply existsb_eqb_in in Hin.
        rewrite Hin in Ek. discriminate. }
      rewrite Hn, !andb_false_r. cbn [orb].
      match goal with |- context [existsb (String.eqb k) ?l] =>
        destruct (existsb (String.eqb k) l) end;
      match goal with |- _ = (if ?b then None else None) => destruct b end;
      reflexivity. }
  split; [exact Hk|]. split.
  - unfold is_authenticated, dict_get_default. rewrite Hk. reflexivity.
  - split; rewrite Hk; reflexivity.
Qed.

(** ** Quick actions and the main panel *)

(** X14. In an authenticated session each quick action leads to its
    own panel, whatever was open before: "Add New Property" to the
    add-property form, "Log Maintenance Task" to the maintenance form,
    and "View Urgent Tasks" to the tabs, with the maintenance tab
    active and the portfolio-wide urgency filter set to "High".  The
    three handlers leave every other key of the session as it was. *)
Theorem quick_actions_open_their_panel (s : session) :
  truthy (is_authenticated s) = true ->
  run (quick_add_property s) = AddPropertyForm
  /\ run (quick_log_maintenance s) = AddMaintenanceForm
  /\ run (quick_view_urgent s) = Tabs
  /\ dict_get "active_tab" (quick_view_urgent s) = Some (VStr "🧰 Maintenance Center")
  /\ dict_get "maintenance_filter_urgency_all" (quick_view_urgent s)
     = Some (VStr "High")
  /\ forall k,
       ~ In k [ "show_add_property_form_main"; "show_add_maintenance_form_main";
                "editing_property_address"; "active_tab";
                "maintenance_filter_urgency_all" ]%string ->
       dict_get k (quick_add_property s) = dict_get k s
       /\ dict_get k (quick_log_maintenance s) = dict_get k s
       /\ dict_get k (quick_view_urgent s) = dict_get k s.
Proof.
  intros Ha.
  unfold run, is_authenticated, dict_get_default,
    quick_add_property, quick_log_maintenance, quick_view_urgent in *.
  cbv zeta. rewrite !dict_get_set. simpl String.eqb. cbv iota.
  destruct (dict_get "authenticated" s) as [v|]; [|discriminate Ha].
  rewrite Ha. cbn [negb truthy].
  repeat (split; [reflexivity|]).
  intros k Hk. simpl in Hk. rewrite !dict_get_set.
  repeat match goal with
         | |- context [String.eqb k ?x] =>
             destruct (String.eqb_spec k x); [exfalso; apply Hk; subst; auto 10|]
         end.
  repeat split.
Qed.

Lemma quick_actions_open_their_panel_witness :
  run (quick_log_maintenance sample_session) = AddMaintenanceForm
  /\ run (quick_view_urgent sample_session) = Tabs.
Proof.
  destruct (quick_actions_open_their_panel sample_session eq_refl)
    as (_ & H2 & H3 & _).
  now split.
Defined.

(** ** The urgency filter of the maintenance history *)

Lemma insert_sorted_in (x y : string) (l : list string) :
  In y (insert_sorted x l) <-> y = x \/ In y l.
Proof.
  induction l as [|z t IH]; simpl.
  - intuition.
  - destruct (String.compare x z) eqn:E; simpl.
    + apply String.compare_eq_iff in E. subst. intuition.
    + intuition.
    + rewrite IH. intuition.
Qed.

Lemma sorted_set_in (y : string) (l : list string) :
  In y (sorted_set l) <-> In y l.
Proof.
  induction l as [|x t IH]; simpl.
  - reflexivity.
  - rewrite insert_sorted_in, IH. intuition.
Qed.


Lemma list_index_not_in (x : string) (l : list string) :
  ~ In x l -> list_index x l = Raise ValueError.
Proof.
  induction l as [|y t IH]; simpl; [reflexivity|].
  intros H. destruct (String.eqb_spec y x) as [->|Hn].
  - exfalso. apply H. now left.
  - rewrite IH; [reflexivity|]. intros Hin. apply H. now right.
Qed.

Lemma history_unfold (arg : option string) (records : list MaintenanceRecord)
      (s : session) :
  render_maintenance_history arg records s =
  match history_scope arg records with
  | [] => Ok (s, None)
  | r :: rest =>
      let options := "All"%string :: sorted_set (map urgency (r :: rest)) in
      index <- list_index_value (history_filter arg s) options ;;
      Ok (set_if_missing (history_filter_key arg) (VStr "All") s,
          Some (r :: rest, options, index))
  end.
Proof.
  unfold render_maintenance_history, history_scope, history_filter,
    history_filter_key.
  assert (Hall : forall l : list MaintenanceRecord,
            filter (fun r => negb false || String.eqb (property_address r) "") l = l).
  { induction l as [|x t IH]; [reflexivity|].
    cbn [filter negb orb]. f_equal. exact IH. }
  assert (Hget : forall key,
            dict_index key (set_if_missing key (VStr "All") s)
            = Ok (dict_get_default key s (VStr "All"))).
  { intros key. unfold dict_index, dict_get_default.
    rewrite get_set_if_missing, String.eqb_refl.
    now destruct (dict_get key s). }
  destruct arg as [a|].
  - destruct (String.eqb_spec a "") as [->|Hne]; cbn [negb orb].
    + rewrite Hall. destruct records as [|r rest]; [reflexivity|].
      cbv zeta. rewrite Hget. reflexivity.
    + destruct (filter _ records) as [|r rest]; [reflexivity|].
      cbv zeta. rewrite Hget. reflexivity.
  - cbn [negb orb]. rewrite Hall. destruct records as [|r rest]; [reflexivity|].
    cbv zeta. rewrite Hget. reflexivity.
Qed.

Lemma history_options (scope : list MaintenanceRecord) (o : string) :
  In o ("All"%string :: sorted_set (map urgency scope))
  <-> o = "All"%string \/ In o (map urgency scope).
Proof.
  cbn [In]. rewrite sorted_set_in.
  split; (intros [E|H]; [left; now symmetry|now right]).
Qed.


Lemma history_index_missing (arg : option string) (records : list MaintenanceRecord)
      (s : session) :
  history_scope arg records <> [] ->
  (forall u, history_filter arg s = VStr u ->
             u <> "All"%string /\ ~ In u (map urgency (history_scope arg records))) ->
  render_maintenance_history arg records s = Raise ValueError.
Proof.
  intros Hne H. rewrite history_unfold.
  destruct (history_scope arg records) as [|r rest]; [now exfalso|]. cbv zeta.
  destruct (history_filter arg s) as [| | | |u| | | |]; try reflexivity.
  cbn [list_index_value]. destruct (H u eq_refl) as [Hu Hnin].
  rewrite list_index_not_in; [reflexivity|].
  intros Hin. apply history_options in Hin.
  destruct Hin as [E|Hin]; [now apply Hu|now apply Hnin].
Qed.


(** ** Deleting a property under a stored filter *)

Lemma delete_property_records (a : string) (st : session_state) :
  (exists prop, In prop (properties st) /\ address prop = a) ->
  maintenance_records (delete_property a st)
  = filter (fun r => negb (String.eqb (property_address r) a)) (maintenance_records st).
Proof.
  intros (prop & Hin & Ha). unfold delete_property.
  destruct (find_index (fun p_obj => String.eqb (address p_obj) a) (properties st))
    as [idx|] eqn:E; [reflexivity|].
  exfalso. clear -Hin Ha E. induction (properties st) as [|x t IH]; [destruct Hin|].
  simpl in E. destruct (String.eqb_spec (address x) a) as [_|Hn]; [discriminate|].
  destruct (find_index _ t); [discriminate|].
  destruct Hin as [->|Hin]; [contradiction|]. now apply IH.
Qed.

(** X16. Deleting a property can leave the maintenance history without
    its stored filter.  Let the portfolio-wide filter hold an urgency
    other than "All", and let every record of that urgency belong to
    one address.  Once a property of that address is deleted, if any
    record is left, the portfolio-wide history raises [ValueError]. *)
Theorem history_fails_after_delete (a u : string) (st : session_state) (s : session) :
  (exists prop, In prop (properties st) /\ address prop = a) ->
  dict_get "maintenance_filter_urgency_all" s = Some (VStr u) ->
  u <> "All"%string ->
  (forall r, In r (maintenance_records st) -> urgency r = u -> property_address r = a) ->
  maintenance_records (delete_property a st) <> [] ->
  render_maintenance_history None (maintenance_records (delete_property a st)) s
  = Raise ValueError.
Proof.
  intros Hp Hs Hu Hall Hne.
  apply history_index_missing.
  - exact Hne.
  - intros u' E. unfold history_filter, history_filter_key, dict_get_default in E.
    rewrite Hs in E. injection E as <-. split; [exact Hu|].
    unfold history_scope. rewrite (delete_property_records a st Hp).
    intros Hin. apply in_map_iff in Hin. destruct Hin as (r & Hr & Hin).
    apply filter_In in Hin. destruct Hin as [Hin Hf].
    rewrite (Hall r Hin Hr), String.eqb_refl in Hf. discriminate.
Qed.

(** ** Records and their properties *)

Lemma in_del_at {A : Type} (l : list A) (i : nat) (x y : A) :
  nth_error l i = Some x -> In y l -> y <> x -> In y (del_at i l).
Proof.
  revert i. induction l as [|z t IH]; intros i Hn Hin Hne; [destruct Hin|].
  destruct i as [|i]; simpl in *.
  - injection Hn as ->. destruct Hin as [E|Hin]; [now symmetry in E|exact Hin].
  - destruct Hin as [E|Hin]; [now left|right]. now apply (IH i).
Qed.

Lemma delete_property_belong (a : string) (st : session_state) :
  records_belong st -> records_belong (delete_property a st).
Proof.
  intros H. unfold delete_property.
  destruct (find_index (fun p_obj => String.eqb (address p_obj) a) (properties st))
    as [idx|] eqn:E; [|exact H].
  destruct (find_index_some _ _ _ E) as (x & Hx & Hax).
  apply String.eqb_eq in Hax.
  intros r Hr. cbn [maintenance_records properties] in *.
  apply filter_In in Hr. destruct Hr as [Hr Hf].
  destruct (H r Hr) as (prop & Hin & Hprop).
  exists prop. split; [|exact Hprop].
  apply (in_del_at _ idx x); [exact Hx|exact Hin|].
  intros ->. rewrite <- Hprop, Hax, String.eqb_refl in Hf. discriminate.
Qed.

Section Portfolio.
Variable upper : string -> string.
Variable strftime : Z -> string.

Lemma display_options_address (props : list Property) (label addr : string) :
  dict_get label (property_display_options upper props) = Some addr ->
  exists prop, In prop props /\ address prop = addr.
Proof.
  unfold property_display_options.
  assert (G : forall (d : list (string * string)),
            (forall l a, dict_get l d = Some a ->
                         exists prop, In prop props /\ address prop = a) ->
            forall rest, incl rest props ->
            forall l a,
              dict_get l
                (fold_left
                   (fun d prop =>
                      dict_set (address prop ++ ", " ++ city prop ++ ", "
                                ++ upper (state prop))%string (address prop) d)
                   rest d) = Some a ->
              exists prop, In prop props /\ address prop = a).
  { intros d Hd rest. revert d Hd.
    induction rest as [|x t IH]; intros d Hd Hincl l a; simpl.
    - apply Hd.
    - apply IH.
      + intros l' a'. rewrite dict_get_set.
        destruct (String.eqb l' _).
        * intros [= <-]. exists x. split; [apply Hincl; now left|reflexivity].
        * apply Hd.
      + intros y Hy. apply Hincl. now right. }
  apply (G [] ltac:(intros l a; discriminate) props (incl_refl _)).
Qed.

(** X17. Every maintenance record belongs to a property of the
    portfolio, and the handlers keep it so: adding a property, logging
    a maintenance record, whatever the select box and the fields hold,
    and deleting a property, by address or by its entry in the select
    box. *)
Theorem records_belong_preserved (st : session_state) :
  records_belong st ->
  (forall form, records_belong (add_property upper strftime form st))
  /\ (forall form, records_belong (add_maintenance_record upper strftime form st))
  /\ (forall a, records_belong (delete_property a st))
  /\ (forall selected, records_belong (delete_selected selected st)).
Proof.
  intros H. split; [|split; [|split]].
  - intros form. unfold add_property.
    destruct (forallb nonempty _); [|exact H].
    intros r Hr. cbn [maintenance_records properties] in *.
    destruct (H r Hr) as (prop & Hin & Hprop).
    exists prop. split; [apply in_or_app; now left|exact Hprop].
  - intros form. unfold add_maintenance_record.
    destruct (properties st) as [|p0 ps] eqn:Hps; [exact H|].
    destruct (form_selected_display_address form) as [label|]; [|exact H].
    destruct (nonempty label); [|exact H].
    destruct (dict_get label (property_display_options upper (p0 :: ps)))
      as [addr|] eqn:Hd; [|exact H].
    destruct (nonempty addr && nonempty (form_description form)
              && nonempty (form_category form) && nonempty (form_urgency form));
      [|exact H].
    intros r Hr. cbn [maintenance_records properties] in *.
    apply in_app_or in Hr. destruct Hr as [Hr|[<-|[]]].
    + rewrite <- Hps. apply H. exact Hr.
    + cbn [property_address]. now apply display_options_address with label.
  - intros a. now apply delete_property_belong.
  - intros selected. unfold delete_selected.
    destruct (nth_error (properties st) selected); [|exact H].
    now apply delete_property_belong.
Qed.

Lemma find_index_app_fresh {A : Type} (f : A -> bool) (l : list A) (x : A) :
  (forall y, In y l -> f y = false) -> f x = true ->
  find_index f (l ++ [x]) = Some (length l).
Proof.
  intros Hl Hx. induction l as [|y t IH]; simpl.
  - now rewrite Hx.
  - rewrite (Hl y (or_introl eq_refl)), IH; [reflexivity|].
    intros z Hz. apply Hl. now right.
Qed.

Lemma del_at_last {A : Type} (l : list A) (x : A) : del_at (length l) (l ++ [x]) = l.
Proof. induction l as [|y t IH]; simpl; [reflexivity|now rewrite IH]. Qed.

Lemma filter_all {A : Type} (f : A -> bool) (l : list A) :
  (forall y, In y l -> f y = true) -> filter f l = l.
Proof.
  induction l as [|y t IH]; intros H; simpl; [reflexivity|].
  rewrite (H y (or_introl eq_refl)), IH; [reflexivity|].
  intros z Hz. apply H. now right.
Qed.

(** X18. Adding a property and deleting it again restores the
    portfolio.  When the form is complete, no property has its address
    yet and every record belongs to a property, the properties and the
    maintenance records after the two steps are those before, in the
    same order. *)
Theorem add_then_delete (form : property_form) (st : session_state) :
  forallb nonempty
    [form_address form; form_city form; form_state form; form_zip_code form] = true ->
  (forall prop, In prop (properties st) -> address prop <> form_address form) ->
  records_belong st ->
  let st' := delete_property (form_address form) (add_property upper strftime form st) in
  properties (add_property upper strftime form st) <> properties st
  /\ properties st' = properties st
  /\ maintenance_records st' = maintenance_records st.
Proof.
  intros Hform Hfresh Hb st'. subst st'. unfold add_property. rewrite Hform.
  cbv zeta.
  split.
  { cbn [properties]. intros E.
    apply (f_equal (@length _)) in E. rewrite length_app in E. simpl in E. lia. }
  unfold delete_property. cbn [properties maintenance_records].
  rewrite find_index_app_fresh.
  - cbn [properties maintenance_records]. split; [apply del_at_last|].
    apply filter_all. intros r Hr.
    destruct (Hb r Hr) as (prop & Hin & Hprop).
    destruct (String.eqb_spec (property_address r) (form_address form)) as [E|_];
      [|reflexivity].
    exfalso. apply (Hfresh prop Hin). now rewrite Hprop.
  - intros y Hy. apply String.eqb_neq. now apply Hfresh.
  - cbn [address]. apply String.eqb_refl.
Qed.

End Portfolio.

Lemma cost_estimate_ordered_witness :
  exists e, get_local_cost_estimate "roof_repair" "22102" = Ok e
            /\ 0 < est_min e /\ est_min e <= national_avg e <= est_max e.
Proof.
  destruct (cost_estimate_ordered "roof_repair" "22102") as (e & He & _ & _ & Hk).
  exists e. split; [exact He|]. apply Hk. reflexivity.
Defined.

Lemma cost_estimate_between_regions_witness :
  exists e, get_local_cost_estimate "water_heater" "90210" = Ok e
            /\ e = {| est_min := 1000; est_max := 3500; est_avg := 1800;
                      est_confidence := "low"; est_region := "National Average";
                      national_avg := 1800 |}.
Proof.
  destruct (cost_estimate_between_regions "water_heater" "90210")
    as (_ & e & _ & _ & He & _ & _ & _ & _ & Hd).
  exists e. split; [exact He|].
  apply (Hd ltac:(discriminate) ltac:(discriminate)
            {| cmin := 1000; cmax := 3500; cavg := 1800 |}).
  reflexivity.
Defined.

Lemma schedule_size_witness :
  exists schedule,
    generate_maintenance_schedule sample_clock old_house = Ok schedule
    /\ In (mk_task sample_clock "Exterior Caulking & Sealing Check" "Annually" 270
             "routine" 100
             "Check windows, doors, and siding for gaps to prevent drafts and water intrusion.")
          schedule.
Proof.
  destruct (schedule_size sample_clock old_house) as (schedule & Hs & _ & _ & Hin).
  exists schedule. split; [exact Hs|]. apply Hin. simpl. tauto.
Defined.

Lemma schedule_costs_and_dates_witness :
  exists schedule t,
    generate_maintenance_schedule sample_clock old_house = Ok schedule
    /\ hd_error schedule = Some t
    /\ 10 <= estimated_cost t <= 10125.
Proof.
  destruct (schedule_costs_and_dates sample_clock old_house) as (schedule & Hs & Hall).
  destruct schedule as [|t rest].
  - vm_compute in Hs. discriminate Hs.
  - exists (t :: rest), t. split; [exact Hs|]. split; [reflexivity|].
    apply (Hall t). now left.
Defined.

Lemma upcoming_tasks_keep_priorities_witness :
  exists schedule shown,
    generate_maintenance_schedule sample_clock old_house = Ok schedule
    /\ render_predictions_and_recommendations sample_clock old_house = Ok shown
    /\ forall t, In t schedule -> priority t = "high"%string -> In t (map snd shown).
Proof.
  destruct (upcoming_tasks_keep_priorities sample_clock old_house)
    as (schedule & shown & Hs & Hr & _ & _ & Hk).
  exists schedule, shown. split; [exact Hs|]. split; [exact Hr|].
  intros t Ht Hp. apply (Hk t Ht). rewrite Hp. discriminate.
Defined.

Lemma ageing_never_raises_score_witness :
  exists rp rq,
    calculate_overall_score sample_strptime sample_clock new_build = Ok rp
    /\ calculate_overall_score sample_strptime sample_clock aged_build = Ok rq
    /\ fle (overall_score rq) (overall_score rp) = true.
Proof.
  destruct (calculate_overall_score sample_strptime sample_clock aged_build)
    as [rq|e] eqn:E.
  - destruct (ageing_never_raises_score sample_strptime sample_clock
                new_build aged_build
                ltac:(vm_compute; discriminate) ltac:(vm_compute; discriminate)
                ltac:(vm_compute; discriminate) ltac:(vm_compute; discriminate)
                ltac:(vm_compute; discriminate) eq_refl eq_refl eq_refl rq E)
      as (rp & Hp & _ & _ & _ & Ho).
    exists rp, rq. split; [exact Hp|]. split; [reflexivity|exact Ho].
  - vm_compute in E. discriminate E.
Defined.

Lemma category_marks_witness :
  exists msg shown,
    render_health_score_visualization sample_strptime sample_clock old_house
    = Ok (msg, shown)
    /\ In ("🟢"%string, "Environmental"%string, Fin 80) shown.
Proof.
  destruct (render_health_score_visualization sample_strptime sample_clock old_house)
    as [[msg shown]|e] eqn:E.
  - destruct (category_marks _ _ _ msg shown E) as (r & m & _ & _ & Hs & _).
    exists msg, shown. split; [reflexivity|]. rewrite Hs. simpl. tauto.
  - vm_compute in E. discriminate E.
Defined.


Lemma history_fails_after_delete_witness :
  render_maintenance_history None
    (maintenance_records (delete_property "7 Mill Rd" urgent_state))
    (quick_view_urgent sample_session)
  = Raise ValueError.
Proof.
  apply (history_fails_after_delete "7 Mill Rd" "High" urgent_state).
  - exists old_house. split; [now left|reflexivity].
  - reflexivity.
  - discriminate.
  - intros r [<-|[<-|[]]] H; [reflexivity|discriminate H].
  - discriminate.
Defined.

Lemma sample_state_belongs : records_belong sample_state.
Proof.
  intros r [<-|[<-|[<-|[]]]].
  - exists new_build. split; [right; now left|reflexivity].
  - exists old_house. split; [now left|reflexivity].
  - exists new_build. split; [right; now left|reflexivity].
Qed.

Lemma records_belong_preserved_witness :
  records_belong (add_maintenance_record sample_upper sample_strftime
                    sample_maintenance_form sample_state)
  /\ length (maintenance_records
               (add_maintenance_record sample_upper sample_strftime
                  sample_maintenance_form sample_state)) = 4%nat.
Proof.
  split; [|reflexivity].
  apply (records_belong_preserved sample_upper sample_strftime sample_state
           sample_state_belongs).
Defined.

Lemma add_then_delete_witness :
  properties (delete_property "5 Oak Ave"
                (add_property sample_upper sample_strftime sample_property_form
                   sample_state))
  = properties sample_state.
Proof.
  apply (add_then_delete sample_upper sample_strftime sample_property_form
           sample_state eq_refl).
  - intros prop [<-|[<-|[]]]; discriminate.
  - exact sample_state_belongs.
Defined.
